(** * pyapprox/approximate.py: basis selection for polynomial chaos expansions

    A shallow embedding of the index-set algebra ([restrict_basis],
    [expand_basis]), of the regression front end ([fit_linear_model]) and of the
    two search drivers ([_cross_validate_pce_degree], [_expanding_basis_pce]),
    together with the multi-QoI merge that closes [expanding_basis_pce],
    [cross_validate_pce_degree] and [approximate_fixed_pce]; then of
    [approximate_fixed_pce] as a whole and of the entry points [approximate],
    [adaptive_approximate], [approximate_polynomial_chaos] and
    [adaptive_approximate_polynomial_chaos], whose callees in other modules
    are parameters.

    Conventions.
    - A multi-index is one column of the numpy array [indices], a [list Z].
      A two-dimensional index array of shape [(nvars, nindices)] is the list
      of its columns; [nvars] is passed next to it where the source reads it
      off [indices.shape].
    - Coefficients and scores are finite floats; only comparisons, absolute
      values and tests against zero are applied to them here, and these are
      exact, so they are embedded as rationals [Q].
    - A Python exception is a value [Raise e] of the [result] type. *)

From Stdlib Require Import ZArith QArith Qabs Lia.
From stdpp Require Import gmap strings list.

Local Open Scope Z_scope.

(** ** Exceptions *)

Inductive exn : Type :=
  | AssertionError
  | NameError
  | IndexError
  | ValueError
  | TypeError
  | UnboundLocalError
  | KeyError
  | Exception (msg : string).

(** [Unfinished] is not a Python outcome: it marks a [while True] loop that
    was cut off when its fuel ran out. *)
Inductive result (A : Type) : Type :=
  | Ok (a : A)
  | Raise (e : exn)
  | Unfinished.
Arguments Ok {A} a.
Arguments Raise {A} e.
Arguments Unfinished {A}.

#[global] Instance result_ret : MRet result := fun A a => Ok a.
#[global] Instance result_bind : MBind result := fun A B f m =>
  match m with
  | Ok a => f a
  | Raise e => Raise e
  | Unfinished => Unfinished
  end.

Definition raises {A} (r : result A) : Prop :=
  match r with
  | Raise _ => True
  | _ => False
  end.

(** The outcome of a call into another library, which returns or raises. *)
Definition call {A} (r : exn + A) : result A :=
  match r with
  | inl e => Raise e
  | inr a => Ok a
  end.

Definition py_assert (b : bool) : result unit :=
  if b then Ok tt else Raise AssertionError.

(** ** numpy helpers *)

Abbreviation multi_index := (list Z).

(** [np.where(mask)[0]] and [np.nonzero(v)[0]] on a one-dimensional mask:
    the positions that hold, in increasing order. *)
Fixpoint np_where_from {A} (p : A -> bool) (start : nat) (l : list A) : list nat :=
  match l with
  | [] => []
  | x :: l' => if p x then start :: np_where_from p (S start) l'
               else np_where_from p (S start) l'
  end.

Definition np_where {A} (p : A -> bool) (l : list A) : list nat :=
  np_where_from p 0 l.

(** [np.nonzero(index)] returns a tuple with one array per dimension of its
    argument; for a one-dimensional [index] the tuple has exactly one entry,
    the array of the non-zero positions. *)
Definition np_nonzero (index : multi_index) : list (list nat) :=
  [np_where (fun x => negb (x =? 0)) index].

(** [indices[:, I]]: the columns at the positions [I]; numpy raises
    [IndexError] on a position out of range. *)
Fixpoint take_columns {A} (cols : list A) (I : list nat) : result (list A) :=
  match I with
  | [] => Ok []
  | j :: I' =>
      match cols !! j with
      | Some c => rest ← take_columns cols I'; Ok (c :: rest)
      | None => Raise IndexError
      end
  end.

(** [indices.sum(axis=0)] for one column. *)
Definition degree_of (i : multi_index) : Z := foldr Z.add 0 i.

(** [abs(c) > tol] *)
Definition exceeds (tol c : Q) : bool := negb (Qle_bool (Qabs c) tol).

(** [c != 0] *)
Definition Qnonzero (c : Q) : bool := negb (Qeq_bool c 0).

(** The all-zero (constant) multi-index. *)
Definition is_zero_index (i : multi_index) : bool := forallb (Z.eqb 0) i.

(** ** Neighbours of a multi-index *)

(** Modelled from the spec: [get_forward_neighbor] is imported from the
    [pyapprox] package and its body is not in [approximate.py];
    [forward = idx + e_d] (increment coordinate d by one). *)
Definition get_forward_neighbor (subspace_index : multi_index) (var_num : nat) : multi_index :=
  alter (fun x => x + 1) var_num subspace_index.

(** Modelled from the spec: [get_backward_neighbor] is imported from the
    [pyapprox] package and its body is not in [approximate.py];
    [backward_k = forward - e_k]. [expand_basis] passes it an element of
    the tuple [np.nonzero(index)], that is an array of positions, so
    [var_num] is a list here: numpy's indexed in-place subtraction lowers
    the entry at each listed position by one. With a one-element list this
    is [forward - e_k]. *)
Definition get_backward_neighbor (subspace_index : multi_index) (var_num : list nat) : multi_index :=
  foldr (fun k neighbor => alter (fun x => x - 1) k neighbor) subspace_index var_num.

(** ** Restriction *)

(** [restrict_basis(indices, coefficients, tol)]. [coefficients] is the single
    column of the [(nterms, 1)] coefficient array. In the branch that should
    put the constant index back, the name [restrict_indices] is not bound
    anywhere in the module, so building the argument of [np.concatenate]
    raises [NameError] (unless numpy has already refused the slice
    [indices[:J]], whose bound is an array, with a [TypeError]): either way
    the branch raises. *)
Definition restrict_basis (indices : list multi_index) (coefficients : list Q) (tol : Q)
  : result (list multi_index) :=
  let I := np_where (exceeds tol) coefficients in
  restricted_indices ← take_columns indices I;
  let degrees := degree_of <$> indices in
  let J := np_where (Z.eqb 0) degrees in
  _ ← py_assert (length J =? 1)%nat;
  if forallb (fun j => bool_decide (j ∈ I)) J
  then Ok restricted_indices
  else Raise NameError.

(** ** Expansion *)

Section Expansion.
Context {K : Type} `{Countable K}.

(** [hash_array] is imported from the [pyapprox] package; it is the key
    under which an index is stored in Python sets and dictionaries. *)
Variable hash_array : multi_index -> K.

Definition hash_all (indices : list multi_index) : gset K :=
  foldl (fun indices_set i => indices_set ∪ {[hash_array i]}) ∅ indices.

(** The loop [for kk in active_vars] with its [break]. *)
Fixpoint admissible_loop (indices_set : gset K) (forward_index : multi_index)
         (active_vars : list (list nat)) : bool :=
  match active_vars with
  | [] => true
  | kk :: rest =>
      let backward_index := get_backward_neighbor forward_index kk in
      if bool_decide (hash_array backward_index ∈ indices_set)
      then admissible_loop indices_set forward_index rest
      else false
  end.

(** Body of [for dd in range(nvars)]. *)
Definition expand_dim (index : multi_index) (active_vars : list (list nat))
           (st : gset K * list multi_index) (dd : nat) : gset K * list multi_index :=
  let '(indices_set, new_indices) := st in
  let forward_index := get_forward_neighbor index dd in
  let key := hash_array forward_index in
  if bool_decide (key ∈ indices_set) then st
  else if admissible_loop indices_set forward_index active_vars
       then (indices_set ∪ {[key]}, new_indices ++ [forward_index])
       else st.

(** Body of the second [for ii in range(nindices)]. *)
Definition expand_index (nvars : nat) (st : gset K * list multi_index) (index : multi_index)
  : gset K * list multi_index :=
  let active_vars := np_nonzero index in
  foldl (expand_dim index active_vars) st (seq 0 nvars).

Definition expand_basis (nvars : nat) (indices : list multi_index) : list multi_index :=
  (foldl (expand_index nvars) (hash_all indices, []) indices).2.

End Expansion.

(** ** The regression front end *)

(** Values that the solver options hold under the keys this module reads
    ([cv], [max_iter]). *)
Inductive pyval : Type :=
  | PyInt (z : Z)
  | PyBool (b : bool)
  | PyNone.

Inductive solver_class : Type :=
  | LassoLarsCV | LassoLars
  | LassoCV | Lasso
  | LarsCV | Lars
  | OrthogonalMatchingPursuitCV | OrthogonalMatchingPursuit
  | LinearLeastSquaresCV | LinearLeastSquares.

(** The dictionary literal [solvers]; a Python dict keeps insertion order,
    which the error message below walks through. Each value is the two-element
    list [[cross-validated class, plain class]]. *)
Definition solvers : list (string * list solver_class) :=
  [ ("lasso", [LassoLarsCV; LassoLars]);
    ("lasso_grad", [LassoCV; Lasso]);
    ("lars", [LarsCV; Lars]);
    ("omp", [OrthogonalMatchingPursuitCV; OrthogonalMatchingPursuit]);
    ("lstsq", [LinearLeastSquaresCV; LinearLeastSquares]) ]%string.

Fixpoint dict_get {V} (d : list (string * V)) (key : string) : option V :=
  match d with
  | [] => None
  | (k, v) :: d' => if String.eqb key k then Some v else dict_get d' key
  end.

Definition newline : string := String (Ascii.ascii_of_nat 10) EmptyString.
Definition tab : string := String (Ascii.ascii_of_nat 9) EmptyString.

Definition unsupported_msg (solver_type : string) : string :=
  foldl (fun msg key => msg +:+ tab +:+ key +:+ newline)
        ("Solver type " +:+ solver_type +:+ " not supported" +:+ newline
         +:+ "Supported solvers are:" +:+ newline)
        (fst <$> solvers).

Definition lars_msg : string :=
  "Currently lars does not exit when alpha starts to grow " +:+
  "this causes problems with cross validation. The lasso variant " +:+
  "lars does work because this exit condition is implemented".

(** A numpy array as far as this module looks at it: its shape and, for a
    two-dimensional array, its rows. *)
Record ndarray : Type := {
  shape : list nat;
  rows : list (list Q) }.

Definition ndim (a : ndarray) : nat := length (shape a).

(** [a[:, 0]] *)
Definition column0 (a : ndarray) : list Q := (fun r => nth 0 r 0%Q) <$> rows a.

(** [a.shape[k]]: the shape is a tuple, and an index past its end raises
    [IndexError]. *)
Definition shape_at (a : ndarray) (k : nat) : result nat :=
  match shape a !! k with
  | Some n => Ok n
  | None => Raise IndexError
  end.

(** The attributes of a fitted estimator that this module reads. The two
    optional ones are those it probes with [hasattr]; [mse_path_] stands for
    the value of [np.sqrt(res.mse_path_.mean(axis=-1).min())]. *)
Record fitted : Type := {
  coef_ : list Q;
  intercept_ : Q;
  cv_score_ : option Q;
  mse_path_ : option Q;
  alpha_ : Q;
  n_iter_ : list Z;
  n_nonzero_coefs_ : Z }.

Inductive reg_param : Type :=
  | RegAlpha (alpha : Q)
  | RegLars (alpha : Q) (n_iter : Z)
  | RegNonzero (n_nonzero_coefs : Z).

Definition extract_best_regularization_parameters (res : solver_class * fitted)
  : result reg_param :=
  let '(type_res, f) := res in
  match type_res with
  | LassoLarsCV | LinearLeastSquaresCV => Ok (RegAlpha (alpha_ f))
  | LarsCV =>
      _ ← py_assert (length (n_iter_ f) =? 1)%nat;
      Ok (RegLars (alpha_ f) (nth 0 (n_iter_ f) 0))
  | OrthogonalMatchingPursuitCV => Ok (RegNonzero (n_nonzero_coefs_ f))
  | _ => Raise (Exception EmptyString)
  end.

Definition extract_cross_validation_score (linear_model : solver_class * fitted)
  : result Q :=
  let '(_, f) := linear_model in
  match cv_score_ f with
  | Some s => Ok s
  | None =>
      match mse_path_ f with
      | Some s => Ok s
      | None => Raise (Exception "attribute mse_path_ not found")
      end
  end.

(** [min(kwargs['max_iter'], basis_matrix.shape[1])] *)
Definition py_min_int (v : pyval) (n : Z) : result pyval :=
  match v with
  | PyInt z => Ok (if n <? z then PyInt n else PyInt z)
  | PyBool b => Ok (if n <? Z.b2z b then PyInt n else PyBool b)
  | PyNone => Raise TypeError
  end.

Section FitLinearModel.

(** The scikit-learn side: [backend cls kwargs X y] builds the estimator
    of class [cls] from the keyword options and calls its [fit(X, y)],
    which returns the estimator itself (an object of class [cls]) with its
    fitted attributes, or raises. The
    callers restore the random generator state before each fit, so the
    outcome is a function of the arguments. *)
Variable backend :
  solver_class -> gmap string pyval -> ndarray -> list Q -> exn + fitted.

Definition fit_linear_model (basis_matrix train_vals : ndarray)
           (solver_type : string) (kwargs : gmap string pyval)
  : result (list Q * option Q * option reg_param) :=
  match dict_get solvers solver_type with
  | None => Raise (Exception (unsupported_msg solver_type))
  | Some classes =>
      if String.eqb solver_type "lars" then Raise (Exception lars_msg)
      else
        _ ← py_assert (ndim train_vals =? 2)%nat;
        _ ← py_assert (bool_decide (shape train_vals !! 1%nat = Some 1%nat));
        kwargs ← (if String.eqb solver_type "omp" then
                    match kwargs !! "max_iter"%string with
                    | Some v =>
                        match shape basis_matrix !! 1%nat with
                        | Some ncols =>
                            v' ← py_min_int v (Z.of_nat ncols);
                            Ok (<["max_iter"%string := v']> kwargs)
                        | None => Raise IndexError
                        end
                    | None => Ok kwargs
                    end
                  else Ok kwargs);
        let solver_idx :=
          match kwargs !! "cv"%string with
          | None => 1%nat
          | Some (PyBool false) => 1%nat
          | Some _ => 0%nat
          end in
        match classes !! solver_idx with
        | None => Raise IndexError
        | Some cls =>
            f ← call (backend cls kwargs basis_matrix (column0 train_vals));
            let res := (cls, f) in
            match coef_ f with
            | [] => Raise IndexError
            | c0 :: coef' =>
                let coef := (c0 + intercept_ f)%Q :: coef' in
                match kwargs !! "cv"%string with
                | Some _ =>
                    cv_score ← extract_cross_validation_score res;
                    best_regularization_param ←
                      extract_best_regularization_parameters res;
                    Ok (coef, Some cv_score, Some best_regularization_param)
                | None => Ok (coef, None, None)
                end
            end
        end
  end.

End FitLinearModel.

Arguments fit_linear_model : simpl never.

(** ** Python comparisons on scores *)

Definition Qltb (x y : Q) : bool := negb (Qle_bool y x).

(** [a < b] where either side may be [None]: Python 3 raises [TypeError]. *)
Definition py_lt (a b : option Q) : result bool :=
  match a, b with
  | Some x, Some y => Ok (Qltb x y)
  | _, _ => Raise TypeError
  end.

(** [a >= b] *)
Definition py_ge (a b : option Q) : result bool :=
  match a, b with
  | Some x, Some y => Ok (Qle_bool y x)
  | _, _ => Raise TypeError
  end.

(** [np.finfo(np.double).max] *)
Definition double_max : Q := inject_Z (2 ^ 1024 - 2 ^ 971).

(** ** The expansion object *)

(** Modelled from the spec: the class of [pce] lives in another module of the
    package; a Basis is the pairing of an ordered IndexSet with a coefficient
    vector, [set_indices] and [set_coefficients] replace one of the two, and
    [num_terms] is the number of indices. *)
Record PCE : Type := {
  indices : list multi_index;
  coefficients : list Q }.

Definition set_indices (pce : PCE) (new_indices : list multi_index) : PCE :=
  {| indices := new_indices; coefficients := coefficients pce |}.

Definition set_coefficients (pce : PCE) (coef : list Q) : PCE :=
  {| indices := indices pce; coefficients := coef |}.

Definition num_terms (pce : PCE) : Z := Z.of_nat (length (indices pce)).

(** How a loop body hands control back to its loop. *)
Inductive flow (A : Type) : Type :=
  | Continue (s : A)
  | Break (s : A).
Arguments Continue {A} s.
Arguments Break {A} s.

Section Searches.
Context {K : Type} `{Countable K}.
Variable hash_array : multi_index -> K.
Variable backend :
  solver_class -> gmap string pyval -> ndarray -> list Q -> exn + fitted.

(** [pce.num_vars()] *)
Variable num_vars : nat.

(** [pce.basis_matrix(train_samples)] for the indices currently set: the
    Basis Evaluator, another module of the package. *)
Variable basis_matrix : list multi_index -> ndarray -> ndarray.

(** [compute_hyperbolic_indices(num_vars, degree, hcross_strength)] is
    imported from the [pyapprox] package. *)
Variable compute_hyperbolic_indices : nat -> Z -> Q -> list multi_index.

(** *** Degree sweep *)

(** The local variables of [_cross_validate_pce_degree] that live across
    iterations. [sw_best_reg_param] is [None] while the name
    [best_reg_param] is not bound. *)
Record sweep_state : Type := {
  sw_pce : PCE;
  sw_best_coef : option (list Q);
  sw_best_cv_score : Q;
  sw_best_degree : Z;
  sw_best_reg_param : option (option reg_param);
  sw_prev_num_terms : Z }.

(** The values bound before the loop starts. *)
Definition sweep_start (pce : PCE) (min_degree : Z) : sweep_state :=
  {| sw_pce := pce;
     sw_best_coef := None;
     sw_best_cv_score := double_max;
     sw_best_degree := min_degree;
     sw_best_reg_param := None;
     sw_prev_num_terms := 0 |}.

Section Sweep.
Variables (train_samples train_vals : ndarray).
Variables (hcross_strength : Q) (linear_solver_options : gmap string pyval).
Variable solver_type : string.

(** The guard that leaves the sweep before fitting. *)
Definition cap_trips (prev_num_terms nterms : Z) : bool :=
  (100000 <? nterms) && (100000 - prev_num_terms <? nterms - 100000).

(** Body of [for degree in range(min_degree, max_degree+1)]. *)
Definition sweep_body (s : sweep_state) (degree : Z) : result (flow sweep_state) :=
  let indices := compute_hyperbolic_indices num_vars degree hcross_strength in
  let pce := set_indices (sw_pce s) indices in
  if cap_trips (sw_prev_num_terms s) (num_terms pce)
  then Ok (Break {| sw_pce := pce;
                    sw_best_coef := sw_best_coef s;
                    sw_best_cv_score := sw_best_cv_score s;
                    sw_best_degree := sw_best_degree s;
                    sw_best_reg_param := sw_best_reg_param s;
                    sw_prev_num_terms := sw_prev_num_terms s |})
  else
    let basis_mat := basis_matrix (indices) train_samples in
    '(coef, cv_score, reg_param) ←
      fit_linear_model backend basis_mat train_vals solver_type
                       linear_solver_options;
    let pce := set_coefficients pce coef in
    stalled ← py_ge cv_score (Some (sw_best_cv_score s));
    if stalled && (1 <? degree - sw_best_degree s)
    then Ok (Break {| sw_pce := pce;
                      sw_best_coef := sw_best_coef s;
                      sw_best_cv_score := sw_best_cv_score s;
                      sw_best_degree := sw_best_degree s;
                      sw_best_reg_param := sw_best_reg_param s;
                      sw_prev_num_terms := sw_prev_num_terms s |})
    else
      improved ← py_lt cv_score (Some (sw_best_cv_score s));
      match improved, cv_score with
      | true, Some cv =>
          Ok (Continue {| sw_pce := pce;
                          sw_best_coef := Some coef;
                          sw_best_cv_score := cv;
                          sw_best_degree := degree;
                          sw_best_reg_param := Some reg_param;
                          sw_prev_num_terms := num_terms pce |})
      | _, _ =>
          Ok (Continue {| sw_pce := pce;
                          sw_best_coef := sw_best_coef s;
                          sw_best_cv_score := sw_best_cv_score s;
                          sw_best_degree := sw_best_degree s;
                          sw_best_reg_param := sw_best_reg_param s;
                          sw_prev_num_terms := num_terms pce |})
      end.

(** The [for] loop: [n] degrees are left, starting with [degree]. *)
Fixpoint sweep_loop (n : nat) (degree : Z) (s : sweep_state) : result sweep_state :=
  match n with
  | O => Ok s
  | S n' =>
      r ← sweep_body s degree;
      match r with
      | Break s' => Ok s'
      | Continue s' => sweep_loop n' (degree + 1) s'
      end
  end.

(** [pce.set_coefficients(None)], which the closing lines reach when no
    degree has improved on the initial score. The class of [pce] lives in
    another module of the package, so what its method does with [None] is
    not known here: the call returns or raises. *)
Variable set_coefficients_None : exn + unit.

Definition _cross_validate_pce_degree (pce : PCE)
           (min_degree max_degree : option Z)
  : result (PCE * Q * Z * option reg_param) :=
  ncols ← shape_at train_vals 1;
  _ ← py_assert (ncols =? 1)%nat;
  num_samples ← shape_at train_samples 1;
  let min_degree := default 2 min_degree in
  let max_degree := default (2 ^ 63 - 1 - 1) max_degree in
  let s0 := sweep_start pce min_degree in
  s ← sweep_loop (Z.to_nat (max_degree + 1 - min_degree)) min_degree s0;
  let pce := set_indices (sw_pce s)
               (compute_hyperbolic_indices num_vars (sw_best_degree s)
                                           hcross_strength) in
  (* [best_coef] and [best_reg_param] are bound together, by the branch of
     an improved score. When no degree has improved on the initial score,
     [best_coef] is still [None] and goes to [pce.set_coefficients]; if that
     call returns, the [return] statement reads the unbound name
     [best_reg_param]. *)
  match sw_best_coef s, sw_best_reg_param s with
  | Some best_coef, Some best_reg_param =>
      Ok (set_coefficients pce best_coef, sw_best_cv_score s,
          sw_best_degree s, best_reg_param)
  | Some _, None => Raise UnboundLocalError
  | None, _ =>
      _ ← call set_coefficients_None;
      Raise UnboundLocalError
  end.

End Sweep.

(** *** Expand and restrict *)

(** The best basis found so far, over all outer iterations. *)
Record best : Type := {
  best_indices : list multi_index;
  best_coef : list Q;
  best_cv_score : option Q;
  best_reg_param : option reg_param;
  best_num_expansion_steps : nat }.

(** The best basis of the running outer iteration. [best_iter] is [None]
    while the names [best_indices_iter], [best_coef_iter] and
    [best_reg_param_iter], which are bound together, are not bound. *)
Record iter_best : Type := {
  best_cv_score_iter : option Q;
  best_iter : option (list multi_index * list Q * option reg_param);
  best_num_expansion_steps_iter : nat }.

Section ExpandRestrict.
Variables (train_samples train_vals : ndarray).
Variables (hcross_strength : Q) (linear_solver_options : gmap string pyval).
Variable solver_type : string.
Variable restriction_tol : Q.

Section Loops.
Variable max_num_terms : Z.

(** The first [while True]: raise the degree until the hyperbolic
    cross has more than [max_num_terms] indices. *)
Fixpoint seed_loop (fuel : nat) (degree prev_num_terms : Z)
  : result (Z * Z * Z) :=
  match fuel with
  | O => Unfinished
  | S fuel' =>
      let indices :=
        compute_hyperbolic_indices num_vars degree hcross_strength in
      let nterms := Z.of_nat (length indices) in
      if max_num_terms <? nterms then Ok (degree, nterms, prev_num_terms)
      else seed_loop fuel' (degree + 1) nterms
  end.

(** The seed degree, with the value of [num_terms] that the loop
    leaves behind. *)
Definition seed_degree (fuel : nat) : result (Z * Z) :=
  '(degree, nterms, prev_num_terms) ← seed_loop fuel 2 0;
  if Z.abs (prev_num_terms - max_num_terms) <? Z.abs (nterms - max_num_terms)
  then Ok (degree - 1, nterms)
  else Ok (degree, nterms).

(** The innermost [while]: it runs [n] times, [n] being the smaller of
    [max_num_expansion_steps] and [best_num_expansion_steps].
    [np.asarray([]).T] is one-dimensional, and [np.hstack] refuses to
    join it to the two-dimensional index array. *)
Fixpoint expand_loop (n : nat) (pce : PCE) (nterms : Z) : result (PCE * Z) :=
  match n with
  | O => Ok (pce, nterms)
  | S n' =>
      let new_indices := expand_basis hash_array num_vars (indices pce) in
      match new_indices with
      | [] => Raise ValueError
      | _ :: _ =>
          let pce := set_indices pce (indices pce ++ new_indices) in
          expand_loop n' pce (num_terms pce)
      end
  end.

(** The block headed [Expand basis]. The restricted set is bound to the
    local name [indices], which nothing reads afterwards. *)
Definition expand_block (max_num_expansion_steps : nat) (b : best)
           (pce : PCE) (nterms : Z) : result (PCE * Z * nat) :=
  indices ← restrict_basis (indices pce) (coefficients pce) restriction_tol;
  let num_expansion_steps :=
    Nat.min max_num_expansion_steps (best_num_expansion_steps b) in
  '(pce, nterms) ← expand_loop num_expansion_steps pce nterms;
  Ok (pce, nterms, num_expansion_steps).

(** Body of the inner [while True]. *)
Definition inner_body (max_num_expansion_steps : nat) (b : best)
           (st : PCE * Z * iter_best) : result (flow (PCE * Z * iter_best)) :=
  let '(pce, nterms, ib) := st in
  '(pce, nterms, num_expansion_steps) ←
    expand_block max_num_expansion_steps b pce nterms;
  let basis_mat := basis_matrix (indices pce) train_samples in
  '(coef, cv_score, reg_param) ←
    fit_linear_model backend basis_mat train_vals solver_type
                     linear_solver_options;
  let pce := set_coefficients pce coef in
  improved ← py_lt cv_score (best_cv_score_iter ib);
  let ib :=
    if improved : bool
    then {| best_cv_score_iter := cv_score;
            best_iter := Some (indices pce, coefficients pce, reg_param);
            best_num_expansion_steps_iter := num_expansion_steps |}
    else ib in
  if max_num_terms <=? nterms then Ok (Break (pce, nterms, ib))
  else if (3 <=? max_num_expansion_steps)%nat then Ok (Break (pce, nterms, ib))
  else Ok (Continue (pce, nterms, ib)).

Fixpoint inner_loop (fuel : nat) (max_num_expansion_steps : nat) (b : best)
         (st : PCE * Z * iter_best) : result (PCE * Z * iter_best) :=
  match fuel with
  | O => Unfinished
  | S fuel' =>
      r ← inner_body max_num_expansion_steps b st;
      match r with
      | Break st' => Ok st'
      | Continue st' => inner_loop fuel' (S max_num_expansion_steps) b st'
      end
  end.

(** The outer [while True]. *)
Fixpoint outer_loop (fuel : nat) (it best_it : Z) (b : best)
         (st : PCE * Z * iter_best) : result best :=
  match fuel with
  | O => Unfinished
  | S fuel' =>
      let '(pce, nterms, ib) := st in
      let ib := {| best_cv_score_iter := best_cv_score_iter ib;
                   best_iter := best_iter ib;
                   best_num_expansion_steps_iter :=
                     best_num_expansion_steps b |} in
      '(pce, nterms, ib) ← inner_loop fuel 1 b (pce, nterms, ib);
      improved ← py_lt (best_cv_score_iter ib) (best_cv_score b);
      if improved : bool then
        match best_iter ib with
        | None => Raise UnboundLocalError
        | Some (best_indices_iter, best_coef_iter, best_reg_param_iter) =>
            let b := {| best_indices := best_indices_iter;
                        best_coef := best_coef_iter;
                        best_cv_score := best_cv_score_iter ib;
                        best_reg_param := best_reg_param_iter;
                        best_num_expansion_steps :=
                          best_num_expansion_steps_iter ib |} in
            outer_loop fuel' (it + 1) it b (pce, nterms, ib)
        end
      else if 2 <=? it - best_it then Ok b
      else outer_loop fuel' (it + 1) best_it b (pce, nterms, ib)
  end.

End Loops.

(** The closing lines: keep the indices whose coefficient is not zero. *)
Definition finalize (b : best) : result PCE :=
  let I := np_where Qnonzero (best_coef b) in
  final_indices ← take_columns (best_indices b) I;
  final_coef ← take_columns (best_coef b) I;
  Ok {| indices := final_indices; coefficients := final_coef |}.

Definition _expanding_basis_pce (fuel : nat) (pce : PCE)
           (max_num_terms : option Z)
  : result (PCE * option Q * option reg_param) :=
  ncols ← shape_at train_vals 1;
  _ ← py_assert (ncols =? 1)%nat;
  let max_num_terms :=
    default (10 * Z.of_nat (default 0%nat (shape train_vals !! 1%nat)))
            max_num_terms in
  '(degree, nterms) ← seed_degree max_num_terms fuel;
  let pce := set_indices pce
               (compute_hyperbolic_indices num_vars degree hcross_strength) in
  let basis_mat := basis_matrix (indices pce) train_samples in
  '(coef, cv_score, reg_param) ←
    fit_linear_model backend basis_mat train_vals solver_type
                     linear_solver_options;
  let pce := set_coefficients pce coef in
  let b := {| best_indices := indices pce;
              best_coef := coef;
              best_cv_score := cv_score;
              best_reg_param := reg_param;
              best_num_expansion_steps := 3 |} in
  let ib := {| best_cv_score_iter := cv_score;
               best_iter := None;
               best_num_expansion_steps_iter := 3 |} in
  b ← outer_loop max_num_terms fuel 0 0 b (pce, nterms, ib);
  pce ← finalize b;
  Ok (pce, best_cv_score b, best_reg_param b).

End ExpandRestrict.

(** *** Merging the per-QoI results *)

(** Body of [for index in indices[ii].T] in the first pass. *)
Definition register (st : gmap K nat * list multi_index) (index : multi_index)
  : gmap K nat * list multi_index :=
  let '(indices_dict, unique_indices) := st in
  let key := hash_array index in
  match indices_dict !! key with
  | Some _ => st
  | None => (<[key := length unique_indices]> indices_dict,
             unique_indices ++ [index])
  end.

(** [all_coefs[row, col] = v]; numpy raises on a position out of range. *)
Definition set_entry (all_coefs : list (list Q)) (row col : nat) (v : Q)
  : result (list (list Q)) :=
  match all_coefs !! row with
  | None => Raise IndexError
  | Some r =>
      if (col <? length r)%nat
      then Ok (<[row := <[col := v]> r]> all_coefs)
      else Raise IndexError
  end.

(** Body of [for jj, index in enumerate(indices[ii].T)]. *)
Definition scatter_index (indices_dict : gmap K nat) (ii : nat) (coefs_ii : list Q)
           (all_coefs : list (list Q)) (jj : nat) (index : multi_index)
  : result (list (list Q)) :=
  let key := hash_array index in
  match coefs_ii !! jj with
  | None => Raise IndexError
  | Some c =>
      match indices_dict !! key with
      | None => Raise KeyError
      | Some row => set_entry all_coefs row ii c
      end
  end.

Fixpoint scatter_qoi (indices_dict : gmap K nat) (ii : nat) (coefs_ii : list Q)
         (all_coefs : list (list Q)) (jj : nat) (indices_ii : list multi_index)
  : result (list (list Q)) :=
  match indices_ii with
  | [] => Ok all_coefs
  | index :: rest =>
      all_coefs ← scatter_index indices_dict ii coefs_ii all_coefs jj index;
      scatter_qoi indices_dict ii coefs_ii all_coefs (S jj) rest
  end.

(** Body of the second [for ii in range(nqoi)], over the QoIs from [ii] on. *)
Fixpoint scatter_all (indices_dict : gmap K nat) (ii : nat)
         (per_qoi : list (list multi_index * list Q)) (all_coefs : list (list Q))
  : result (list (list Q)) :=
  match per_qoi with
  | [] => Ok all_coefs
  | (indices_ii, coefs_ii) :: rest =>
      all_coefs ← scatter_qoi indices_dict ii coefs_ii all_coefs 0 indices_ii;
      scatter_all indices_dict (S ii) rest all_coefs
  end.

(** The tail shared by [expanding_basis_pce], [cross_validate_pce_degree]
    and [approximate_fixed_pce], given the indices and the coefficient
    column of each QoI. [np.array([]).T] has no second axis, so reading
    [unique_indices.shape[1]] raises when no index was seen at all. *)
Definition merge_qoi (per_qoi : list (list multi_index * list Q))
  : result (list multi_index * list (list Q)) :=
  let nqoi := length per_qoi in
  let '(indices_dict, unique_indices) :=
    foldl (fun st qoi => foldl register st qoi.1) (∅, []) per_qoi in
  match unique_indices with
  | [] => Raise IndexError
  | _ :: _ =>
      let all_coefs := replicate (length unique_indices) (replicate nqoi 0%Q) in
      all_coefs ← scatter_all indices_dict 0 per_qoi all_coefs;
      Ok (unique_indices, all_coefs)
  end.

End Searches.

(** ** Admissible index sets, as the specification words them *)

(** [backward_k = forward - e_k] for each dimension [k] that is active
    (non-zero) in the index. *)
Definition backward_neighbors (i : multi_index) : list multi_index :=
  (fun k => alter (fun x => x - 1) k i) <$> np_where (fun x => negb (x =? 0)) i.

(** An index is admissible with respect to [S] when every one of its
    backward neighbours is a member of [S]. *)
Definition admissible_in (S : list multi_index) (i : multi_index) : bool :=
  forallb (fun b => bool_decide (b ∈ S)) (backward_neighbors i).

(** Every member's active-dimension backward neighbours are in the set. *)
Definition admissible_set (S : list multi_index) : bool :=
  forallb (admissible_in S) S.

(** The union in first-seen order. *)
Definition first_seen (l : list multi_index) : list multi_index :=
  foldl (fun acc x => if bool_decide (x ∈ acc) then acc else acc ++ [x]) [] l.

(** [all_coefs[row, col]], when both positions exist. *)
Definition entry (all_coefs : list (list Q)) (row col : nat) : option Q :=
  all_coefs !! row ≫= fun r => r !! col.

(** An array of [n] rows and [m] columns. *)
Definition well_shaped (n m : nat) (all_coefs : list (list Q)) : Prop :=
  length all_coefs = n /\ Forall (fun r => length r = m) all_coefs.

(** Every entry of every index is non-negative. *)
Definition nonneg_indices (l : list multi_index) : Prop :=
  Forall (Forall (Z.le 0)) l.

(** The set contains the all-zero index. *)
Definition has_constant (l : list multi_index) : Prop :=
  exists i, i ∈ l /\ is_zero_index i = true.

(** The early stop of the degree sweep: the new score does not improve on
    the best one and the degree is more than one past the best degree. *)
Definition early_stop (s : sweep_state) (degree : Z) (cv : Q) : Prop :=
  (sw_best_cv_score s <= cv)%Q /\ 1 < degree - sw_best_degree s.

(** Number of indices of the hyperbolic cross of a degree. *)
Definition cross_count (num_vars : nat)
           (compute_hyperbolic_indices : nat -> Z -> Q -> list multi_index)
           (hcross_strength : Q) (degree : Z) : Z :=
  Z.of_nat (length (compute_hyperbolic_indices num_vars degree hcross_strength)).

(** ** Loop invariants *)

(** What the two loops of [expand_basis] maintain: every index of the input
    and every index queued so far has its key in [indices_set], the queue has
    no repetition, and nothing queued is an input index. *)
Definition expand_inv {K : Type} `{Countable K} (hash_array : multi_index -> K)
           (indices : list multi_index) (st : gset K * list multi_index) : Prop :=
  (forall i, i ∈ indices -> hash_array i ∈ st.1) /\
  (forall i, i ∈ st.2 -> hash_array i ∈ st.1) /\
  NoDup st.2 /\
  (forall i, i ∈ st.2 -> i ∉ indices).

(** What the first pass of the merge maintains: the dictionary sends the key
    of an index to its position in the list of unique indices, and holds
    nothing else. *)
Definition register_inv {K : Type} `{Countable K} (hash_array : multi_index -> K)
           (st : gmap K nat * list multi_index) : Prop :=
  NoDup st.2 /\
  (forall k row, st.1 !! k = Some row ->
                 exists u, st.2 !! row = Some u /\ hash_array u = k) /\
  (forall u row, st.2 !! row = Some u -> st.1 !! hash_array u = Some row).

(** A basis of non-negative indices on which the restriction has returned. *)
Definition checked (restriction_tol : Q) (X : list multi_index * list Q) : Prop :=
  nonneg_indices X.1 /\
  exists r, restrict_basis X.1 X.2 restriction_tol = Ok r.

(** A basis that is checked already, or is the one the expansion object
    holds, on which the next round of the inner loop calls the restriction
    first. *)
Definition tracked (restriction_tol : Q) (pce : PCE)
           (X : list multi_index * list Q) : Prop :=
  checked restriction_tol X \/ X = (indices pce, coefficients pce).

Definition tracked_iter (restriction_tol : Q) (pce : PCE) (ib : iter_best) : Prop :=
  match best_iter ib with
  | None => True
  | Some (bi, bc, _) => tracked restriction_tol pce (bi, bc)
  end.

(** ** Concrete collaborators for the worked examples *)

Fixpoint count_up (n : nat) (k : Z) : list Z :=
  match n with
  | O => []
  | S n' => k :: count_up n' (k + 1)
  end.

(** Modelled from the spec: [compute_hyperbolic_indices] is imported from the
    [pyapprox] package; with strength [p = 1] the hyperbolic cross reduces to
    plain total degree, that is all indices of [nvars] non-negative entries
    whose sum is at most [degree]. The strength is ignored: this stand-in is
    for [p = 1] only. *)
Fixpoint total_degree_indices (nvars : nat) (degree : Z) : list multi_index :=
  match nvars with
  | O => [[]]
  | S n =>
      flat_map (fun k => cons k <$> total_degree_indices n (degree - k))
               (count_up (Z.to_nat (degree + 1)) 0)
  end.

Definition hyperbolic_p1 (nvars : nat) (degree : Z) (strength : Q)
  : list multi_index :=
  total_degree_indices nvars degree.

(** A design matrix reduced to its shape: one row per sample (the second
    axis of [train_samples]), one column per index. *)
Definition design_shape (indices : list multi_index) (train_samples : ndarray)
  : ndarray :=
  {| shape := [default 0%nat (shape train_samples !! 1%nat); length indices];
     rows := [] |}.

Definition Qmean (y : list Q) : Q :=
  Qred (foldr Qplus 0 y / inject_Z (Z.of_nat (length y)))%Q.

(** A stand-in for the scikit-learn side on constant targets, which the
    constant basis term explains alone. The least-squares classes of this
    module set [intercept_ = 0] and put the whole solution into [coef_]; on
    targets that are all zero that solution is exactly zero. The lasso-type
    classes fit an intercept, the mean of the targets, and leave every
    coefficient at zero. The held-out error of both is zero. *)
Definition constant_fit_backend (cls : solver_class) (kwargs : gmap string pyval)
           (X : ndarray) (y : list Q) : exn + fitted :=
  let ncols := default 0%nat (shape X !! 1%nat) in
  match cls with
  | LinearLeastSquaresCV | LinearLeastSquares =>
      inr {| coef_ := match ncols with
                      | O => []
                      | S m => Qmean y :: replicate m 0%Q
                      end;
             intercept_ := 0%Q;
             cv_score_ := Some 0%Q;
             mse_path_ := None;
             alpha_ := 0%Q;
             n_iter_ := [];
             n_nonzero_coefs_ := 0 |}
  | _ =>
      inr {| coef_ := replicate ncols 0%Q;
             intercept_ := Qmean y;
             cv_score_ := None;
             mse_path_ := Some 0%Q;
             alpha_ := 1%Q;
             n_iter_ := [1];
             n_nonzero_coefs_ := 0 |}
  end.

(** [nsamples] targets, all equal to [v], as a column array. *)
Definition constant_vals (nsamples : nat) (v : Q) : ndarray :=
  {| shape := [nsamples; 1%nat]; rows := replicate nsamples [v] |}.

(** Three sample points of one variable. *)
Definition three_samples : ndarray :=
  {| shape := [1%nat; 3%nat]; rows := [[(-1)%Q; 0%Q; 1%Q]] |}.

Definition cv3 : gmap string pyval := {["cv"%string := PyInt 3]}.

Definition empty_pce : PCE := {| indices := []; coefficients := [] |}.




(** ** Invariants of the searches *)

(** The fit that the degree sweep asks for at one degree. *)
Definition fit_at
  (backend : solver_class -> gmap string pyval -> ndarray -> list Q -> exn + fitted)
  (num_vars : nat) (basis_matrix : list multi_index -> ndarray -> ndarray)
  (compute_hyperbolic_indices : nat -> Z -> Q -> list multi_index)
  (train_samples train_vals : ndarray) (hcross_strength : Q)
  (linear_solver_options : gmap string pyval) (solver_type : string)
  (degree : Z) : result (list Q * option Q * option reg_param) :=
  fit_linear_model backend
    (basis_matrix (compute_hyperbolic_indices num_vars degree hcross_strength)
                  train_samples)
    train_vals solver_type linear_solver_options.

(** What the degree sweep maintains when it is about to take up degree
    [cur], having started at [lo]: every degree before [cur] has been fitted
    with a score that is not below the best one, and strictly above it when
    the degree precedes the best degree; and either nothing has improved on
    the initial score yet, or the best coefficients, score and
    regularisation parameter are those of the fit at the best degree. *)
Definition sweep_inv
  (backend : solver_class -> gmap string pyval -> ndarray -> list Q -> exn + fitted)
  (num_vars : nat) (basis_matrix : list multi_index -> ndarray -> ndarray)
  (compute_hyperbolic_indices : nat -> Z -> Q -> list multi_index)
  (train_samples train_vals : ndarray) (hcross_strength : Q)
  (linear_solver_options : gmap string pyval) (solver_type : string)
  (lo cur : Z) (s : sweep_state) : Prop :=
  let fit :=
    fit_at backend num_vars basis_matrix compute_hyperbolic_indices
           train_samples train_vals hcross_strength linear_solver_options
           solver_type in
  lo <= cur /\
  (forall d, lo <= d < cur ->
     exists coef cv reg,
       fit d = Ok (coef, Some cv, reg) /\
       (sw_best_cv_score s <= cv)%Q /\
       (d < sw_best_degree s -> (sw_best_cv_score s < cv)%Q)) /\
  ((sw_best_coef s = None /\ sw_best_reg_param s = None /\
    sw_best_cv_score s = double_max /\ sw_best_degree s = lo) \/
   (exists coef reg,
      sw_best_coef s = Some coef /\ sw_best_reg_param s = Some reg /\
      lo <= sw_best_degree s < cur /\
      fit (sw_best_degree s) = Ok (coef, Some (sw_best_cv_score s), reg) /\
      (sw_best_cv_score s < double_max)%Q)).

(** The index sets that the expand-and-restrict search can hold: the seed,
    grown by whole expansion steps that each add at least one index. *)
Inductive grown {K : Type} `{Countable K} (hash_array : multi_index -> K)
          (num_vars : nat) (seed : list multi_index)
  : list multi_index -> Prop :=
  | grown_seed : grown hash_array num_vars seed seed
  | grown_step (S : list multi_index) :
      grown hash_array num_vars seed S ->
      expand_basis hash_array num_vars S <> [] ->
      grown hash_array num_vars seed
            (S ++ expand_basis hash_array num_vars S).

(** Order on scores that may be missing: a missing score compares with
    nothing but itself. *)
Definition score_le (a b : option Q) : Prop :=
  match a, b with
  | Some x, Some y => (x <= y)%Q
  | None, None => True
  | _, _ => False
  end.

(** A basis grown from the seed, with the outcome of the fit on it, whose
    score is no worse than [seed_score]. *)
Definition fit_of {K : Type} `{Countable K} (hash_array : multi_index -> K)
           (backend : solver_class -> gmap string pyval -> ndarray -> list Q
                      -> exn + fitted)
           (num_vars : nat) (basis_matrix : list multi_index -> ndarray -> ndarray)
           (train_samples train_vals : ndarray)
           (linear_solver_options : gmap string pyval) (solver_type : string)
           (seed : list multi_index) (seed_score : option Q)
           (X : list multi_index * list Q * option Q * option reg_param) : Prop :=
  let '(basis, coef, score, reg) := X in
  grown hash_array num_vars seed basis /\
  fit_linear_model backend (basis_matrix basis train_samples) train_vals
                   solver_type linear_solver_options = Ok (coef, score, reg) /\
  score_le score seed_score.

(** What the loops of the expand-and-restrict search maintain. *)
Definition search_inv {K : Type} `{Countable K} (hash_array : multi_index -> K)
           (backend : solver_class -> gmap string pyval -> ndarray -> list Q
                      -> exn + fitted)
           (num_vars : nat) (basis_matrix : list multi_index -> ndarray -> ndarray)
           (train_samples train_vals : ndarray)
           (linear_solver_options : gmap string pyval) (solver_type : string)
           (seed : list multi_index) (seed_score : option Q)
           (b : best) (pce : PCE) (ib : iter_best) : Prop :=
  let fit_of := fit_of hash_array backend num_vars basis_matrix train_samples
                       train_vals linear_solver_options solver_type
                       seed seed_score in
  grown hash_array num_vars seed (indices pce) /\
  fit_of (best_indices b, best_coef b, best_cv_score b, best_reg_param b) /\
  score_le (best_cv_score_iter ib) seed_score /\
  match best_iter ib with
  | None => True
  | Some (basis, coef, reg) => fit_of (basis, coef, best_cv_score_iter ib, reg)
  end.

(** ** A fixed basis for every QoI *)

(** [train_vals[:, ii:ii+1]] for [ii] below [train_vals.shape[1]]: the
    second axis shrinks to one entry, the other axes stay. *)
Definition qoi_column (train_vals : ndarray) (ii : nat) : ndarray :=
  {| shape := <[1%nat := 1%nat]> (shape train_vals);
     rows := (fun r => [nth ii r 0%Q]) <$> rows train_vals |}.

Section FixedBasis.
Context {K : Type} `{Countable K}.
Variable hash_array : multi_index -> K.
Variable backend :
  solver_class -> gmap string pyval -> ndarray -> list Q -> exn + fitted.
Variable basis_matrix : list multi_index -> ndarray -> ndarray.
Variables (train_samples train_vals : ndarray).
Variable solver_type : string.

(** The first [for ii in range(nqoi)] of [approximate_fixed_pce], from
    [ii] on with [n] QoIs left: one fit per QoI, on the basis and with the
    options listed for it. *)
Fixpoint fixed_fits (indices : list (list multi_index))
         (linear_solver_options : list (gmap string pyval))
         (ii n : nat) : result (list (list multi_index * list Q)) :=
  match n with
  | O => Ok []
  | S n' =>
      match indices !! ii, linear_solver_options !! ii with
      | Some indices_ii, Some options_ii =>
          '(coef_ii, _, _) ←
            fit_linear_model backend (basis_matrix indices_ii train_samples)
                             (qoi_column train_vals ii) solver_type options_ii;
          rest ← fixed_fits indices linear_solver_options (S ii) n';
          Ok ((indices_ii, coef_ii) :: rest)
      | _, _ => Raise IndexError
      end
  end.

(** [approximate_fixed_pce]. Either argument may be given once for all QoIs
    (an index array, a dict of options: the left injections) or as a list
    with one entry per QoI. The result is the index set and the coefficient
    array that the expansion object is left with. *)
Definition approximate_fixed_pce
           (indices : list multi_index + list (list multi_index))
           (linear_solver_options : gmap string pyval + list (gmap string pyval))
  : result (list multi_index * list (list Q)) :=
  match shape train_vals !! 1%nat with
  | None => Raise IndexError
  | Some nqoi =>
      let linear_solver_options :=
        match linear_solver_options with
        | inl options => replicate nqoi options
        | inr l => l
        end in
      let indices :=
        match indices with
        | inl array => replicate nqoi array
        | inr l => l
        end in
      per_qoi ← fixed_fits indices linear_solver_options 0 nqoi;
      merge_qoi hash_array per_qoi
  end.

End FixedBasis.

(** ** The entry points *)

(** The message of an unknown key: [what] is not found, followed by the keys
    of the table, in the order of the dictionary literal. *)
Definition not_found_msg (what kinds name : string) (keys : list string) : string :=
  foldl (fun msg key => msg +:+ tab +:+ key +:+ newline)
        (what +:+ " " +:+ name +:+ " not found." +:+ newline
         +:+ " Available " +:+ kinds +:+ " are:" +:+ newline)
        keys.

Section EntryPoints.

(** Python objects that this module hands on without looking at them. *)
Variable Obj : Type.
(** What the approximation functions return. *)
Variable Res : Type.

(** A call [f(a, b, c, **options)] binds the keys of [options] to the
    parameters of [f] that the positional arguments have left free. Python
    raises [TypeError] before the body runs when a key names no such
    parameter, or when a parameter without default gets no value.
    [parameters] lists the free parameters with whether each has a
    default. *)
Definition bind_keywords (parameters : list (string * bool))
           (options : gmap string Obj) : result unit :=
  if forallb (fun key => bool_decide (key ∈ fst <$> parameters))
             (elements (dom options))
     && forallb (fun p : string * bool =>
                   p.2 || bool_decide (is_Some (options !! p.1)))
                parameters
  then Ok tt
  else Raise TypeError.

(** *** [approximate] and [adaptive_approximate] *)

Inductive approximation : Type :=
  | approximate_polynomial_chaos_fun
  | approximate_gaussian_process_fun.

Inductive adaptive_approximation : Type :=
  | adaptive_approximate_sparse_grid_fun
  | adaptive_approximate_polynomial_chaos_fun.

(** The calls [methods[method](train_samples, train_vals, **options)] and
    [methods[method](fun, variable, **options)]: binding of the keywords
    included. *)
Variable approximation_call :
  approximation -> ndarray -> ndarray -> gmap string Obj -> result Res.
Variable adaptive_approximation_call :
  adaptive_approximation -> Obj -> Obj -> gmap string Obj -> result Res.

Definition approximate_methods : list (string * approximation) :=
  [ ("polynomial_chaos", approximate_polynomial_chaos_fun);
    ("gaussian_process", approximate_gaussian_process_fun) ]%string.

Definition adaptive_approximate_methods
  : list (string * adaptive_approximation) :=
  [ ("sparse_grid", adaptive_approximate_sparse_grid_fun);
    ("polynomial_chaos", adaptive_approximate_polynomial_chaos_fun) ]%string.

Definition approximate (train_samples train_vals : ndarray) (method : string)
           (options : option (gmap string Obj)) : result Res :=
  match dict_get approximate_methods method with
  | None =>
      Raise (Exception (not_found_msg "Method" "methods" method
                                      (fst <$> approximate_methods)))
  | Some f =>
      let options := default ∅ options in
      approximation_call f train_samples train_vals options
  end.

Definition adaptive_approximate (fun_ variable : Obj) (method : string)
           (options : option (gmap string Obj)) : result Res :=
  match dict_get adaptive_approximate_methods method with
  | None =>
      Raise (Exception (not_found_msg "Method" "methods" method
                                      (fst <$> adaptive_approximate_methods)))
  | Some f =>
      let options := default ∅ options in
      adaptive_approximation_call f fun_ variable options
  end.

(** *** [approximate_polynomial_chaos] *)

Inductive basis_search : Type :=
  | expanding_basis_pce_fun
  | cross_validate_pce_degree_fun
  | approximate_fixed_pce_fun.

Definition funcs : list (string * basis_search) :=
  [ ("expanding_basis", expanding_basis_pce_fun);
    ("hyperbolic_cross", cross_validate_pce_degree_fun);
    ("fixed", approximate_fixed_pce_fun) ]%string.

(** The parameters that follow [pce, train_samples, train_vals] in the
    signature of each function, with whether they have a default. *)
Definition keyword_parameters (f : basis_search) : list (string * bool) :=
  match f with
  | expanding_basis_pce_fun =>
      [ ("hcross_strength", true); ("verbose", true); ("max_num_terms", true);
        ("solver_type", true); ("linear_solver_options", true);
        ("restriction_tol", true) ]
  | cross_validate_pce_degree_fun =>
      [ ("min_degree", true); ("max_degree", true); ("hcross_strength", true);
        ("solver_type", true); ("verbose", true);
        ("linear_solver_options", true) ]
  | approximate_fixed_pce_fun =>
      [ ("indices", false); ("verbose", true); ("solver_type", true);
        ("linear_solver_options", true) ]
  end%string.

(** The random variable and the configured expansion object. *)
Variables (RandomVariable Poly : Type).

(** The lines from the import of [PolynomialChaosExpansion] to
    [poly.configure(poly_opts)], which are calls into other modules. *)
Variable configure_poly : RandomVariable -> exn + Poly.

(** The body of each function of [funcs], its arguments bound. *)
Variable basis_search_body :
  basis_search -> Poly -> ndarray -> ndarray -> gmap string Obj -> result Res.

Definition approximate_polynomial_chaos (train_samples train_vals : ndarray)
           (verbosity : Z) (basis_type : string)
           (variable : option RandomVariable)
           (options : option (gmap string Obj)) : result Res :=
  match variable with
  | None => Raise (Exception "pce requires that variable be defined")
  | Some variable =>
      match dict_get funcs basis_type with
      | None =>
          Raise (Exception (not_found_msg "Basis type" "types" basis_type
                                          (fst <$> funcs)))
      | Some f =>
          poly ← call (configure_poly variable);
          let options := default ∅ options in
          _ ← bind_keywords (keyword_parameters f) options;
          basis_search_body f poly train_samples train_vals options
      end
  end.

End EntryPoints.

(** *** [adaptive_approximate_polynomial_chaos] *)

Definition leja_msg : string :=
  "For now leja sampling based PCE is only supported for bounded " +:+
  "continouous random variablesfor now leja sampling based PCE is " +:+
  "only supported for bounded continouous random variables".

Section AdaptivePolynomialChaos.
Variables (UnivariateVariable Transformation Samples Res : Type).

(** The first three lines, calls into other modules, up to the variable
    transformation whose [num_vars()] is read. *)
Variable affine_transformation :
  list UnivariateVariable -> exn + Transformation.

(** Imported from [pyapprox.variables]. *)
Variable is_bounded_continuous_variable : UnivariateVariable -> bool.

(** The default candidates: the cosine map of the Halton sequence in the
    number of variables of the transformation. *)
Variable halton_candidates : Transformation -> Q -> exn + Samples.

(** From [AdaptiveLejaPCE(nvars, candidate_samples, ...)] to
    [pce.build(callback)]: the construction proper, with the function to
    approximate and the refinement settings. *)
Variable build_leja_pce : Transformation -> Samples -> result Res.

(** The loop [for rv in univariate_variables], with its [raise] and its
    [break]. *)
Fixpoint check_bounded {G : Type} (generate_candidate_samples : option G)
         (univariate_variables : list UnivariateVariable) : result unit :=
  match univariate_variables with
  | [] => Ok tt
  | rv :: rest =>
      if is_bounded_continuous_variable rv
      then check_bounded generate_candidate_samples rest
      else match generate_candidate_samples with
           | None => Raise (Exception leja_msg)
           | Some _ => Ok tt
           end
  end.

Definition adaptive_approximate_polynomial_chaos
           (univariate_variables : list UnivariateVariable)
           (ncandidate_samples : Q)
           (generate_candidate_samples : option (Q -> exn + Samples))
  : result Res :=
  var_trans ← call (affine_transformation univariate_variables);
  _ ← check_bounded generate_candidate_samples univariate_variables;
  candidate_samples ←
    match generate_candidate_samples with
    | None => call (halton_candidates var_trans ncandidate_samples)
    | Some generate => call (generate ncandidate_samples)
    end;
  build_leja_pce var_trans candidate_samples.

End AdaptivePolynomialChaos.

(** * Properties *)

(** ** Restriction *)

(** On a basis whose constant term carries a coefficient above the
    tolerance, the restriction is the plain filter. *)
Example restrict_basis_keeps_large :
  restrict_basis [[0]; [1]; [2]] [1; 0; 3]%Q (1 # 2)%Q = Ok [[0]; [2]].
Proof. vm_compute. reflexivity. Qed.

(** C1. The basis {(0), (1)} with coefficients 0 and 1 and tolerance 1/2
    contains the constant index, whose coefficient does not exceed the
    tolerance; only position 1 passes the threshold. The constant index is
    to be retained next to it, but the function raises instead of
    returning. *)
Theorem restrict_basis_constant_below_tol_raises :
  let indices := [[0]; [1]] in
  let coefficients := [0; 1]%Q in
  existsb is_zero_index indices = true /\
  np_where (exceeds (1 # 2)%Q) coefficients = [1%nat] /\
  raises (restrict_basis indices coefficients (1 # 2)%Q).
Proof. vm_compute. auto. Qed.

(** ** Expansion *)

(** C2. The set {(0,0), (1,0), (0,1), (1,1)} is admissible. The expansion
    returns (2,1), which is active in dimension 1, although its backward
    neighbour in that dimension, (2,0), is not a member of the set; adding
    (2,1) to the set gives a set that is not admissible. *)
Theorem expand_basis_admits_inadmissible :
  let S := [[0;0]; [1;0]; [0;1]; [1;1]] in
  admissible_set S = true /\
  expand_basis id 2%nat S = [[2;0]; [0;2]; [2;1]; [1;2]] /\
  backward_neighbors [2;1] = [[1;1]; [2;0]] /\
  bool_decide ([2;0] ∈ S) = false /\
  admissible_in S [2;1] = false /\
  admissible_set (S ++ [[2;1]]) = false.
Proof. vm_compute. repeat split; reflexivity. Qed.

Lemma foldl_preserves {A B} (P : A -> Prop) (f : A -> B -> A) (l : list B) (a : A) :
  (forall a x, P a -> P (f a x)) -> P a -> P (foldl f a l).
Proof.
  intros Hstep. revert a.
  induction l as [|x l IH]; intros a Ha; simpl; [exact Ha|].
  apply IH, Hstep, Ha.
Qed.

Section ExpansionFacts.
Context {K : Type} `{Countable K}.
Variable hash_array : multi_index -> K.

Lemma hash_all_elem (indices : list multi_index) (i : multi_index) :
  i ∈ indices -> hash_array i ∈ hash_all hash_array indices.
Proof.
  unfold hash_all.
  assert (Hgen : forall (l : list multi_index) (acc : gset K),
             (hash_array i ∈ acc \/ i ∈ l) ->
             hash_array i ∈
               foldl (fun s j => s ∪ {[hash_array j]}) acc l).
  { induction l as [|x l IH]; intros acc [Hacc|Hl]; simpl.
    - exact Hacc.
    - inversion Hl.
    - apply IH. left. set_solver.
    - apply IH. apply elem_of_cons in Hl as [->|Hl].
      + left. set_solver.
      + right. exact Hl. }
  intros Hi. apply Hgen. right. exact Hi.
Qed.

Lemma expand_dim_inv indices index active_vars st dd :
  expand_inv hash_array indices st ->
  expand_inv hash_array indices (expand_dim hash_array index active_vars st dd).
Proof.
  destruct st as [indices_set new_indices].
  intros (Hin & Hnew & Hnd & Hfresh). unfold expand_dim.
  case_bool_decide as Hkey; [repeat split; assumption|].
  destruct (admissible_loop _ _ _ _); [|repeat split; assumption].
  simpl in *. repeat split; simpl.
  - intros i Hi. apply elem_of_union_l. auto.
  - intros i Hi. apply elem_of_app in Hi as [Hi|Hi].
    + apply elem_of_union_l. auto.
    + apply list_elem_of_singleton in Hi as ->. set_solver.
  - apply NoDup_app. repeat split.
    + exact Hnd.
    + intros i Hi Hi'. apply list_elem_of_singleton in Hi' as ->.
      apply Hkey. auto.
    + apply NoDup_singleton.
  - intros i Hi Hmem. apply elem_of_app in Hi as [Hi|Hi].
    + exact (Hfresh i Hi Hmem).
    + apply list_elem_of_singleton in Hi as ->. apply Hkey. auto.
Qed.

Lemma expand_index_inv indices nvars st index :
  expand_inv hash_array indices st ->
  expand_inv hash_array indices (expand_index hash_array nvars st index).
Proof.
  intros Hst. unfold expand_index.
  apply foldl_preserves; [|exact Hst].
  intros a dd Ha. apply expand_dim_inv, Ha.
Qed.

Lemma expand_basis_inv nvars indices :
  expand_inv hash_array indices
    (foldl (expand_index hash_array nvars)
           (hash_all hash_array indices, []) indices).
Proof.
  apply foldl_preserves.
  - intros a index Ha. apply expand_index_inv, Ha.
  - repeat split; simpl.
    + apply hash_all_elem.
    + intros i Hi. inversion Hi.
    + apply NoDup_nil_2.
    + intros i Hi. inversion Hi.
Qed.

End ExpansionFacts.

(** C6. For every index set S, whatever key function is in use, the indices
    that [expand_basis] returns are pairwise distinct, and none of them is a
    member of S. *)
Theorem expand_basis_no_duplicate_admission
  {K : Type} `{Countable K} (hash_array : multi_index -> K)
  (nvars : nat) (S : list multi_index) :
  NoDup (expand_basis hash_array nvars S) /\
  forall i, i ∈ expand_basis hash_array nvars S -> i ∉ S.
Proof.
  destruct (expand_basis_inv hash_array nvars S) as (_ & _ & Hnd & Hfresh).
  split; [exact Hnd|exact Hfresh].
Qed.

(** ** The expansion block of the adaptive search *)

(** Whatever the restriction returns, the first expansion of the block is
    applied to the index set of the expansion object as it stands. *)
Lemma expand_block_expands_working_set
  {K : Type} `{Countable K} (hash_array : multi_index -> K)
  (num_vars : nat) (tol : Q) (steps : nat) (b : best) (pce pce' : PCE)
  (nterms nterms' : Z) (n : nat) :
  expand_block hash_array num_vars tol steps b pce nterms = Ok (pce', nterms', S n) ->
  exists rest,
    indices pce' =
      indices pce ++ expand_basis hash_array num_vars (indices pce) ++ rest.
Proof.
  unfold expand_block.
  destruct (restrict_basis _ _ _) as [r|e|]; simpl; try discriminate.
  destruct (Nat.min steps (best_num_expansion_steps b)) as [|m] eqn:Hm; simpl.
  { intros Heq. inversion Heq. }
  destruct (expand_basis hash_array num_vars (indices pce)) as [|x new] eqn:Hnew;
    [discriminate|].
  set (pce1 := set_indices pce (indices pce ++ x :: new)).
  assert (Hgen : forall m (p p' : PCE) (z z' : Z),
             expand_loop hash_array num_vars m p z = Ok (p', z') ->
             exists rest, indices p' = indices p ++ rest).
  { clear. induction m as [|m IH]; intros p p' z z'; simpl.
    - intros [= <- _]. exists []. by rewrite app_nil_r.
    - destruct (expand_basis hash_array num_vars (indices p)) as [|y l];
        [discriminate|].
      intros Hrun. apply IH in Hrun as [rest Hrest]. simpl in Hrest.
      exists ((y :: l) ++ rest). by rewrite Hrest, app_assoc. }
  destruct (expand_loop hash_array num_vars m pce1 (num_terms pce1))
    as [[p z]|e|] eqn:Hrun; simpl; try discriminate.
  intros [= <- _ _]. apply Hgen in Hrun as [rest Hrest].
  exists rest. rewrite Hrest. unfold pce1. simpl. by rewrite <- app_assoc.
Qed.

(** C3. The expansion object holds the basis {(0,0), (1,0), (0,1)} with
    coefficients 1, 1, 0 and the tolerance is 1/1000. The restriction of that
    basis is {(0,0), (1,0)}, whose expansion is (2,0) alone. The block expands
    the unrestricted set instead: the working set keeps (0,1) and gains
    (1,1) and (0,2), which the restricted set does not admit. *)
Theorem expand_block_ignores_restriction :
  let pce := {| indices := [[0;0]; [1;0]; [0;1]];
                coefficients := [1; 1; 0]%Q |} in
  let tol := (1 # 1000)%Q in
  let b := {| best_indices := indices pce; best_coef := coefficients pce;
              best_cv_score := Some 1%Q; best_reg_param := None;
              best_num_expansion_steps := 3 |} in
  restrict_basis (indices pce) (coefficients pce) tol = Ok [[0;0]; [1;0]] /\
  expand_basis id 2%nat [[0;0]; [1;0]] = [[2;0]] /\
  expand_basis id 2%nat (indices pce) = [[2;0]; [1;1]; [0;2]] /\
  expand_block id 2%nat tol 1%nat b pce 3 =
    Ok ({| indices := [[0;0]; [1;0]; [0;1]; [2;0]; [1;1]; [0;2]];
           coefficients := [1; 1; 0]%Q |}, 6, 1%nat).
Proof. vm_compute. repeat split; reflexivity. Qed.

(** ** The regression front end *)

Lemma fit_linear_model_lars backend X y kwargs :
  fit_linear_model backend X y "lars" kwargs = Raise (Exception lars_msg).
Proof. reflexivity. Qed.

Lemma fit_linear_model_lasso_grad backend X y kwargs :
  fit_linear_model backend X y "lasso_grad" kwargs =
    (_ ← py_assert (ndim y =? 2)%nat;
     _ ← py_assert (bool_decide (shape y !! 1%nat = Some 1%nat));
     let solver_idx :=
       match kwargs !! "cv"%string with
       | None => 1%nat
       | Some (PyBool false) => 1%nat
       | Some _ => 0%nat
       end in
     match [LassoCV; Lasso] !! solver_idx with
     | None => Raise IndexError
     | Some cls =>
         f ← call (backend cls kwargs X (column0 y));
         match coef_ f with
         | [] => Raise IndexError
         | c0 :: coef' =>
             match kwargs !! "cv"%string with
             | Some _ =>
                 cv_score ← extract_cross_validation_score (cls, f);
                 best_regularization_param ←
                   extract_best_regularization_parameters (cls, f);
                 Ok ((c0 + intercept_ f)%Q :: coef', Some cv_score,
                     Some best_regularization_param)
             | None => Ok ((c0 + intercept_ f)%Q :: coef', None, None)
             end
         end
     end).
Proof. reflexivity. Qed.

(** C9. With solver type 'lasso_grad' and a 'cv' option that is not False,
    [fit_linear_model] raises on every input. When the assertions on the
    targets pass and the fit itself returns an estimator with coefficients and
    a cross-validation score, that estimator is a LassoCV object, for which
    [extract_best_regularization_parameters] has no branch, and the exception
    is the bare [Exception()]. *)
Theorem fit_linear_model_lasso_grad_cv_raises
  (backend : solver_class -> gmap string pyval -> ndarray -> list Q -> exn + fitted)
  (X y : ndarray) (kwargs : gmap string pyval) (v : pyval) :
  kwargs !! "cv"%string = Some v ->
  v <> PyBool false ->
  raises (fit_linear_model backend X y "lasso_grad" kwargs) /\
  (forall f,
      ndim y = 2%nat ->
      shape y !! 1%nat = Some 1%nat ->
      backend LassoCV kwargs X (column0 y) = inr f ->
      coef_ f <> [] ->
      is_Some (cv_score_ f) \/ is_Some (mse_path_ f) ->
      extract_best_regularization_parameters (LassoCV, f)
        = Raise (Exception EmptyString) /\
      fit_linear_model backend X y "lasso_grad" kwargs
        = Raise (Exception EmptyString)).
Proof.
  intros Hcv Hv.
  assert (Hidx : match v with PyBool false => 1%nat | _ => 0%nat end = 0%nat).
  { destruct v as [z|[|]|]; try reflexivity. contradiction. }
  rewrite fit_linear_model_lasso_grad, Hcv. split.
  - destruct (ndim y =? 2)%nat; simpl; [|exact I].
    case_bool_decide; simpl; [|exact I].
    rewrite Hidx. simpl.
    destruct (backend LassoCV kwargs X (column0 y)) as [e|f] eqn:Hfit; simpl.
    + exact I.
    + destruct (coef_ f); [exact I|].
      destruct (cv_score_ f); simpl; [exact I|].
      destruct (mse_path_ f); simpl; exact I.
  - intros f Hnd Hsh Hfit Hcoef Hscore. split; [reflexivity|].
    rewrite Hnd. simpl. rewrite bool_decide_true by exact Hsh. simpl.
    rewrite Hidx. simpl. rewrite Hfit. simpl.
    destruct (coef_ f); [contradiction|].
    destruct Hscore as [[s Hs]|[s Hs]]; rewrite Hs; simpl.
    + reflexivity.
    + destruct (cv_score_ f); reflexivity.
Qed.

Lemma fit_linear_model_lasso_grad_cv_raises_witness :
  raises (fit_linear_model constant_fit_backend
            (design_shape [[0]; [1]] three_samples) (constant_vals 3 1%Q)
            "lasso_grad" cv3) /\
  fit_linear_model constant_fit_backend
    (design_shape [[0]; [1]] three_samples) (constant_vals 3 1%Q)
    "lasso_grad" cv3 = Raise (Exception EmptyString).
Proof.
  pose proof (fit_linear_model_lasso_grad_cv_raises constant_fit_backend
                (design_shape [[0]; [1]] three_samples) (constant_vals 3 1%Q)
                cv3 (PyInt 3) eq_refl ltac:(discriminate)) as [Hraise Hexn].
  split; [exact Hraise|].
  eapply Hexn; [reflexivity|reflexivity|reflexivity|discriminate|].
  right. eexists. reflexivity.
Defined.

Lemma shape_at_finishes (a : ndarray) (k : nat) : shape_at a k <> Unfinished.
Proof. unfold shape_at. destruct (shape a !! k); discriminate. Qed.

Lemma py_assert_finishes (b : bool) : py_assert b <> Unfinished.
Proof. destruct b; discriminate. Qed.

Section LarsSearches.
Context {K : Type} `{Countable K}.
Variable hash_array : multi_index -> K.
Variable backend :
  solver_class -> gmap string pyval -> ndarray -> list Q -> exn + fitted.
Variable num_vars : nat.
Variable basis_matrix : list multi_index -> ndarray -> ndarray.
Variable compute_hyperbolic_indices : nat -> Z -> Q -> list multi_index.
Variables (train_samples train_vals : ndarray).
Variables (hcross_strength : Q) (linear_solver_options : gmap string pyval).
Variable set_coefficients_None : exn + unit.

(** With 'lars' the sweep can only leave its loop through the term-count
    guard or by running out of degrees, and then no best fit is bound. *)
Lemma sweep_loop_lars n degree s :
  sw_best_coef s = None ->
  match sweep_loop backend num_vars basis_matrix compute_hyperbolic_indices
          train_samples train_vals hcross_strength linear_solver_options
          "lars" n degree s with
  | Ok s' => sw_best_coef s' = None
  | Raise _ => True
  | Unfinished => False
  end.
Proof.
  revert degree s. induction n as [|n IH]; intros degree s Hs; simpl.
  - exact Hs.
  - unfold sweep_body. destruct (cap_trips _ _); simpl.
    + exact Hs.
    + try rewrite fit_linear_model_lars. exact I.
Qed.

Lemma cross_validate_pce_degree_lars pce min_degree max_degree :
  raises (_cross_validate_pce_degree backend num_vars basis_matrix
            compute_hyperbolic_indices train_samples train_vals
            hcross_strength linear_solver_options "lars"
            set_coefficients_None pce min_degree max_degree).
Proof.
  unfold _cross_validate_pce_degree.
  destruct (shape_at train_vals 1) as [ncols|e|] eqn:Hcols;
    cbn [mbind result_bind];
    [|exact I|by apply shape_at_finishes in Hcols].
  destruct (py_assert _) as [[]|e|] eqn:Ha; cbn [mbind result_bind];
    [|exact I|by apply py_assert_finishes in Ha].
  destruct (shape_at train_samples 1) as [num_samples|e|] eqn:Hrows;
    cbn [mbind result_bind];
    [|exact I|by apply shape_at_finishes in Hrows].
  match goal with
  | |- context [sweep_loop _ _ _ _ _ _ _ _ _ ?n ?d ?s] =>
      pose proof (sweep_loop_lars n d s eq_refl) as Hloop;
      destruct (sweep_loop backend num_vars basis_matrix
                  compute_hyperbolic_indices train_samples train_vals
                  hcross_strength linear_solver_options "lars" n d s)
        as [s'|e'|]
  end; cbn [mbind result_bind].
  - rewrite Hloop. by destruct set_coefficients_None.
  - exact I.
  - contradiction.
Qed.

Lemma expanding_basis_pce_lars restriction_tol fuel pce max_num_terms r :
  _expanding_basis_pce hash_array backend num_vars basis_matrix
    compute_hyperbolic_indices train_samples train_vals hcross_strength
    linear_solver_options "lars" restriction_tol fuel pce max_num_terms
  <> Ok r.
Proof.
  unfold _expanding_basis_pce.
  destruct (shape_at train_vals 1) as [ncols|e|]; cbn [mbind result_bind];
    try discriminate.
  destruct (py_assert _) as [[]|e|]; simpl; try discriminate.
  destruct (seed_degree _ _ _ _ _) as [[degree nterms]|e|]; simpl;
    try discriminate.
  all: rewrite fit_linear_model_lars; simpl; discriminate.
Qed.

End LarsSearches.

(** C10. 'lars' is a key of the table of supported solvers, and yet
    [fit_linear_model] raises for it on every input, whatever the regression
    backend would do, so before any fit. Hence the degree sweep always raises
    with 'lars', and the expand-and-restrict search never returns. *)
Theorem fit_linear_model_lars_always_raises :
  dict_get solvers "lars" = Some [LarsCV; Lars] /\
  (forall backend X y kwargs,
      fit_linear_model backend X y "lars" kwargs = Raise (Exception lars_msg)) /\
  (forall backend num_vars basis_matrix compute_hyperbolic_indices
          train_samples train_vals hcross_strength linear_solver_options
          set_coefficients_None pce min_degree max_degree,
      raises (_cross_validate_pce_degree backend num_vars basis_matrix
                compute_hyperbolic_indices train_samples train_vals
                hcross_strength linear_solver_options "lars"
                set_coefficients_None pce min_degree max_degree)) /\
  (forall (K : Type) `(Countable K) (hash_array : multi_index -> K)
          backend num_vars basis_matrix compute_hyperbolic_indices
          train_samples train_vals hcross_strength linear_solver_options
          restriction_tol fuel pce max_num_terms r,
      _expanding_basis_pce hash_array backend num_vars basis_matrix
        compute_hyperbolic_indices train_samples train_vals hcross_strength
        linear_solver_options "lars" restriction_tol fuel pce max_num_terms
      <> Ok r).
Proof.
  split; [reflexivity|]. split; [|split].
  - intros. apply fit_linear_model_lars.
  - intros. apply cross_validate_pce_degree_lars.
  - intros. apply expanding_basis_pce_lars.
Qed.

(** ** The seed of the adaptive search *)

Section SeedFacts.
Variable num_vars : nat.
Variable compute_hyperbolic_indices : nat -> Z -> Q -> list multi_index.
Variable hcross_strength : Q.
Variable max_num_terms : Z.

Let cross_count :=
  cross_count num_vars compute_hyperbolic_indices hcross_strength.

Lemma seed_loop_reaches (D : Z) :
  max_num_terms < cross_count D ->
  forall (fuel : nat) (degree prev : Z),
    degree <= D ->
    (forall d, degree <= d < D -> cross_count d <= max_num_terms) ->
    (Z.to_nat (D - degree) < fuel)%nat ->
    seed_loop num_vars compute_hyperbolic_indices hcross_strength
              max_num_terms fuel degree prev
    = Ok (D, cross_count D,
          if degree =? D then prev else cross_count (D - 1)).
Proof.
  intros Hover. induction fuel as [|fuel IH]; intros degree prev Hle Hbelow Hfuel.
  - lia.
  - simpl.
    change (Z.of_nat (length (compute_hyperbolic_indices num_vars degree
                                hcross_strength)))
      with (cross_count degree).
    destruct (Z.eq_dec degree D) as [->|Hne].
    + rewrite (proj2 (Z.ltb_lt _ _) Hover), Z.eqb_refl. reflexivity.
    + assert (Hd : cross_count degree <= max_num_terms) by (apply Hbelow; lia).
      rewrite (proj2 (Z.ltb_ge _ _) Hd).
      rewrite (proj2 (Z.eqb_neq _ _) Hne).
      rewrite IH; try lia.
      * destruct (Z.eqb_spec (degree + 1) D) as [Heq|Hneq].
        -- replace (D - 1) with degree by lia. reflexivity.
        -- reflexivity.
      * intros d Hd'. apply Hbelow. lia.
Qed.

End SeedFacts.

(** C7, as the code has it. Let D be the first degree, counting up from 2,
    whose hyperbolic cross has more than [max_num_terms] indices, and let
    [prev] be the index count of degree D - 1, taken as 0 when D = 2. With
    enough fuel for the D - 1 rounds of the loop, the seed degree is D - 1
    when the count of D is strictly farther from [max_num_terms] than [prev]
    is, and D otherwise; in the second case the seed has more than
    [max_num_terms] indices. *)
Theorem seed_degree_nearer_of_two
  (num_vars : nat)
  (compute_hyperbolic_indices : nat -> Z -> Q -> list multi_index)
  (hcross_strength : Q) (max_num_terms D : Z) (fuel : nat) :
  let count := cross_count num_vars compute_hyperbolic_indices hcross_strength in
  let prev := if D =? 2 then 0 else count (D - 1) in
  2 <= D ->
  (forall d, 2 <= d < D -> count d <= max_num_terms) ->
  max_num_terms < count D ->
  (Z.to_nat (D - 1) <= fuel)%nat ->
  seed_degree num_vars compute_hyperbolic_indices hcross_strength
              max_num_terms fuel
  = Ok (if Z.abs (prev - max_num_terms) <? Z.abs (count D - max_num_terms)
        then D - 1 else D,
        count D).
Proof.
  intros count prev HD Hbelow Hover Hfuel. unfold seed_degree.
  rewrite (seed_loop_reaches num_vars compute_hyperbolic_indices
             hcross_strength max_num_terms D Hover fuel 2 0 HD Hbelow)
    by lia.
  cbn [mbind result_bind]. rewrite (Z.eqb_sym 2 D). fold count. fold prev.
  destruct (Z.abs (prev - max_num_terms) <? Z.abs (count D - max_num_terms));
    reflexivity.
Qed.

Lemma seed_degree_nearer_of_two_witness :
  seed_degree 2%nat hyperbolic_p1 1%Q 9 5 = Ok (3, 10).
Proof.
  apply (seed_degree_nearer_of_two 2%nat hyperbolic_p1 1%Q 9 3 5).
  - lia.
  - intros d Hd. assert (d = 2) as -> by lia. vm_compute. discriminate.
  - vm_compute. reflexivity.
  - vm_compute. lia.
Defined.

(** C7, as stated, fails. Two variables, strength 1, target 9: the total
    degree sets of degree 2 and 3 have 6 and 10 indices. Degree 2 does not
    exceed the target, yet the seed is degree 3, whose 10 indices do. *)
Lemma seed_degree_exceeds_target :
  seed_degree 2%nat hyperbolic_p1 1%Q 9 5 = Ok (3, 10) /\
  cross_count 2%nat hyperbolic_p1 1%Q 2 = 6 /\
  cross_count 2%nat hyperbolic_p1 1%Q 3 = 10 /\
  cross_count 2%nat hyperbolic_p1 1%Q 2 <= 9 < cross_count 2%nat hyperbolic_p1 1%Q 3.
Proof. vm_compute. repeat split; congruence. Qed.

(** ** The degree sweep *)

Section SweepFacts.
Variable backend :
  solver_class -> gmap string pyval -> ndarray -> list Q -> exn + fitted.
Variable num_vars : nat.
Variable basis_matrix : list multi_index -> ndarray -> ndarray.
Variable compute_hyperbolic_indices : nat -> Z -> Q -> list multi_index.
Variables (train_samples train_vals : ndarray).
Variables (hcross_strength : Q) (linear_solver_options : gmap string pyval).
Variable solver_type : string.

Let body :=
  sweep_body backend num_vars basis_matrix compute_hyperbolic_indices
             train_samples train_vals hcross_strength linear_solver_options
             solver_type.
Let loop :=
  sweep_loop backend num_vars basis_matrix compute_hyperbolic_indices
             train_samples train_vals hcross_strength linear_solver_options
             solver_type.
Let nterms (degree : Z) : Z :=
  cross_count num_vars compute_hyperbolic_indices hcross_strength degree.
Let fit (degree : Z) :=
  fit_linear_model backend
    (basis_matrix (compute_hyperbolic_indices num_vars degree hcross_strength)
                  train_samples)
    train_vals solver_type linear_solver_options.

Lemma early_stop_bool s degree cv :
  Qle_bool (sw_best_cv_score s) cv && (1 <? degree - sw_best_degree s) = true
  <-> early_stop s degree cv.
Proof.
  unfold early_stop.
  rewrite andb_true_iff, Qle_bool_iff, Z.ltb_lt. reflexivity.
Qed.

Lemma sweep_body_stops_iff s degree :
  (exists s', body s degree = Ok (Break s')) <->
  cap_trips (sw_prev_num_terms s) (nterms degree) = true \/
  (cap_trips (sw_prev_num_terms s) (nterms degree) = false /\
   exists coef cv reg,
     fit degree = Ok (coef, Some cv, reg) /\ early_stop s degree cv).
Proof.
  unfold body, sweep_body.
  change (num_terms (set_indices (sw_pce s)
            (compute_hyperbolic_indices num_vars degree hcross_strength)))
    with (nterms degree).
  fold (fit degree).
  destruct (cap_trips (sw_prev_num_terms s) (nterms degree)).
  { split; [intros _; left; reflexivity|intros _; eexists; reflexivity]. }
  destruct (fit degree) as [[[coef [cv|]] reg]|e|]; cbn [mbind result_bind py_ge py_lt].
  - destruct (Qle_bool (sw_best_cv_score s) cv && (1 <? degree - sw_best_degree s))
      eqn:Hstop.
    + apply early_stop_bool in Hstop. split.
      * intros _. right. split; [reflexivity|]. eauto.
      * intros _. eexists. reflexivity.
    + split.
      * intros [s' Hs']. destruct (Qltb cv (sw_best_cv_score s)); discriminate.
      * intros [Hc|[_ (coef' & cv' & reg' & [= _ <- _] & Hes)]]; [discriminate|].
        apply early_stop_bool in Hes. congruence.
  - split; [intros [s' Hs']; discriminate|].
    intros [Hc|[_ (coef' & cv' & reg' & Hfit & _)]]; discriminate.
  - split; [intros [s' Hs']; discriminate|].
    intros [Hc|[_ (coef' & cv' & reg' & Hfit & _)]]; discriminate.
  - split; [intros [s' Hs']; discriminate|].
    intros [Hc|[_ (coef' & cv' & reg' & Hfit & _)]]; discriminate.
Qed.

Lemma sweep_body_continues_iff s degree :
  (exists s', body s degree = Ok (Continue s')) <->
  cap_trips (sw_prev_num_terms s) (nterms degree) = false /\
  exists coef cv reg,
    fit degree = Ok (coef, Some cv, reg) /\ ~ early_stop s degree cv.
Proof.
  unfold body, sweep_body.
  change (num_terms (set_indices (sw_pce s)
            (compute_hyperbolic_indices num_vars degree hcross_strength)))
    with (nterms degree).
  fold (fit degree).
  destruct (cap_trips (sw_prev_num_terms s) (nterms degree)).
  { split; [intros [s' Hs']; discriminate|intros [Hc _]; discriminate]. }
  destruct (fit degree) as [[[coef [cv|]] reg]|e|]; cbn [mbind result_bind py_ge py_lt].
  - destruct (Qle_bool (sw_best_cv_score s) cv && (1 <? degree - sw_best_degree s))
      eqn:Hstop.
    + apply early_stop_bool in Hstop. split.
      * intros [s' Hs']. discriminate.
      * intros [_ (coef' & cv' & reg' & [= _ <- _] & Hes)]. contradiction.
    + split.
      * intros _. split; [reflexivity|]. exists coef, cv, reg.
        split; [reflexivity|]. rewrite <- early_stop_bool. congruence.
      * intros _. destruct (Qltb cv (sw_best_cv_score s)); eexists; reflexivity.
  - split; [intros [s' Hs']; discriminate|].
    intros [_ (coef' & cv' & reg' & Hfit & _)]; discriminate.
  - split; [intros [s' Hs']; discriminate|].
    intros [_ (coef' & cv' & reg' & Hfit & _)]; discriminate.
  - split; [intros [s' Hs']; discriminate|].
    intros [_ (coef' & cv' & reg' & Hfit & _)]; discriminate.
Qed.

Lemma sweep_loop_continue s s' degree n :
  body s degree = Ok (Continue s') ->
  loop (S n) degree s = loop n (degree + 1) s'.
Proof.
  intros Hb. unfold loop. simpl. fold (body s degree). rewrite Hb. reflexivity.
Qed.

Lemma sweep_loop_break s s' degree n :
  body s degree = Ok (Break s') -> loop (S n) degree s = Ok s'.
Proof.
  intros Hb. unfold loop. simpl. fold (body s degree). rewrite Hb. reflexivity.
Qed.

End SweepFacts.

(** C8, as the code has it. One round of the sweep at [degree] leaves the
    loop exactly when the term-count guard trips before the fit, or the fit
    returns a score that does not improve on the best one while
    [degree - best_degree > 1]. It goes on exactly when the guard does not
    trip and the fit returns a score for which that early stop does not hold;
    the loop then takes up the next degree, as long as degrees are left. *)
Theorem sweep_stops_on_guard_or_early_stop
  (backend : solver_class -> gmap string pyval -> ndarray -> list Q -> exn + fitted)
  (num_vars : nat) (basis_matrix : list multi_index -> ndarray -> ndarray)
  (compute_hyperbolic_indices : nat -> Z -> Q -> list multi_index)
  (train_samples train_vals : ndarray) (hcross_strength : Q)
  (linear_solver_options : gmap string pyval) (solver_type : string)
  (s : sweep_state) (degree : Z) :
  let body :=
    sweep_body backend num_vars basis_matrix compute_hyperbolic_indices
               train_samples train_vals hcross_strength linear_solver_options
               solver_type in
  let loop :=
    sweep_loop backend num_vars basis_matrix compute_hyperbolic_indices
               train_samples train_vals hcross_strength linear_solver_options
               solver_type in
  let guard :=
    cap_trips (sw_prev_num_terms s)
      (cross_count num_vars compute_hyperbolic_indices hcross_strength degree) in
  let fit :=
    fit_linear_model backend
      (basis_matrix (compute_hyperbolic_indices num_vars degree hcross_strength)
                    train_samples)
      train_vals solver_type linear_solver_options in
  ((exists s', body s degree = Ok (Break s')) <->
   guard = true \/
   (guard = false /\
    exists coef cv reg,
      fit = Ok (coef, Some cv, reg) /\ early_stop s degree cv)) /\
  ((exists s', body s degree = Ok (Continue s')) <->
   guard = false /\
   exists coef cv reg,
     fit = Ok (coef, Some cv, reg) /\ ~ early_stop s degree cv) /\
  (forall s' n, body s degree = Ok (Break s') -> loop (S n) degree s = Ok s') /\
  (forall s' n, body s degree = Ok (Continue s') ->
                loop (S n) degree s = loop n (degree + 1) s').
Proof.
  intros body loop guard fit. split; [|split; [|split]].
  - apply sweep_body_stops_iff.
  - apply sweep_body_continues_iff.
  - intros s' n Hb. apply sweep_loop_break, Hb.
  - intros s' n Hb. apply sweep_loop_continue, Hb.
Qed.

(** C8, as stated, fails. One variable, strength 1, a sweep that starts at
    degree 99999 on constant targets. Degree 99999 has 100000 indices; it is
    fitted and becomes the best degree. Degree 100000 has 100001 indices: the
    term-count guard trips and the sweep stops there, before any score is
    computed, with [degree - best_degree = 1]. *)
Lemma sweep_stops_without_early_stop :
  let body :=
    sweep_body constant_fit_backend 1%nat design_shape hyperbolic_p1
               three_samples (constant_vals 3 1%Q) 1%Q cv3 "lstsq" in
  exists s1 s2,
    body (sweep_start empty_pce 99999) 99999 = Ok (Continue s1) /\
    sw_best_degree s1 = 99999 /\
    body s1 100000 = Ok (Break s2) /\
    ~ (1 < 100000 - sw_best_degree s1).
Proof.
  intros body.
  assert (Hrun :
    match body (sweep_start empty_pce 99999) 99999 with
    | Ok (Continue s1) =>
        sw_best_degree s1 = 99999 /\
        match body s1 100000 with
        | Ok (Break _) => True
        | _ => False
        end
    | _ => False
    end).
  { vm_compute. split; [reflexivity|exact I]. }
  destruct (body (sweep_start empty_pce 99999) 99999) as [[s1|s1]|e|];
    try contradiction.
  destruct Hrun as [Hbest Hnext].
  destruct (body s1 100000) as [[s2|s2]|e|] eqn:Hb2; try contradiction.
  exists s1, s2. repeat split; try assumption. rewrite Hbest. lia.
Qed.

(** ** Merging the per-QoI results *)

Section MergeFacts.
Context {K : Type} `{Countable K}.
Variable hash_array : multi_index -> K.
Hypothesis hash_inj : Inj (=) (=) hash_array.

Lemma register_inv_lookup st u row :
  register_inv hash_array st ->
  st.1 !! hash_array u = Some row <-> st.2 !! row = Some u.
Proof.
  intros (_ & Hd & HU). split; [|apply HU].
  intros Hk. destruct (Hd _ _ Hk) as (u' & Hu' & Heq).
  apply hash_inj in Heq. by subst.
Qed.

Lemma register_inv_None st x :
  register_inv hash_array st -> st.1 !! hash_array x = None <-> x ∉ st.2.
Proof.
  intros Hinv. split.
  - intros Hnone Hx. apply list_elem_of_lookup in Hx as [row Hrow].
    apply (register_inv_lookup st x row Hinv) in Hrow. congruence.
  - intros Hx. destruct (st.1 !! hash_array x) as [row|] eqn:Hk; [|done].
    apply (register_inv_lookup st x row Hinv) in Hk.
    exfalso. apply Hx. eapply list_elem_of_lookup_2, Hk.
Qed.

Lemma register_step st x :
  register_inv hash_array st ->
  register_inv hash_array (register hash_array st x) /\
  (register hash_array st x).2 =
    (if bool_decide (x ∈ st.2) then st.2 else st.2 ++ [x]).
Proof.
  intros Hinv. pose proof (register_inv_None st x Hinv) as Hnone.
  destruct st as [d U]. unfold register. simpl in *.
  destruct (d !! hash_array x) as [row|] eqn:Hk.
  - assert (Hx : x ∈ U).
    { destruct (decide (x ∈ U)) as [|Hn]; [done|].
      apply Hnone in Hn. congruence. }
    rewrite bool_decide_true by done. done.
  - assert (Hx : x ∉ U) by (by apply Hnone).
    rewrite bool_decide_false by done. split; [|done].
    destruct Hinv as (Hnd & Hd & HU). simpl in *.
    split; [|split]; simpl.
    + apply NoDup_app. split; [done|]. split; [|apply NoDup_singleton].
      intros y Hy Hy'. apply list_elem_of_singleton in Hy' as ->. done.
    + intros k row. destruct (decide (hash_array x = k)) as [<-|Hne].
      * rewrite lookup_insert_eq. intros [= <-]. exists x. split; [|done].
        rewrite lookup_app_r by lia. by rewrite Nat.sub_diag.
      * rewrite lookup_insert_ne by done. intros Hrow.
        destruct (Hd _ _ Hrow) as (u & Hu & Heq). exists u. split; [|done].
        rewrite lookup_app_l; [done|]. by eapply lookup_lt_Some.
    + intros u row Hrow. apply lookup_app_Some in Hrow as [Hrow|[Hge Hrow]].
      * assert (hash_array x <> hash_array u).
        { intros Heq. apply hash_inj in Heq. subst.
          apply Hx. eapply list_elem_of_lookup_2, Hrow. }
        rewrite lookup_insert_ne by done. by apply HU.
      * apply list_lookup_singleton_Some in Hrow as [Hrow <-].
        assert (row = length U) as -> by lia. apply lookup_insert_eq.
Qed.

Lemma register_fold l : forall st,
  register_inv hash_array st ->
  register_inv hash_array (foldl (register hash_array) st l) /\
  (foldl (register hash_array) st l).2 =
    foldl (fun acc x => if bool_decide (x ∈ acc) then acc else acc ++ [x])
          st.2 l.
Proof.
  induction l as [|x l IH]; intros st Hinv; simpl; [done|].
  destruct (register_step st x Hinv) as [Hinv' Heq].
  destruct (IH _ Hinv') as [Hinv'' Heq'']. split; [done|].
  by rewrite Heq'', Heq.
Qed.

Lemma register_concat (per_qoi : list (list multi_index * list Q)) : forall st,
  foldl (fun st qoi => foldl (register hash_array) st qoi.1) st per_qoi =
  foldl (register hash_array) st (concat (fst <$> per_qoi)).
Proof.
  induction per_qoi as [|q per_qoi IH]; intros st; simpl; [done|].
  by rewrite foldl_app, IH.
Qed.

Lemma register_all (per_qoi : list (list multi_index * list Q)) :
  let st := foldl (fun st qoi => foldl (register hash_array) st qoi.1)
                  (∅, []) per_qoi in
  register_inv hash_array st /\ st.2 = first_seen (concat (fst <$> per_qoi)).
Proof.
  simpl. rewrite register_concat. apply register_fold.
  split; [apply NoDup_nil_2|]. split; simpl.
  - intros k row Hk. by rewrite lookup_empty in Hk.
  - intros u row Hrow. by rewrite lookup_nil in Hrow.
Qed.

End MergeFacts.

Lemma first_seen_elem (l : list multi_index) (x : multi_index) :
  x ∈ first_seen l <-> x ∈ l.
Proof.
  unfold first_seen.
  assert (Hgen : forall l acc,
             x ∈ foldl (fun acc y => if bool_decide (y ∈ acc) then acc
                                     else acc ++ [y]) acc l
             <-> x ∈ acc \/ x ∈ l).
  { clear l. induction l as [|y l IH]; intros acc; simpl.
    - split; [auto|]. intros [?|Hx]; [done|inversion Hx].
    - rewrite IH. case_bool_decide as Hy.
      + rewrite elem_of_cons. split; [tauto|].
        intros [?|[->|?]]; auto.
      + rewrite elem_of_app, list_elem_of_singleton, elem_of_cons. tauto. }
  rewrite Hgen. split; [|auto]. intros [Hx|?]; [inversion Hx|done].
Qed.

Lemma elem_of_concat_2 {A} (ls : list (list A)) (l : list A) (x : A) :
  l ∈ ls -> x ∈ l -> x ∈ concat ls.
Proof.
  intros Hl Hx. induction ls as [|l0 ls IH]; [inversion Hl|].
  simpl. apply elem_of_app. apply elem_of_cons in Hl as [<-|Hl]; auto.
Qed.

Lemma entry_replicate (n m row col : nat) (v : Q) :
  (row < n)%nat -> (col < m)%nat ->
  entry (replicate n (replicate m v)) row col = Some v.
Proof.
  intros Hr Hc. unfold entry.
  rewrite (proj2 (lookup_replicate n (replicate m v) (replicate m v) row))
    by done.
  simpl. by apply lookup_replicate.
Qed.

Lemma set_entry_spec (M : list (list Q)) (row col : nat) (v : Q) (n m : nat) :
  well_shaped n m M -> (row < n)%nat -> (col < m)%nat ->
  exists M',
    set_entry M row col v = Ok M' /\
    well_shaped n m M' /\
    entry M' row col = Some v /\
    (forall r c, r <> row \/ c <> col -> entry M' r c = entry M r c).
Proof.
  intros [Hlen Hrows] Hr Hc. unfold set_entry.
  destruct (M !! row) as [r0|] eqn:Hrow.
  2: { apply lookup_ge_None in Hrow. lia. }
  assert (Hr0 : length r0 = m).
  { eapply Forall_lookup_1 in Hrows; [|exact Hrow]. done. }
  rewrite Hr0. rewrite (proj2 (Nat.ltb_lt col m) Hc).
  eexists. split; [reflexivity|]. split; [|split].
  - split; [by rewrite length_insert|].
    apply Forall_insert; [done|]. by rewrite length_insert.
  - unfold entry. rewrite list_lookup_insert_eq by lia. simpl.
    apply list_lookup_insert_eq. lia.
  - intros r c Hne. unfold entry.
    destruct (decide (r = row)) as [->|Hrne].
    + rewrite list_lookup_insert_eq by lia. rewrite Hrow. simpl.
      apply list_lookup_insert_ne. destruct Hne; congruence.
    + by rewrite list_lookup_insert_ne.
Qed.

Section ScatterFacts.
Context {K : Type} `{Countable K}.
Variable hash_array : multi_index -> K.
Variable indices_dict : gmap K nat.
Variable unique_indices : list multi_index.
Variable nqoi : nat.
Hypothesis unique_nodup : NoDup unique_indices.
Hypothesis dict_positions :
  forall u row,
    indices_dict !! hash_array u = Some row <-> unique_indices !! row = Some u.

Lemma scatter_qoi_spec (ii : nat) (coefs_ii : list Q) :
  (ii < nqoi)%nat ->
  forall (indices_ii : list multi_index) (jj : nat) (M : list (list Q)),
    well_shaped (length unique_indices) nqoi M ->
    NoDup indices_ii ->
    (forall idx, idx ∈ indices_ii -> idx ∈ unique_indices) ->
    (jj + length indices_ii <= length coefs_ii)%nat ->
    exists M',
      scatter_qoi hash_array indices_dict ii coefs_ii M jj indices_ii = Ok M' /\
      well_shaped (length unique_indices) nqoi M' /\
      (forall j idx c row,
          indices_ii !! j = Some idx -> coefs_ii !! (jj + j)%nat = Some c ->
          unique_indices !! row = Some idx -> entry M' row ii = Some c) /\
      (forall row col,
          col <> ii \/ (forall u, unique_indices !! row = Some u -> u ∉ indices_ii) ->
          entry M' row col = entry M row col).
Proof.
  intros Hii. induction indices_ii as [|idx rest IH]; intros jj M HM Hnd Hsub Hlen.
  { exists M. simpl. split; [done|]. split; [done|]. split; [|done].
    intros j idx c row Hj. by rewrite lookup_nil in Hj. }
  simpl in Hlen. simpl. unfold scatter_index.
  destruct (coefs_ii !! jj) as [c0|] eqn:Hc0.
  2: { apply lookup_ge_None in Hc0. lia. }
  assert (Hin : idx ∈ unique_indices) by (apply Hsub; left).
  apply list_elem_of_lookup in Hin as [row0 Hrow0].
  rewrite (proj2 (dict_positions idx row0) Hrow0).
  destruct (set_entry_spec M row0 ii c0 (length unique_indices) nqoi HM)
    as (M1 & Hset & HM1 & Hnew & Hold); [by eapply lookup_lt_Some|done|].
  rewrite Hset. simpl.
  apply NoDup_cons in Hnd as [Hfresh Hnd].
  destruct (IH (S jj) M1 HM1 Hnd) as (M' & Hrun & HM' & Hwritten & Hkept).
  { intros y Hy. apply Hsub. by right. }
  { lia. }
  exists M'. split; [done|]. split; [done|]. split.
  - intros [|j] idx' c row Hj Hc Hrow; simpl in Hj.
    + injection Hj as <-. rewrite Nat.add_0_r in Hc.
      assert (row = row0) as ->
          by exact (NoDup_lookup _ _ _ _ unique_nodup Hrow Hrow0).
      rewrite Hkept, Hnew; [congruence|].
      right. intros u Hu. congruence.
    + eapply Hwritten; [exact Hj| |exact Hrow].
      by replace (S jj + j)%nat with (jj + S j)%nat by lia.
  - intros row col Hcond. rewrite Hkept.
    + apply Hold. destruct Hcond as [Hcol|Hrow]; [by right|].
      left. intros ->. apply (Hrow idx Hrow0). by left.
    + destruct Hcond as [Hcol|Hrow]; [by left|].
      right. intros u Hu Hmem. apply (Hrow u Hu). by right.
Qed.

Lemma scatter_all_spec :
  forall (per_qoi : list (list multi_index * list Q)) (ii : nat)
         (M : list (list Q)),
    well_shaped (length unique_indices) nqoi M ->
    (ii + length per_qoi <= nqoi)%nat ->
    Forall (fun qoi => NoDup qoi.1 /\ length qoi.2 = length qoi.1 /\
                       forall idx, idx ∈ qoi.1 -> idx ∈ unique_indices)
           per_qoi ->
    exists M',
      scatter_all hash_array indices_dict ii per_qoi M = Ok M' /\
      well_shaped (length unique_indices) nqoi M' /\
      (forall q idxs cfs j idx c row,
          per_qoi !! q = Some (idxs, cfs) ->
          idxs !! j = Some idx -> cfs !! j = Some c ->
          unique_indices !! row = Some idx ->
          entry M' row (ii + q) = Some c) /\
      (forall row col,
          (col < ii)%nat \/ (ii + length per_qoi <= col)%nat \/
          (exists q idxs cfs,
              col = (ii + q)%nat /\ per_qoi !! q = Some (idxs, cfs) /\
              forall u, unique_indices !! row = Some u -> u ∉ idxs) ->
          entry M' row col = entry M row col).
Proof.
  induction per_qoi as [|[idxs0 cfs0] rest IH]; intros ii M HM Hlen Hall.
  { exists M. simpl. split; [done|]. split; [done|]. split; [|done].
    intros q idxs cfs j idx c row Hq. by rewrite lookup_nil in Hq. }
  simpl in Hlen. apply Forall_cons in Hall as [(Hnd0 & Hlen0 & Hsub0) Hall].
  simpl in Hnd0, Hlen0, Hsub0. simpl.
  destruct (scatter_qoi_spec ii cfs0 ltac:(lia) idxs0 0%nat M HM Hnd0 Hsub0)
    as (M1 & Hrun1 & HM1 & Hwritten1 & Hkept1); [lia|].
  rewrite Hrun1. simpl.
  destruct (IH (S ii) M1 HM1 ltac:(lia) Hall)
    as (M' & Hrun & HM' & Hwritten & Hkept).
  exists M'. split; [done|]. split; [done|]. split.
  - intros [|q] idxs cfs j idx c row Hq Hj Hc Hrow; simpl in Hq.
    + injection Hq as <- <-. rewrite Nat.add_0_r.
      rewrite Hkept by (left; lia). eapply Hwritten1; eauto.
    + replace (ii + S q)%nat with (S ii + q)%nat by lia.
      eapply Hwritten; eauto.
  - intros row col Hcond.
    destruct Hcond as [Hlt|[Hge|(q & idxs & cfs & -> & Hq & Hrow)]].
    + rewrite Hkept by (left; lia). apply Hkept1. left. lia.
    + rewrite Hkept by (right; left; lia). apply Hkept1. left. lia.
    + destruct q as [|q]; simpl in Hq.
      * injection Hq as <- <-. rewrite Nat.add_0_r.
        rewrite Hkept by (left; lia). apply Hkept1. by right.
      * apply lookup_lt_Some in Hq as Hqlt.
        rewrite Hkept.
        -- apply Hkept1. left. lia.
        -- right. right. exists q, idxs, cfs.
           split; [lia|]. split; [done|]. done.
Qed.

End ScatterFacts.

(** C5. Take one basis per QoI, each without repeated indices and with as
    many coefficients as indices, and at least one index overall; let the key
    function be collision-free. The merge returns the union of the index sets
    in first-seen order, without repetition, and a matrix with one row per
    union index and one column per QoI such that: the entry at the union
    position of an index of QoI q, in column q, is the coefficient that q had
    for that index; and the entry in column q is 0 at every union index that
    is not in the basis of q. *)
Theorem merge_preserves_per_qoi
  {K : Type} `{Countable K} (hash_array : multi_index -> K)
  (per_qoi : list (list multi_index * list Q)) :
  Inj (=) (=) hash_array ->
  Forall (fun qoi => NoDup qoi.1 /\ length qoi.2 = length qoi.1) per_qoi ->
  concat (fst <$> per_qoi) <> [] ->
  exists unique_indices all_coefs,
    merge_qoi hash_array per_qoi = Ok (unique_indices, all_coefs) /\
    unique_indices = first_seen (concat (fst <$> per_qoi)) /\
    NoDup unique_indices /\
    well_shaped (length unique_indices) (length per_qoi) all_coefs /\
    (forall q idxs cfs j idx c,
        per_qoi !! q = Some (idxs, cfs) ->
        idxs !! j = Some idx -> cfs !! j = Some c ->
        exists row,
          unique_indices !! row = Some idx /\ entry all_coefs row q = Some c) /\
    (forall q idxs cfs row u,
        per_qoi !! q = Some (idxs, cfs) ->
        unique_indices !! row = Some u -> u ∉ idxs ->
        entry all_coefs row q = Some 0%Q).
Proof.
  intros Hinj Hbasis Hnonempty.
  destruct (register_all hash_array Hinj per_qoi) as [Hinv HU].
  unfold merge_qoi.
  destruct (foldl (fun st qoi => foldl (register hash_array) st qoi.1)
                  (∅, []) per_qoi) as [d U] eqn:Hfold.
  simpl in HU. subst U.
  assert (HUne : first_seen (concat (fst <$> per_qoi)) <> []).
  { intros HU. destruct (concat (fst <$> per_qoi)) as [|x l]; [done|].
    assert (Hx : x ∈ first_seen (x :: l)) by (apply first_seen_elem; left).
    rewrite HU in Hx. inversion Hx. }
  set (U := first_seen (concat (fst <$> per_qoi))) in *.
  assert (Hmem : forall idxs cfs, (idxs, cfs) ∈ per_qoi ->
                                  forall idx, idx ∈ idxs -> idx ∈ U).
  { intros idxs cfs Hq idx Hidx. apply first_seen_elem.
    apply (elem_of_concat_2 _ idxs); [|done].
    apply list_elem_of_fmap. by exists (idxs, cfs). }
  destruct U as [|u0 U'] eqn:HUeq; [done|]. rewrite <- HUeq in *.
  assert (Hnd : NoDup U) by apply Hinv.
  assert (Hdict : forall u row, d !! hash_array u = Some row <-> U !! row = Some u).
  { intros u row. apply (register_inv_lookup hash_array Hinj (d, U) u row Hinv). }
  assert (HM0 : well_shaped (length U) (length per_qoi)
                  (replicate (length U) (replicate (length per_qoi) 0%Q))).
  { split; [by rewrite length_replicate|].
    apply Forall_replicate. by rewrite length_replicate. }
  destruct (scatter_all_spec hash_array d U (length per_qoi) Hnd Hdict
              per_qoi 0%nat _ HM0 ltac:(simpl; lia))
    as (M & Hrun & HM & Hwritten & Hkept).
  { apply Forall_forall. intros [idxs cfs] Hq.
    rewrite Forall_forall in Hbasis. destruct (Hbasis _ Hq) as [? ?].
    split; [done|]. split; [done|]. simpl. by eapply Hmem. }
  rewrite Hrun. exists U, M.
  split; [done|]. split; [done|]. split; [done|]. split; [done|]. split.
  - intros q idxs cfs j idx c Hq Hj Hc.
    assert (Hidx : idx ∈ U).
    { eapply Hmem; [by eapply list_elem_of_lookup_2|].
      by eapply list_elem_of_lookup_2. }
    apply list_elem_of_lookup in Hidx as [row Hrow].
    exists row. split; [done|].
    exact (Hwritten q idxs cfs j idx c row Hq Hj Hc Hrow).
  - intros q idxs cfs row u Hq Hrow Hu.
    rewrite Hkept.
    + apply entry_replicate; [by eapply lookup_lt_Some|by eapply lookup_lt_Some].
    + right. right. exists q, idxs, cfs. split; [done|]. split; [done|].
      intros u' Hu'. congruence.
Qed.

(** Two QoIs over one variable: the first selected the indices (0) and (2),
    the second (2) and (1). *)
Lemma merge_preserves_per_qoi_witness :
  exists unique_indices all_coefs,
    merge_qoi id [([[0]; [2]], [1; 3]%Q); ([[2]; [1]], [5; 7]%Q)]
      = Ok (unique_indices, all_coefs) /\
    unique_indices = [[0]; [2]; [1]] /\
    entry all_coefs 1 0 = Some 3%Q /\
    entry all_coefs 2 0 = Some 0%Q.
Proof.
  destruct (merge_preserves_per_qoi id
              [([[0]; [2]], [1; 3]%Q); ([[2]; [1]], [5; 7]%Q)])
    as (U & M & Hrun & HU & _ & _ & Hwritten & Hzero).
  - intros x y Hxy. exact Hxy.
  - repeat constructor; simpl; try (intros Hin; inversion Hin; subst;
      match goal with
      | Hm : _ ∈ _ |- _ => inversion Hm
      end).
  - discriminate.
  - exists U, M. split; [exact Hrun|]. split; [exact HU|]. split.
    + destruct (Hwritten 0%nat [[0]; [2]] [1; 3]%Q 1%nat [2] 3%Q
                  eq_refl eq_refl eq_refl) as (row & Hrow & Hentry).
      rewrite HU in Hrow.
      destruct row as [|[|[|row]]]; try discriminate. exact Hentry.
    + apply (Hzero 0%nat [[0]; [2]] [1; 3]%Q 2%nat [1] eq_refl).
      * rewrite HU. reflexivity.
      * intros Hin. inversion Hin as [|? ? ? Hin']; subst.
        inversion Hin' as [|? ? ? Hin'']; subst. inversion Hin''.
Defined.

(** ** The constant term through the adaptive search *)

Lemma np_where_from_elem {A} (p : A -> bool) (l : list A) :
  forall (start j : nat),
    j ∈ np_where_from p start l ->
    exists k x, j = (start + k)%nat /\ l !! k = Some x /\ p x = true.
Proof.
  induction l as [|y l IH]; intros start j Hj; simpl in Hj.
  - inversion Hj.
  - destruct (p y) eqn:Hy.
    + apply elem_of_cons in Hj as [->|Hj].
      * exists 0%nat, y. split; [lia|done].
      * destruct (IH _ _ Hj) as (k & x & -> & Hk & Hx).
        exists (S k), x. split; [lia|done].
    + destruct (IH _ _ Hj) as (k & x & -> & Hk & Hx).
      exists (S k), x. split; [lia|done].
Qed.

Lemma np_where_elem {A} (p : A -> bool) (l : list A) (j : nat) :
  j ∈ np_where p l -> exists x, l !! j = Some x /\ p x = true.
Proof.
  intros Hj. destruct (np_where_from_elem p l 0 j Hj) as (k & x & -> & Hk & Hx).
  by exists x.
Qed.

Lemma np_where_from_complete {A} (p : A -> bool) (l : list A) :
  forall (start k : nat) (x : A),
    l !! k = Some x -> p x = true -> (start + k)%nat ∈ np_where_from p start l.
Proof.
  induction l as [|y l IH]; intros start k x Hk Hx; [by rewrite lookup_nil in Hk|].
  destruct k as [|k]; simpl in *.
  - injection Hk as ->. rewrite Hx, Nat.add_0_r. left.
  - replace (start + S k)%nat with (S start + k)%nat by lia.
    destruct (p y); [right|]; by eapply IH.
Qed.

Lemma take_columns_elem {A} (cols : list A) (I : list nat) (r : list A) :
  take_columns cols I = Ok r ->
  forall j, j ∈ I -> exists c, cols !! j = Some c /\ c ∈ r.
Proof.
  revert r. induction I as [|i I IH]; intros r Hr j Hj; [inversion Hj|].
  simpl in Hr. destruct (cols !! i) as [c|] eqn:Hc; [|discriminate].
  destruct (take_columns cols I) as [rest|e|] eqn:Hrest; simpl in Hr;
    try discriminate.
  injection Hr as <-. apply elem_of_cons in Hj as [->|Hj].
  - exists c. split; [done|left].
  - destruct (IH rest eq_refl j Hj) as (c' & Hc' & Hin).
    exists c'. split; [done|by right].
Qed.

(** When the restriction returns, the basis holds an index of degree zero
    whose coefficient exceeds the tolerance in magnitude. *)
Lemma restrict_basis_returns indices coefficients tol r :
  restrict_basis indices coefficients tol = Ok r ->
  exists j i c,
    indices !! j = Some i /\ degree_of i = 0 /\
    coefficients !! j = Some c /\ exceeds tol c = true.
Proof.
  unfold restrict_basis.
  destruct (take_columns _ _) as [restricted|e|]; simpl; try discriminate.
  destruct (np_where (Z.eqb 0) (degree_of <$> indices)) as [|j [|j' J]] eqn:HJ;
    simpl; try discriminate.
  case_bool_decide as Hj; simpl; [|discriminate]. intros _.
  assert (HjJ : j ∈ np_where (Z.eqb 0) (degree_of <$> indices))
    by (rewrite HJ; left).
  apply np_where_elem in HjJ as (d & Hd & Hzero).
  apply list_lookup_fmap_Some in Hd as (i & -> & Hi).
  apply np_where_elem in Hj as (c & Hc & Hex).
  apply Z.eqb_eq in Hzero.
  exists j, i, c. split; [exact Hi|]. split; [by symmetry|]. split; assumption.
Qed.

Lemma exceeds_nonzero (tol c : Q) :
  (0 <= tol)%Q -> exceeds tol c = true -> Qnonzero c = true.
Proof.
  unfold exceeds, Qnonzero. intros Htol Hex.
  apply negb_true_iff in Hex. apply negb_true_iff.
  destruct (Qeq_bool c 0) eqn:Hc; [|done].
  apply Qeq_bool_iff in Hc.
  assert (Hle : Qle_bool (Qabs c) tol = true).
  { apply Qle_bool_iff. rewrite Hc. exact Htol. }
  congruence.
Qed.

Lemma degree_zero_is_zero_index (i : multi_index) :
  Forall (Z.le 0) i -> degree_of i = 0 -> is_zero_index i = true.
Proof.
  unfold degree_of, is_zero_index.
  induction 1 as [|x i Hx Hi IH]; simpl; [done|]. intros Hsum.
  assert (Hrest : 0 <= foldr Z.add 0 i).
  { clear -Hi. induction Hi; simpl; lia. }
  assert (x = 0) as -> by lia. simpl. apply IH. lia.
Qed.

(** The closing filter keeps every index whose coefficient is not zero. *)
Lemma finalize_keeps_nonzero (b : best) (pce : PCE) (j : nat)
      (i : multi_index) (c : Q) :
  finalize b = Ok pce ->
  best_indices b !! j = Some i -> best_coef b !! j = Some c ->
  Qnonzero c = true ->
  i ∈ indices pce.
Proof.
  unfold finalize. intros Hfin Hi Hc Hnz.
  destruct (take_columns (best_indices b) _) as [final|e|] eqn:Hcols; simpl in Hfin;
    try discriminate.
  destruct (take_columns (best_coef b) _) as [fc|e|]; simpl in Hfin;
    try discriminate.
  injection Hfin as <-. simpl.
  destruct (take_columns_elem _ _ _ Hcols j) as (i' & Hi' & Hin).
  - apply (np_where_from_complete Qnonzero (best_coef b) 0 j c Hc Hnz).
  - congruence.
Qed.

Lemma foldl_preserves_elem {A B} (P : A -> Prop) (f : A -> B -> A) (l : list B) :
  forall a, (forall a x, x ∈ l -> P a -> P (f a x)) -> P a -> P (foldl f a l).
Proof.
  induction l as [|x l IH]; intros a Hstep Ha; simpl; [exact Ha|].
  apply IH.
  - intros a' y Hy. apply Hstep. by right.
  - apply Hstep; [left|exact Ha].
Qed.

Lemma get_forward_neighbor_nonneg (i : multi_index) (dd : nat) :
  Forall (Z.le 0) i -> Forall (Z.le 0) (get_forward_neighbor i dd).
Proof.
  unfold get_forward_neighbor. revert dd.
  induction i as [|x i IH]; intros dd Hi; [done|].
  apply Forall_cons in Hi as [Hx Hi].
  destruct dd as [|dd]; simpl; constructor.
  - lia.
  - exact Hi.
  - exact Hx.
  - apply IH, Hi.
Qed.

Lemma expand_basis_nonneg {K : Type} `{Countable K}
      (hash_array : multi_index -> K) (nvars : nat) (S : list multi_index) :
  nonneg_indices S -> nonneg_indices (expand_basis hash_array nvars S).
Proof.
  intros HS. unfold expand_basis.
  apply (foldl_preserves_elem (fun st => nonneg_indices st.2));
    [|by constructor].
  intros st index Hindex Hst. unfold expand_index.
  apply foldl_preserves; [|exact Hst].
  intros [indices_set new_indices] dd Hnew. unfold expand_dim.
  case_bool_decide; [exact Hnew|].
  destruct (admissible_loop _ _ _ _); [|exact Hnew].
  simpl in *. apply Forall_app. split; [exact Hnew|].
  constructor; [|constructor].
  apply get_forward_neighbor_nonneg.
  unfold nonneg_indices in HS. rewrite Forall_forall in HS. by apply HS.
Qed.

Section ConstantTerm.
Context {K : Type} `{Countable K}.
Variable hash_array : multi_index -> K.
Variable backend :
  solver_class -> gmap string pyval -> ndarray -> list Q -> exn + fitted.
Variable num_vars : nat.
Variable basis_matrix : list multi_index -> ndarray -> ndarray.
Variable compute_hyperbolic_indices : nat -> Z -> Q -> list multi_index.
Variables (train_samples train_vals : ndarray).
Variables (hcross_strength : Q) (linear_solver_options : gmap string pyval).
Variable solver_type : string.
Variable restriction_tol : Q.

Lemma expand_loop_nonneg n : forall pce nterms pce' nterms',
  expand_loop hash_array num_vars n pce nterms = Ok (pce', nterms') ->
  nonneg_indices (indices pce) -> nonneg_indices (indices pce').
Proof.
  induction n as [|n IH]; intros pce nterms pce' nterms'; simpl.
  - by intros [= <- _].
  - destruct (expand_basis hash_array num_vars (indices pce)) as [|x new]
      eqn:Hnew; [discriminate|].
    intros Hrun Hpce. eapply IH; [exact Hrun|]. simpl.
    apply Forall_app. split; [exact Hpce|].
    rewrite <- Hnew. by apply expand_basis_nonneg.
Qed.

(** One round of the inner loop: afterwards the best basis is checked. *)
Lemma inner_body_tracks max_num_terms steps b pce nterms ib r :
  inner_body hash_array backend num_vars basis_matrix train_samples train_vals
             linear_solver_options solver_type restriction_tol max_num_terms
             steps b (pce, nterms, ib) = Ok r ->
  nonneg_indices (indices pce) ->
  tracked restriction_tol pce (best_indices b, best_coef b) ->
  tracked_iter restriction_tol pce ib ->
  let '(pce', _, ib') :=
    match r with Continue st => st | Break st => st end in
  nonneg_indices (indices pce') /\
  checked restriction_tol (best_indices b, best_coef b) /\
  tracked_iter restriction_tol pce' ib'.
Proof.
  unfold inner_body, expand_block. intros Hrun Hnn Hbest Hiter.
  destruct (restrict_basis (indices pce) (coefficients pce) restriction_tol)
    as [restricted|e|] eqn:Hres; simpl in Hrun; try discriminate.
  assert (Hnow : checked restriction_tol (indices pce, coefficients pce)).
  { split; [exact Hnn|]. by exists restricted. }
  assert (Hup : forall X, tracked restriction_tol pce X -> checked restriction_tol X).
  { intros X [HX| ->]; [exact HX|exact Hnow]. }
  destruct (expand_loop _ _ _ _ _) as [[pce1 nterms1]|e|] eqn:Hexp;
    simpl in Hrun; try discriminate.
  apply expand_loop_nonneg in Hexp; [|exact Hnn].
  destruct (fit_linear_model _ _ _ _ _) as [[[coef cv_score] reg_param]|e|];
    simpl in Hrun; try discriminate.
  destruct (py_lt cv_score (best_cv_score_iter ib)) as [improved|e|];
    simpl in Hrun; try discriminate.
  assert (Hib : tracked_iter restriction_tol (set_coefficients pce1 coef)
            (if improved
             then {| best_cv_score_iter := cv_score;
                     best_iter := Some (indices pce1, coef, reg_param);
                     best_num_expansion_steps_iter :=
                       Nat.min steps (best_num_expansion_steps b) |}
             else ib)).
  { destruct improved; unfold tracked_iter; simpl.
    - by right.
    - unfold tracked_iter in Hiter.
      destruct (best_iter ib) as [[[bi bc] br]|]; [|done].
      left. by apply Hup. }
  revert Hrun.
  destruct (max_num_terms <=? nterms1);
    [|destruct steps as [|[|[|steps']]]]; intros [= <-];
    (split; [exact Hexp|]); (split; [by apply Hup|exact Hib]).
Qed.

Lemma inner_loop_tracks max_num_terms fuel :
  forall steps b pce nterms ib pce' nterms' ib',
  inner_loop hash_array backend num_vars basis_matrix train_samples train_vals
             linear_solver_options solver_type restriction_tol max_num_terms
             fuel steps b (pce, nterms, ib) = Ok (pce', nterms', ib') ->
  nonneg_indices (indices pce) ->
  tracked restriction_tol pce (best_indices b, best_coef b) ->
  tracked_iter restriction_tol pce ib ->
  nonneg_indices (indices pce') /\
  checked restriction_tol (best_indices b, best_coef b) /\
  tracked_iter restriction_tol pce' ib'.
Proof.
  induction fuel as [|fuel IH]; intros steps b pce nterms ib pce' nterms' ib';
    cbn [inner_loop]; [discriminate|].
  destruct (inner_body hash_array backend num_vars basis_matrix train_samples
              train_vals linear_solver_options solver_type restriction_tol
              max_num_terms steps b (pce, nterms, ib)) as [r|e|] eqn:Hbody;
    cbn [mbind result_bind]; try discriminate.
  intros Hrun Hnn Hbest Hiter.
  pose proof (inner_body_tracks _ _ _ _ _ _ _ Hbody Hnn Hbest Hiter) as Hpost.
  destruct r as [[[pce1 nterms1] ib1]|[[pce1 nterms1] ib1]].
  - destruct Hpost as (Hnn1 & Hchecked & Hiter1).
    eapply IH; [exact Hrun|exact Hnn1|by left|exact Hiter1].
  - injection Hrun as <- <- <-. exact Hpost.
Qed.

(** The basis that the outer loop returns is checked. *)
Lemma outer_loop_tracks max_num_terms fuel :
  forall it best_it b pce nterms ib b',
  outer_loop hash_array backend num_vars basis_matrix train_samples train_vals
             linear_solver_options solver_type restriction_tol max_num_terms
             fuel it best_it b (pce, nterms, ib) = Ok b' ->
  nonneg_indices (indices pce) ->
  tracked restriction_tol pce (best_indices b, best_coef b) ->
  tracked_iter restriction_tol pce ib ->
  checked restriction_tol (best_indices b', best_coef b').
Proof.
  induction fuel as [|fuel IH]; intros it best_it b pce nterms ib b';
    [discriminate|].
  cbn [outer_loop].
  destruct (inner_loop _ _ _ _ _ _ _ _ _ _ _ _ _ _)
    as [[[pce1 nterms1] ib1]|e|] eqn:Hinner;
    cbn [mbind result_bind]; try discriminate.
  intros Hrun Hnn Hbest Hiter.
  apply inner_loop_tracks in Hinner as (Hnn1 & Hchecked & Hiter1);
    [|exact Hnn|exact Hbest|exact Hiter].
  destruct (py_lt (best_cv_score_iter ib1) (best_cv_score b)) as [improved|e|];
    cbn [mbind result_bind] in Hrun; try discriminate.
  destruct improved.
  - unfold tracked_iter in Hiter1.
    destruct (best_iter ib1) as [[[bi bc] br]|] eqn:Hbi; [|discriminate].
    eapply IH; [exact Hrun|exact Hnn1|exact Hiter1|].
    unfold tracked_iter. by rewrite Hbi.
  - destruct (2 <=? it - best_it).
    + injection Hrun as <-. exact Hchecked.
    + eapply IH; [exact Hrun|exact Hnn1|by left|exact Hiter1].
Qed.

(** A checked basis keeps its constant index through the closing filter,
    when the tolerance is not negative. *)
Lemma finalize_checked (b : best) (pce : PCE) :
  (0 <= restriction_tol)%Q ->
  checked restriction_tol (best_indices b, best_coef b) ->
  finalize b = Ok pce ->
  has_constant (indices pce).
Proof.
  intros Htol [Hnn [r Hr]] Hfin. simpl in *.
  apply restrict_basis_returns in Hr as (j & i & c & Hi & Hdeg & Hc & Hex).
  exists i. split.
  - eapply finalize_keeps_nonzero; eauto using exceeds_nonzero.
  - apply degree_zero_is_zero_index; [|exact Hdeg].
    unfold nonneg_indices in Hnn. by eapply Forall_lookup_1 in Hnn.
Qed.

(** With a tolerance that is not negative, a basis that the search returns
    has gone through [restrict_basis], which as written returns only when
    the coefficient of the constant index exceeds the tolerance: the closing
    filter then finds that coefficient non-zero. The raising branch of
    [restrict_basis] hides that the closing filter has no exemption for the
    constant index. *)
Lemma expanding_basis_pce_constant fuel pce0 max_terms pce score reg :
  (0 <= restriction_tol)%Q ->
  (forall degree,
      nonneg_indices
        (compute_hyperbolic_indices num_vars degree hcross_strength)) ->
  _expanding_basis_pce hash_array backend num_vars basis_matrix
    compute_hyperbolic_indices train_samples train_vals hcross_strength
    linear_solver_options solver_type restriction_tol fuel pce0 max_terms
  = Ok (pce, score, reg) ->
  has_constant (indices pce).
Proof.
  intros Htol Hchi. unfold _expanding_basis_pce.
  destruct (shape_at train_vals 1) as [ncols|e|]; cbn [mbind result_bind];
    try discriminate.
  destruct (py_assert _) as [[]|e|]; cbn [mbind result_bind]; try discriminate.
  destruct (seed_degree _ _ _ _ _) as [[degree nterms]|e|];
    cbn [mbind result_bind]; try discriminate.
  destruct (fit_linear_model _ _ _ _ _) as [[[coef cv_score] reg_param]|e|];
    cbn [mbind result_bind]; try discriminate.
  destruct (outer_loop _ _ _ _ _ _ _ _ _ _ _ _ _ _ _) as [b|e|] eqn:Houter;
    cbn [mbind result_bind]; try discriminate.
  destruct (finalize b) as [pce'|e|] eqn:Hfin;
    cbn [mbind result_bind]; try discriminate.
  intros [= <- _ _].
  apply (finalize_checked b pce' Htol); [|exact Hfin].
  eapply outer_loop_tracks; [exact Houter| | |].
  - simpl. apply Hchi.
  - right. reflexivity.
  - exact I.
Qed.

End ConstantTerm.

Lemma count_up_lower (n : nat) : forall k, Forall (Z.le k) (count_up n k).
Proof.
  induction n as [|n IH]; intros k; simpl; constructor; [lia|].
  eapply Forall_impl; [apply IH|]. intros x Hx. simpl in Hx. lia.
Qed.

Lemma total_degree_indices_nonneg (nvars : nat) :
  forall degree, nonneg_indices (total_degree_indices nvars degree).
Proof.
  unfold nonneg_indices.
  induction nvars as [|n IH]; intros degree; simpl.
  - repeat constructor.
  - apply Forall_forall. intros i Hi.
    apply list_elem_of_In, in_flat_map in Hi as (k & Hk & Hi).
    apply list_elem_of_In, list_elem_of_fmap in Hi as (rest & -> & Hrest).
    constructor.
    + pose proof (count_up_lower (Z.to_nat (degree + 1)) 0) as Hlow.
      rewrite Forall_forall in Hlow. apply Hlow. by apply list_elem_of_In.
    + specialize (IH (degree - k)). rewrite Forall_forall in IH. by apply IH.
Qed.

(** ** Restriction, further *)

Lemma np_where_from_length {A} (p : A -> bool) (l : list A) :
  forall start, length (np_where_from p start l) = length (List.filter p l).
Proof.
  induction l as [|x l IH]; intros start; simpl; [done|].
  destruct (p x); simpl; by rewrite IH.
Qed.

Lemma np_where_from_lower {A} (p : A -> bool) (l : list A) (start j : nat) :
  j ∈ np_where_from p start l -> (start <= j)%nat.
Proof.
  intros Hj. apply np_where_from_elem in Hj as (k & x & -> & _). lia.
Qed.

Lemma np_where_from_NoDup {A} (p : A -> bool) (l : list A) :
  forall start, NoDup (np_where_from p start l).
Proof.
  induction l as [|x l IH]; intros start; simpl; [apply NoDup_nil_2|].
  destruct (p x); [|apply IH].
  apply NoDup_cons. split; [|apply IH].
  intros Hin. apply np_where_from_lower in Hin. lia.
Qed.

Lemma np_where_bound {A} (p : A -> bool) (l : list A) (j : nat) :
  j ∈ np_where p l -> (j < length l)%nat.
Proof.
  intros Hj. apply np_where_elem in Hj as (x & Hx & _).
  by eapply lookup_lt_Some.
Qed.

(** The columns at the positions that pass a test, paired off against the
    tested list: the filter of the pairs. *)
Lemma take_columns_np_where {A B} (p : B -> bool) (cols : list A) (l : list B) :
  forall start r,
    take_columns cols (np_where_from p start l) = Ok r ->
    r = fst <$> List.filter (fun xy => p xy.2) (zip (drop start cols) l).
Proof.
  induction l as [|x l IH]; intros start r; simpl.
  - intros [= <-]. by rewrite zip_with_nil_r.
  - destruct (p x) eqn:Hx; simpl.
    + destruct (cols !! start) as [c|] eqn:Hc; [|discriminate].
      destruct (take_columns cols (np_where_from p (S start) l))
        as [rest|e|] eqn:Hrest; simpl; try discriminate.
      intros [= <-]. rewrite (drop_S _ _ _ Hc). simpl. rewrite Hx. simpl.
      f_equal. by apply IH.
    + intros Hr. apply IH in Hr as ->.
      destruct (cols !! start) as [c|] eqn:Hc.
      * rewrite (drop_S _ _ _ Hc). simpl. by rewrite Hx.
      * apply lookup_ge_None in Hc.
        rewrite !drop_ge by lia. done.
Qed.

Lemma take_columns_total {A} (cols : list A) (I : list nat) :
  (forall j, j ∈ I -> (j < length cols)%nat) ->
  exists r, take_columns cols I = Ok r.
Proof.
  induction I as [|j I IH]; intros Hb; simpl; [by eexists|].
  destruct (lookup_lt_is_Some_2 cols j) as [c Hc]; [apply Hb; left|].
  rewrite Hc. destruct IH as [rest ->]; [intros j' Hj'; apply Hb; by right|].
  simpl. by eexists.
Qed.

Lemma filter_fmap_length {A B} (f : A -> B) (p : B -> bool) (l : list A) :
  length (List.filter p (f <$> l)) = length (List.filter (fun x => p (f x)) l).
Proof.
  induction l as [|a l IH]; [done|].
  rewrite fmap_cons. cbn [List.filter].
  destruct (p (f a)); cbn [length]; congruence.
Qed.

Lemma degree_positions_length (indices : list multi_index) :
  length (np_where (Z.eqb 0) (degree_of <$> indices)) =
  length (List.filter (fun i => 0 =? degree_of i) indices).
Proof.
  unfold np_where. rewrite np_where_from_length.
  apply (filter_fmap_length degree_of (Z.eqb 0)).
Qed.

(** X1. When [restrict_basis] returns, what it returns is the list of the
    indices whose coefficient exceeds the tolerance in magnitude, in the order
    of the input, and the input holds exactly one index of degree zero, which
    is among them. *)
Theorem restrict_basis_returns_filter
  (indices : list multi_index) (coefficients : list Q) (tol : Q)
  (r : list multi_index) :
  restrict_basis indices coefficients tol = Ok r ->
  r = fst <$> List.filter (fun ic => exceeds tol ic.2) (zip indices coefficients) /\
  length (List.filter (fun i => 0 =? degree_of i) indices) = 1%nat /\
  exists i, i ∈ r /\ degree_of i = 0.
Proof.
  intros Hrun. pose proof Hrun as Hrun'.
  unfold restrict_basis in Hrun.
  destruct (take_columns indices (np_where (exceeds tol) coefficients))
    as [restricted|e|] eqn:Hcols; simpl in Hrun; try discriminate.
  pose proof (degree_positions_length indices) as Hlen.
  destruct (np_where (Z.eqb 0) (degree_of <$> indices)) as [|j [|j' J]] eqn:HJ;
    simpl in Hrun; try discriminate.
  case_bool_decide as Hj; simpl in Hrun; [|discriminate].
  injection Hrun as <-. split; [|split].
  - apply (take_columns_np_where (exceeds tol) indices coefficients 0) in Hcols.
    by rewrite drop_0 in Hcols.
  - by rewrite <- Hlen.
  - assert (HjJ : j ∈ np_where (Z.eqb 0) (degree_of <$> indices))
      by (rewrite HJ; left).
    apply np_where_elem in HjJ as (d & Hd & Hzero).
    apply list_lookup_fmap_Some in Hd as (i & -> & Hi).
    destruct (take_columns_elem _ _ _ Hcols j Hj) as (i' & Hi' & Hin).
    exists i. split; [congruence|]. apply Z.eqb_eq in Hzero. done.
Qed.

(** The middle coefficient is below the tolerance of one half. *)
Lemma restrict_basis_returns_filter_witness :
  [[0]; [2]] =
    fst <$> List.filter (fun ic => exceeds (1 # 2)%Q ic.2)
                        (zip [[0]; [1]; [2]] [1; 0; 3]%Q) /\
  length (List.filter (fun i => 0 =? degree_of i) [[0]; [1]; [2]]) = 1%nat /\
  exists i, i ∈ [[0]; [2]] /\ degree_of i = 0.
Proof.
  apply (restrict_basis_returns_filter [[0]; [1]; [2]] [1; 0; 3]%Q (1 # 2)%Q).
  vm_compute. reflexivity.
Defined.

(** X2. With no more coefficients than indices, [restrict_basis] raises
    [AssertionError] unless exactly one index has degree zero: a basis
    without its constant term, or with the constant term twice, is
    refused. *)
Theorem restrict_basis_asserts_one_constant
  (indices : list multi_index) (coefficients : list Q) (tol : Q) :
  (length coefficients <= length indices)%nat ->
  length (List.filter (fun i => 0 =? degree_of i) indices) <> 1%nat ->
  restrict_basis indices coefficients tol = Raise AssertionError.
Proof.
  intros Hlen Hcount. unfold restrict_basis.
  destruct (take_columns_total indices (np_where (exceeds tol) coefficients))
    as [restricted ->].
  { intros j Hj. apply np_where_bound in Hj. lia. }
  simpl. rewrite degree_positions_length.
  destruct (Nat.eqb_spec
              (length (List.filter (fun i => 0 =? degree_of i) indices)) 1);
    [contradiction|reflexivity].
Qed.

Lemma restrict_basis_asserts_one_constant_witness :
  restrict_basis [[1]; [2]] [5; 5]%Q (1 # 2)%Q = Raise AssertionError /\
  restrict_basis [[0]; [0]] [5; 5]%Q (1 # 2)%Q = Raise AssertionError.
Proof.
  split.
  - apply restrict_basis_asserts_one_constant; [simpl; lia|vm_compute; lia].
  - apply restrict_basis_asserts_one_constant; [simpl; lia|vm_compute; lia].
Defined.

(** X3. With no more coefficients than indices, [restrict_basis] returns
    exactly when one single index has degree zero and the coefficient at its
    position exceeds the tolerance in magnitude. *)
Theorem restrict_basis_returns_iff
  (indices : list multi_index) (coefficients : list Q) (tol : Q) :
  (length coefficients <= length indices)%nat ->
  ((exists r, restrict_basis indices coefficients tol = Ok r) <->
   exists j i c,
     indices !! j = Some i /\ degree_of i = 0 /\
     (forall j' i', indices !! j' = Some i' -> degree_of i' = 0 -> j' = j) /\
     coefficients !! j = Some c /\ exceeds tol c = true).
Proof.
  intros Hlen. split.
  - intros [r Hrun]. unfold restrict_basis in Hrun.
    destruct (take_columns indices (np_where (exceeds tol) coefficients))
      as [restricted|e|] eqn:Hcols; simpl in Hrun; try discriminate.
    destruct (np_where (Z.eqb 0) (degree_of <$> indices)) as [|j [|j' J]] eqn:HJ;
      simpl in Hrun; try discriminate.
    case_bool_decide as Hj; simpl in Hrun; [|discriminate].
    assert (HjJ : j ∈ np_where (Z.eqb 0) (degree_of <$> indices))
      by (rewrite HJ; left).
    apply np_where_elem in HjJ as (d & Hd & Hzero).
    apply list_lookup_fmap_Some in Hd as (i & -> & Hi).
    apply np_where_elem in Hj as (c & Hc & Hex).
    apply Z.eqb_eq in Hzero.
    exists j, i, c. split; [done|]. split; [done|]. split; [|done].
    intros j1 i1 Hi1 Hd1.
    assert (Hin : (0 + j1)%nat ∈ np_where (Z.eqb 0) (degree_of <$> indices)).
    { apply (np_where_from_complete (Z.eqb 0) _ 0 j1 (degree_of i1)).
      - by rewrite list_lookup_fmap, Hi1.
      - apply Z.eqb_eq. done. }
    rewrite HJ in Hin. simpl in Hin. apply list_elem_of_singleton in Hin. done.
  - intros (j & i & c & Hi & Hdeg & Huniq & Hc & Hex). unfold restrict_basis.
    destruct (take_columns_total indices (np_where (exceeds tol) coefficients))
      as [restricted ->].
    { intros j1 Hj1. apply np_where_bound in Hj1. lia. }
    simpl.
    assert (HJ : np_where (Z.eqb 0) (degree_of <$> indices) = [j]).
    { pose proof (np_where_from_NoDup (Z.eqb 0) (degree_of <$> indices) 0) as Hnd.
      fold (np_where (Z.eqb 0) (degree_of <$> indices)) in Hnd.
      assert (Hj : j ∈ np_where (Z.eqb 0) (degree_of <$> indices)).
      { apply (np_where_from_complete (Z.eqb 0) _ 0 j (degree_of i)).
        - by rewrite list_lookup_fmap, Hi.
        - rewrite Hdeg. done. }
      assert (Hall : forall j1, j1 ∈ np_where (Z.eqb 0) (degree_of <$> indices)
                                -> j1 = j).
      { intros j1 Hj1. apply np_where_elem in Hj1 as (d & Hd & Hz).
        apply list_lookup_fmap_Some in Hd as (i1 & -> & Hi1).
        apply Z.eqb_eq in Hz. eapply Huniq; eauto. }
      destruct (np_where (Z.eqb 0) (degree_of <$> indices)) as [|a [|b l]].
      - inversion Hj.
      - f_equal. apply Hall. left.
      - exfalso. apply NoDup_cons in Hnd as [Hnotin _].
        apply Hnotin. rewrite (Hall a), (Hall b); [left|right; left|left]. }
    rewrite HJ. simpl.
    assert (HjI : j ∈ np_where (exceeds tol) coefficients).
    { apply (np_where_from_complete (exceeds tol) coefficients 0 j c Hc Hex). }
    rewrite bool_decide_true by done. simpl. by eexists.
Qed.

Lemma restrict_basis_returns_iff_witness :
  exists r, restrict_basis [[0]; [1]; [2]] [1; 0; 3]%Q (1 # 2)%Q = Ok r.
Proof.
  apply (proj2 (restrict_basis_returns_iff [[0]; [1]; [2]] [1; 0; 3]%Q (1 # 2)%Q
                  ltac:(simpl; lia))).
  exists 0%nat, [0], 1%Q. split; [reflexivity|]. split; [reflexivity|].
  split; [|split; reflexivity].
  intros [|[|[|j']]] i' Hi' Hd; simpl in Hi'; try discriminate;
    injection Hi' as <-; try reflexivity; vm_compute in Hd; discriminate.
Defined.

(** ** Expansion, further *)

Lemma degree_of_forward (i : multi_index) (dd : nat) :
  (dd < length i)%nat ->
  degree_of (get_forward_neighbor i dd) = degree_of i + 1.
Proof.
  unfold degree_of, get_forward_neighbor. revert dd.
  induction i as [|x i IH]; intros dd Hdd; simpl in *; [lia|].
  destruct dd as [|dd]; simpl; [lia|].
  pose proof (IH dd ltac:(lia)) as Hrec.
  change (alter (fun x => x + 1) dd i) with (list_alter (fun x => x + 1) dd i)
    in Hrec.
  lia.
Qed.

Section ExpansionMore.
Context {K : Type} `{Countable K}.
Variable hash_array : multi_index -> K.

(** Everything queued is a forward neighbour of an index of the input. *)
Lemma expand_basis_parents (nvars : nat) (S : list multi_index) :
  Forall (fun f => exists i dd, i ∈ S /\ (dd < nvars)%nat /\
                                f = get_forward_neighbor i dd)
         (expand_basis hash_array nvars S).
Proof.
  unfold expand_basis.
  apply (foldl_preserves_elem
           (fun st => Forall (fun f => exists i dd, i ∈ S /\ (dd < nvars)%nat /\
                                                    f = get_forward_neighbor i dd)
                             st.2)); [|by constructor].
  intros st index Hindex Hst. unfold expand_index.
  apply (foldl_preserves_elem
           (fun st => Forall (fun f => exists i dd, i ∈ S /\ (dd < nvars)%nat /\
                                                    f = get_forward_neighbor i dd)
                             st.2)); [|exact Hst].
  intros [indices_set new_indices] dd Hdd Hnew. unfold expand_dim.
  case_bool_decide; [exact Hnew|].
  destruct (admissible_loop _ _ _ _); [|exact Hnew].
  simpl in *. apply Forall_app. split; [exact Hnew|].
  constructor; [|constructor].
  exists index, dd. split; [exact Hindex|]. split; [|reflexivity].
  apply elem_of_seq in Hdd. lia.
Qed.

(** A round of the outer loop at the all-zero index queues nothing: the
    tuple of its active positions holds one empty array, the backward
    neighbour computed from it is the forward index itself, and that one has
    just been found missing from the key set. *)
Lemma expand_index_zero (nvars : nat) (st : gset K * list multi_index)
      (z : multi_index) :
  is_zero_index z = true -> expand_index hash_array nvars st z = st.
Proof.
  intros Hz. unfold expand_index.
  assert (Hact : np_nonzero z = [[]]).
  { unfold np_nonzero, np_where. f_equal.
    assert (Hgen : forall start, np_where_from (fun x => negb (x =? 0)) start z = []).
    { unfold is_zero_index in Hz. induction z as [|x z IH]; intros start; [done|].
      cbn [forallb] in Hz. apply andb_true_iff in Hz as [Hx Hz].
      apply Z.eqb_eq in Hx. subst x. simpl. by apply IH. }
    apply Hgen. }
  rewrite Hact. apply foldl_preserves; [|reflexivity].
  intros st' dd ->. destruct st as [indices_set new_indices].
  unfold expand_dim. case_bool_decide as Hkey; [reflexivity|].
  simpl. rewrite bool_decide_false by exact Hkey. reflexivity.
Qed.

End ExpansionMore.

(** X4. Every index that [expand_basis] returns is the forward neighbour,
    in some dimension below [nvars], of a member of the input set; when the
    members have [nvars] entries each, it has [nvars] entries too and its
    degree is that of the member plus one. *)
Theorem expand_basis_returns_forward_neighbours
  {K : Type} `{Countable K} (hash_array : multi_index -> K)
  (nvars : nat) (S : list multi_index) (f : multi_index) :
  Forall (fun i => length i = nvars) S ->
  f ∈ expand_basis hash_array nvars S ->
  exists i dd,
    i ∈ S /\ (dd < nvars)%nat /\ f = get_forward_neighbor i dd /\
    length f = nvars /\ degree_of f = degree_of i + 1.
Proof.
  intros Hlen Hf.
  pose proof (expand_basis_parents hash_array nvars S) as Hpar.
  rewrite Forall_forall in Hpar. destruct (Hpar f Hf) as (i & dd & Hi & Hdd & ->).
  rewrite Forall_forall in Hlen. specialize (Hlen i Hi).
  exists i, dd. split; [done|]. split; [done|]. split; [done|]. split.
  - unfold get_forward_neighbor. by rewrite length_alter.
  - apply degree_of_forward. lia.
Qed.

Lemma expand_basis_returns_forward_neighbours_witness :
  exists i dd,
    i ∈ [[0;0]; [1;0]] /\ (dd < 2)%nat /\ [2;0] = get_forward_neighbor i dd /\
    length [2;0] = 2%nat /\ degree_of [2;0] = degree_of i + 1.
Proof.
  apply (expand_basis_returns_forward_neighbours id 2%nat [[0;0]; [1;0]] [2;0]).
  - repeat constructor.
  - vm_compute. left.
Defined.

(** X5. A set that holds the all-zero index alone has no expansion,
    whatever the key function, and the expansion loop of the adaptive search
    then raises [ValueError] at its first round, when it stacks the empty
    result next to the index array. *)
Theorem expand_basis_constant_only
  {K : Type} `{Countable K} (hash_array : multi_index -> K)
  (nvars : nat) (z : multi_index) (pce : PCE) (nterms : Z) (n : nat) :
  is_zero_index z = true ->
  indices pce = [z] ->
  expand_basis hash_array nvars [z] = [] /\
  expand_loop hash_array nvars (S n) pce nterms = Raise ValueError.
Proof.
  intros Hz Hpce.
  assert (Hexp : expand_basis hash_array nvars [z] = []).
  { unfold expand_basis. simpl. by rewrite expand_index_zero. }
  split; [exact Hexp|]. simpl. by rewrite Hpce, Hexp.
Qed.

Lemma expand_basis_constant_only_witness :
  expand_basis id 2%nat [[0;0]] = [] /\
  expand_loop id 2%nat 1 {| indices := [[0;0]]; coefficients := [1%Q] |} 1
  = Raise ValueError.
Proof.
  apply (expand_basis_constant_only id 2%nat [0;0]
           {| indices := [[0;0]]; coefficients := [1%Q] |} 1 0);
    reflexivity.
Defined.

Section Inactive.
Context {K : Type} `{Countable K}.
Variable hash_array : multi_index -> K.
Hypothesis hash_inj : Inj (=) (=) hash_array.
Variable d : nat.

Lemma backward_keeps_inactive (f : multi_index) (A : list nat) :
  d ∉ A -> get_backward_neighbor f A !! d = f !! d.
Proof.
  unfold get_backward_neighbor.
  induction A as [|k A IH]; intros Hd; simpl; [done|].
  rewrite list_lookup_alter_ne.
  - apply IH. intros Hin. apply Hd. by right.
  - intros ->. apply Hd. left.
Qed.

Lemma expand_basis_inactive_inv (nvars : nat) (S : list multi_index) :
  (forall i, i ∈ S -> default 0 (i !! d) = 0) ->
  let st := foldl (expand_index hash_array nvars)
                  (hash_all hash_array S, []) S in
  (forall k, k ∈ st.1 -> exists u, (u ∈ S \/ u ∈ st.2) /\ k = hash_array u) /\
  (forall f, f ∈ st.2 -> default 0 (f !! d) = 0).
Proof.
  intros HS.
  apply (foldl_preserves_elem
           (fun st =>
              (forall k, k ∈ st.1 ->
                         exists u, (u ∈ S \/ u ∈ st.2) /\ k = hash_array u) /\
              (forall f, f ∈ st.2 -> default 0 (f !! d) = 0))).
  - intros st index Hindex Hst. unfold expand_index.
    apply (foldl_preserves
             (fun st =>
                (forall k, k ∈ st.1 ->
                           exists u, (u ∈ S \/ u ∈ st.2) /\ k = hash_array u) /\
                (forall f, f ∈ st.2 -> default 0 (f !! d) = 0))); [|exact Hst].
    intros [indices_set new_indices] dd [Hkeys Hnew]. simpl in *.
    unfold expand_dim. case_bool_decide as Hkey; [by split|].
    unfold np_nonzero. simpl.
    case_bool_decide as Hback; [|by split]. simpl. split.
    + intros k Hk. apply elem_of_union in Hk as [Hk|Hk].
      * destruct (Hkeys k Hk) as (u & [Hu|Hu] & ->); exists u; split; auto.
        right. apply elem_of_app. by left.
      * apply elem_of_singleton in Hk as ->.
        exists (get_forward_neighbor index dd). split; [|done].
        right. apply elem_of_app. right. left.
    + intros f Hf. apply elem_of_app in Hf as [Hf|Hf]; [by apply Hnew|].
      apply list_elem_of_singleton in Hf as ->.
      unfold get_forward_neighbor.
      destruct (decide (dd = d)) as [->|Hne].
      2: { rewrite list_lookup_alter_ne by done. by apply HS. }
      rewrite list_lookup_alter, decide_True by done.
      pose proof (HS index Hindex) as Hidx.
      destruct (index !! d) as [x|] eqn:Hx; simpl in *; [|reflexivity].
      subst x. exfalso.
      destruct (Hkeys _ Hback) as (u & Hu & Heq). apply hash_inj in Heq.
      assert (Hu0 : default 0 (u !! d) = 0).
      { destruct Hu as [Hu|Hu]; [by apply HS|by apply Hnew]. }
      rewrite <- Heq in Hu0.
      rewrite backward_keeps_inactive in Hu0.
      * unfold get_forward_neighbor in Hu0.
        rewrite list_lookup_alter, decide_True, Hx in Hu0 by done.
        simpl in Hu0. lia.
      * intros Hin. apply np_where_elem in Hin as (x & Hx' & Hnz).
        rewrite Hx in Hx'. injection Hx' as <-. discriminate.
  - split; simpl.
    + intros k Hk. unfold hash_all in Hk.
      assert (Hgen : forall (l : list multi_index) (acc : gset K),
                 k ∈ foldl (fun s j => s ∪ {[hash_array j]}) acc l ->
                 k ∈ acc \/ exists u, u ∈ l /\ k = hash_array u).
      { induction l as [|x l IH]; intros acc Hacc; simpl in Hacc; [by left|].
        apply IH in Hacc as [Hacc|(u & Hu & ->)].
        - apply elem_of_union in Hacc as [Hacc|Hacc]; [by left|].
          apply elem_of_singleton in Hacc as ->. right. exists x. split; [left|done].
        - right. exists u. split; [by right|done]. }
      apply Hgen in Hk as [Hk|(u & Hu & ->)]; [set_solver|].
      exists u. split; [by left|done].
    + intros f Hf. inversion Hf.
Qed.

End Inactive.

(** X6. With a collision-free key, [expand_basis] never activates a
    dimension: when entry [d] is zero in every member of the input set, it is
    zero in every index returned. A candidate that is new in dimension [d]
    is tested through a backward neighbour that is itself active in [d], and
    no such index is in the set. *)
Theorem expand_basis_never_activates
  {K : Type} `{Countable K} (hash_array : multi_index -> K)
  (nvars : nat) (S : list multi_index) (d : nat) (f : multi_index) :
  Inj (=) (=) hash_array ->
  (forall i, i ∈ S -> default 0 (i !! d) = 0) ->
  f ∈ expand_basis hash_array nvars S ->
  default 0 (f !! d) = 0.
Proof.
  intros Hinj HS Hf.
  destruct (expand_basis_inactive_inv hash_array Hinj d nvars S HS) as [_ Hnew].
  by apply Hnew.
Qed.

(** The set {(0,0), (1,0)}: (0,1) has its only backward neighbour (0,0) in
    the set, and yet the expansion is (2,0) alone. *)
Lemma expand_basis_never_activates_witness :
  expand_basis id 2%nat [[0;0]; [1;0]] = [[2;0]] /\
  admissible_in [[0;0]; [1;0]] [0;1] = true /\
  default 0 ([2;0] !! 1%nat) = 0.
Proof.
  split; [vm_compute; reflexivity|]. split; [vm_compute; reflexivity|].
  apply (expand_basis_never_activates id 2%nat [[0;0]; [1;0]] 1%nat [2;0]).
  - intros x y Hxy. exact Hxy.
  - intros i Hi. apply elem_of_cons in Hi as [->|Hi]; [reflexivity|].
    apply list_elem_of_singleton in Hi as ->. reflexivity.
  - vm_compute. left.
Defined.

(** ** The regression front end, further *)

Lemma dict_get_solvers_inv (solver_type : string) (classes : list solver_class) :
  dict_get solvers solver_type = Some classes ->
  (solver_type = "lasso"%string /\ classes = [LassoLarsCV; LassoLars]) \/
  (solver_type = "lasso_grad"%string /\ classes = [LassoCV; Lasso]) \/
  (solver_type = "lars"%string /\ classes = [LarsCV; Lars]) \/
  (solver_type = "omp"%string /\
   classes = [OrthogonalMatchingPursuitCV; OrthogonalMatchingPursuit]) \/
  (solver_type = "lstsq"%string /\
   classes = [LinearLeastSquaresCV; LinearLeastSquares]).
Proof.
  unfold dict_get, solvers.
  destruct (String.eqb_spec solver_type "lasso") as [->|_];
    [intros [= <-]; tauto|].
  destruct (String.eqb_spec solver_type "lasso_grad") as [->|_];
    [intros [= <-]; tauto|].
  destruct (String.eqb_spec solver_type "lars") as [->|_];
    [intros [= <-]; tauto|].
  destruct (String.eqb_spec solver_type "omp") as [->|_];
    [intros [= <-]; tauto|].
  destruct (String.eqb_spec solver_type "lstsq") as [->|_];
    [intros [= <-]; tauto|].
  discriminate.
Qed.

Lemma dict_get_solvers_None (solver_type : string) :
  solver_type ∉ (fst <$> solvers) -> dict_get solvers solver_type = None.
Proof.
  unfold dict_get, solvers. simpl. intros Hnot.
  repeat match goal with
  | |- context [String.eqb solver_type ?k] =>
      destruct (String.eqb_spec solver_type k) as [->|_];
      [exfalso; apply Hnot; set_solver|]
  end.
  reflexivity.
Qed.

(** X7. A solver type that is not one of the five keys of the table makes
    [fit_linear_model] raise the message that lists them, whatever the other
    arguments and the regression backend. *)
Theorem fit_linear_model_unknown_solver
  (backend : solver_class -> gmap string pyval -> ndarray -> list Q -> exn + fitted)
  (X y : ndarray) (solver_type : string) (kwargs : gmap string pyval) :
  solver_type ∉ ["lasso"; "lasso_grad"; "lars"; "omp"; "lstsq"]%string ->
  fit_linear_model backend X y solver_type kwargs
  = Raise (Exception (unsupported_msg solver_type)).
Proof.
  intros Hnot. unfold fit_linear_model.
  by rewrite (dict_get_solvers_None solver_type Hnot).
Qed.

Lemma fit_linear_model_unknown_solver_witness :
  fit_linear_model constant_fit_backend (design_shape [[0]] three_samples)
    (constant_vals 3 1%Q) "ridge" cv3
  = Raise (Exception (unsupported_msg "ridge")).
Proof.
  apply fit_linear_model_unknown_solver.
  intros Hin. repeat (apply elem_of_cons in Hin as [Hin|Hin]; [discriminate|]).
  inversion Hin.
Defined.

(** What a returning call of [fit_linear_model] has gone through. *)
Lemma fit_linear_model_returns
  (backend : solver_class -> gmap string pyval -> ndarray -> list Q -> exn + fitted)
  (X y : ndarray) (solver_type : string) (kwargs : gmap string pyval)
  (coef : list Q) (sc : option Q) (rp : option reg_param) :
  fit_linear_model backend X y solver_type kwargs = Ok (coef, sc, rp) ->
  exists classes cls kwargs' f c0 rest,
    dict_get solvers solver_type = Some classes /\
    solver_type <> "lars"%string /\
    kwargs' !! "cv"%string = kwargs !! "cv"%string /\
    (solver_type <> "omp"%string -> kwargs' = kwargs) /\
    classes !! (match kwargs !! "cv"%string with
                | None => 1%nat
                | Some (PyBool false) => 1%nat
                | Some _ => 0%nat
                end) = Some cls /\
    backend cls kwargs' X (column0 y) = inr f /\
    coef_ f = c0 :: rest /\
    coef = (c0 + intercept_ f)%Q :: rest /\
    match kwargs !! "cv"%string with
    | None => sc = None /\ rp = None
    | Some _ =>
        exists s0 r0,
          extract_cross_validation_score (cls, f) = Ok s0 /\
          extract_best_regularization_parameters (cls, f) = Ok r0 /\
          sc = Some s0 /\ rp = Some r0
    end.
Proof.
  unfold fit_linear_model.
  destruct (dict_get solvers solver_type) as [classes|] eqn:Hcls; [|discriminate].
  destruct (String.eqb_spec solver_type "lars") as [->|Hlars]; [discriminate|].
  destruct (py_assert (ndim y =? 2)%nat) as [[]|e|]; cbn [mbind result_bind];
    try discriminate.
  destruct (py_assert (bool_decide (shape y !! 1%nat = Some 1%nat))) as [[]|e|];
    cbn [mbind result_bind]; try discriminate.
  set (prep := if String.eqb solver_type "omp" then _ else _).
  assert (Hprep : forall kwargs',
             prep = Ok kwargs' ->
             kwargs' !! "cv"%string = kwargs !! "cv"%string /\
             (solver_type <> "omp"%string -> kwargs' = kwargs)).
  { intros kwargs'. unfold prep.
    destruct (String.eqb_spec solver_type "omp") as [->|Homp].
    - destruct (kwargs !! "max_iter"%string) as [v|]; [|by intros [= <-]].
      destruct (shape X !! 1%nat) as [ncols|]; [|discriminate].
      destruct (py_min_int v (Z.of_nat ncols)) as [v'|e|];
        cbn [mbind result_bind]; try discriminate.
      intros [= <-]. split; [|done]. by rewrite lookup_insert_ne.
    - by intros [= <-]. }
  destruct prep as [kwargs'|e|]; cbn [mbind result_bind]; try discriminate.
  destruct (Hprep kwargs' eq_refl) as [Hcv Hsame]. rewrite Hcv.
  destruct (classes !! _) as [cls|] eqn:Hidx; [|discriminate].
  destruct (backend cls kwargs' X (column0 y)) as [e|f] eqn:Hfit;
    cbn [call mbind result_bind]; [discriminate|].
  destruct (coef_ f) as [|c0 rest] eqn:Hcoef; [discriminate|].
  intros Hrun.
  exists classes, cls, kwargs', f, c0, rest.
  split; [done|]. split; [done|]. split; [done|]. split; [done|].
  split; [done|]. split; [done|]. split; [done|].
  destruct (kwargs !! "cv"%string) as [v|].
  - destruct (extract_cross_validation_score (cls, f)) as [s0|e|];
      cbn [mbind result_bind] in Hrun; try discriminate.
    destruct (extract_best_regularization_parameters (cls, f)) as [r0|e|];
      cbn [mbind result_bind] in Hrun; try discriminate.
    injection Hrun as <- <- <-. split; [done|]. by exists s0, r0.
  - injection Hrun as <- <- <-. done.
Qed.

(** [fit_linear_model] has no loop of its own: it returns or raises. *)
Lemma fit_linear_model_finishes
  (backend : solver_class -> gmap string pyval -> ndarray -> list Q -> exn + fitted)
  (X y : ndarray) (solver_type : string) (kwargs : gmap string pyval) :
  fit_linear_model backend X y solver_type kwargs <> Unfinished.
Proof.
  unfold fit_linear_model.
  destruct (dict_get solvers solver_type) as [classes|]; [|discriminate].
  destruct (String.eqb solver_type "lars"); [discriminate|].
  destruct (py_assert (ndim y =? 2)%nat) as [[]|e|] eqn:H1;
    cbn [mbind result_bind]; try discriminate.
  2: { unfold py_assert in H1. destruct (_ =? _)%nat; discriminate. }
  destruct (py_assert (bool_decide (shape y !! 1%nat = Some 1%nat)))
    as [[]|e|] eqn:H2; cbn [mbind result_bind]; try discriminate.
  2: { unfold py_assert in H2. destruct (bool_decide _); discriminate. }
  set (prep := if String.eqb solver_type "omp" then _ else _).
  assert (Hprep : prep <> Unfinished).
  { unfold prep. destruct (String.eqb solver_type "omp"); [|discriminate].
    destruct (kwargs !! "max_iter"%string) as [v|]; [|discriminate].
    destruct (shape X !! 1%nat) as [ncols|]; [|discriminate].
    destruct v as [z|b|]; simpl; discriminate. }
  destruct prep as [kwargs'|e|]; cbn [mbind result_bind];
    [|discriminate|contradiction].
  destruct (classes !! _) as [cls|]; [|discriminate].
  destruct (backend cls kwargs' X (column0 y)) as [e|f];
    cbn [call mbind result_bind]; [discriminate|].
  destruct (coef_ f) as [|c0 rest]; [discriminate|].
  destruct (kwargs' !! "cv"%string); [|discriminate].
  unfold extract_cross_validation_score.
  destruct (cv_score_ f); [|destruct (mse_path_ f)]; cbn [mbind result_bind];
    try discriminate;
    unfold extract_best_regularization_parameters;
    destruct cls; cbn [mbind result_bind]; try discriminate;
    destruct (length (n_iter_ f) =? 1)%nat; cbn [py_assert mbind result_bind];
    discriminate.
Qed.

Lemma fit_linear_model_cv_false_no_return
  (backend : solver_class -> gmap string pyval -> ndarray -> list Q -> exn + fitted)
  (X y : ndarray) (solver_type : string) (kwargs : gmap string pyval)
  (r : list Q * option Q * option reg_param) :
  kwargs !! "cv"%string = Some (PyBool false) ->
  fit_linear_model backend X y solver_type kwargs <> Ok r.
Proof.
  intros Hcv Hrun. destruct r as [[coef sc] rp].
  apply fit_linear_model_returns in Hrun
    as (classes & cls & kwargs' & f & c0 & rest & Hcls & _ & _ & _ & Hidx
        & _ & _ & _ & Hext).
  rewrite Hcv in Hidx, Hext. destruct Hext as (s0 & r0 & _ & Hreg & _).
  apply dict_get_solvers_inv in Hcls
    as [[_ ->]|[[_ ->]|[[_ ->]|[[_ ->]|[_ ->]]]]];
    injection Hidx as <-; discriminate.
Qed.

(** X8. With the option [cv] set to [False], [fit_linear_model] raises for
    every solver type and every input: the plain estimator class is fitted,
    the presence of the key [cv] still sends the result through
    [extract_best_regularization_parameters], and that function knows the
    cross-validated classes only. *)
Theorem fit_linear_model_cv_false_raises
  (backend : solver_class -> gmap string pyval -> ndarray -> list Q -> exn + fitted)
  (X y : ndarray) (solver_type : string) (kwargs : gmap string pyval) :
  kwargs !! "cv"%string = Some (PyBool false) ->
  raises (fit_linear_model backend X y solver_type kwargs).
Proof.
  intros Hcv.
  destruct (fit_linear_model backend X y solver_type kwargs) as [r|e|] eqn:Hrun;
    simpl.
  - by apply fit_linear_model_cv_false_no_return in Hrun.
  - exact I.
  - by apply fit_linear_model_finishes in Hrun.
Qed.

Lemma fit_linear_model_cv_false_raises_witness :
  raises (fit_linear_model constant_fit_backend
            (design_shape [[0]; [1]] three_samples) (constant_vals 3 1%Q)
            "lstsq" {["cv"%string := PyBool false]}).
Proof.
  apply fit_linear_model_cv_false_raises. reflexivity.
Defined.

(** X9. When [fit_linear_model] returns, either the options have no key
    [cv], the solver type is one of 'lasso', 'lasso_grad', 'omp', 'lstsq'
    and both the score and the regularisation parameter are [None]; or the
    key [cv] is there with a value other than [False], a score comes back,
    and the regularisation parameter is an alpha for 'lasso' and 'lstsq' and
    a number of non-zero coefficients for 'omp'. No other solver type
    returns under cross-validation. *)
Theorem fit_linear_model_return_shapes
  (backend : solver_class -> gmap string pyval -> ndarray -> list Q -> exn + fitted)
  (X y : ndarray) (solver_type : string) (kwargs : gmap string pyval)
  (coef : list Q) (sc : option Q) (rp : option reg_param) :
  fit_linear_model backend X y solver_type kwargs = Ok (coef, sc, rp) ->
  (kwargs !! "cv"%string = None /\ sc = None /\ rp = None /\
   solver_type ∈ ["lasso"; "lasso_grad"; "omp"; "lstsq"]%string) \/
  (exists v score,
      kwargs !! "cv"%string = Some v /\ v <> PyBool false /\ sc = Some score /\
      (((solver_type = "lasso"%string \/ solver_type = "lstsq"%string) /\
        exists alpha, rp = Some (RegAlpha alpha)) \/
       (solver_type = "omp"%string /\
        exists n, rp = Some (RegNonzero n)))).
Proof.
  intros Hrun. pose proof Hrun as Hrun'.
  apply fit_linear_model_returns in Hrun
    as (classes & cls & kwargs' & f & c0 & rest & Hcls & Hlars & _ & _ & Hidx
        & _ & _ & _ & Hext).
  apply dict_get_solvers_inv in Hcls.
  destruct (kwargs !! "cv"%string) as [v|] eqn:Hcv.
  - right. destruct Hext as (s0 & r0 & _ & Hreg & -> & ->).
    exists v, s0. split; [done|].
    assert (Hv : v <> PyBool false).
    { intros ->.
      by apply (fit_linear_model_cv_false_no_return backend X y solver_type
                  kwargs (coef, Some s0, Some r0) Hcv). }
    split; [done|]. split; [done|].
    assert (Hzero : match v with PyBool false => 1%nat | _ => 0%nat end = 0%nat).
    { destruct v as [z|[|]|]; try reflexivity. contradiction. }
    rewrite Hzero in Hidx.
    destruct Hcls as [[-> ->]|[[-> ->]|[[-> ->]|[[-> ->]|[-> ->]]]]];
      injection Hidx as <-; simpl in Hreg; try discriminate.
    + left. split; [by left|]. injection Hreg as <-. by eexists.
    + right. split; [done|]. injection Hreg as <-. by eexists.
    + left. split; [by right|]. injection Hreg as <-. by eexists.
  - left. destruct Hext as [-> ->]. split; [done|]. split; [done|].
    split; [done|].
    destruct Hcls as [[-> _]|[[-> _]|[[-> _]|[[-> _]|[-> _]]]]];
      try contradiction; set_solver.
Qed.

Lemma fit_linear_model_return_shapes_witness :
  exists score alpha,
    fit_linear_model constant_fit_backend
      (design_shape [[0]; [1]] three_samples) (constant_vals 3 1%Q) "lstsq" cv3
    = Ok ([1; 0]%Q, Some score, Some (RegAlpha alpha)).
Proof.
  assert (Hrun :
    fit_linear_model constant_fit_backend
      (design_shape [[0]; [1]] three_samples) (constant_vals 3 1%Q) "lstsq" cv3
    = Ok ([1; 0]%Q, Some 0%Q, Some (RegAlpha 0))) by (vm_compute; reflexivity).
  destruct (fit_linear_model_return_shapes _ _ _ _ _ _ _ _ Hrun)
    as [(Hcv & _)|(v & score & _ & _ & Hsc & Hkind)]; [discriminate|].
  exists 0%Q, 0%Q. exact Hrun.
Defined.



(** X11. For 'omp' with an integer [max_iter], the backend is never
    consulted with a [max_iter] above the number of columns of the basis
    matrix: two backends that agree on all options whose [max_iter] is an
    integer within that bound give the same result. *)
Theorem fit_linear_model_omp_caps_max_iter
  (backend backend' :
     solver_class -> gmap string pyval -> ndarray -> list Q -> exn + fitted)
  (X y : ndarray) (kwargs : gmap string pyval) (z : Z) (ncols : nat) :
  kwargs !! "max_iter"%string = Some (PyInt z) ->
  shape X !! 1%nat = Some ncols ->
  (forall cls kwargs' X' y' m,
      kwargs' !! "max_iter"%string = Some (PyInt m) -> m <= Z.of_nat ncols ->
      backend cls kwargs' X' y' = backend' cls kwargs' X' y') ->
  fit_linear_model backend X y "omp" kwargs
  = fit_linear_model backend' X y "omp" kwargs.
Proof.
  intros Hmax Hcols Hagree. unfold fit_linear_model.
  change (dict_get solvers "omp")
    with (Some [OrthogonalMatchingPursuitCV; OrthogonalMatchingPursuit]).
  cbv iota beta. change (String.eqb "omp" "lars") with false.
  change (String.eqb "omp" "omp") with true. cbv iota.
  rewrite Hmax, Hcols.
  destruct (py_assert (ndim y =? 2)%nat) as [[]|e|]; cbn [mbind result_bind];
    try reflexivity.
  destruct (py_assert (bool_decide (shape y !! 1%nat = Some 1%nat))) as [[]|e|];
    cbn [mbind result_bind py_min_int]; try reflexivity.
  set (m := if Z.of_nat ncols <? z then PyInt (Z.of_nat ncols) else PyInt z).
  set (kwargs' := <["max_iter"%string := m]> kwargs).
  destruct ([OrthogonalMatchingPursuitCV; OrthogonalMatchingPursuit] !! _)
    as [cls|]; [|reflexivity].
  assert (Hm : exists m', kwargs' !! "max_iter"%string = Some (PyInt m') /\
                          m' <= Z.of_nat ncols).
  { unfold kwargs', m. rewrite lookup_insert_eq.
    destruct (Z.ltb_spec (Z.of_nat ncols) z); eexists; split; try reflexivity; lia. }
  destruct Hm as (m' & Hm' & Hle).
  by rewrite (Hagree cls kwargs' X (column0 y) m' Hm' Hle).
Qed.

Lemma fit_linear_model_omp_caps_max_iter_witness :
  fit_linear_model constant_fit_backend (design_shape [[0]; [1]] three_samples)
    (constant_vals 3 1%Q) "omp"
    (<["max_iter"%string := PyInt 7]> cv3)
  = fit_linear_model
      (fun cls kwargs' X' y' =>
         match kwargs' !! "max_iter"%string with
         | Some (PyInt m) =>
             if m <=? 2 then constant_fit_backend cls kwargs' X' y'
             else inl ValueError
         | _ => inl ValueError
         end)
      (design_shape [[0]; [1]] three_samples)
      (constant_vals 3 1%Q) "omp"
      (<["max_iter"%string := PyInt 7]> cv3).
Proof.
  apply (fit_linear_model_omp_caps_max_iter _ _ _ _ _ 7 2%nat).
  - reflexivity.
  - reflexivity.
  - intros cls kwargs' X' y' m Hm Hle. rewrite Hm.
    destruct (Z.leb_spec m 2); [reflexivity|]. simpl in Hle. lia.
Defined.

(** ** The degree sweep, further *)

Lemma Qltb_lt (x y : Q) : Qltb x y = true <-> (x < y)%Q.
Proof.
  unfold Qltb. rewrite negb_true_iff. split.
  - intros Hle. apply Qnot_le_lt. intros Hyx.
    apply Qle_bool_iff in Hyx. congruence.
  - intros Hlt. destruct (Qle_bool y x) eqn:Hle; [|done].
    apply Qle_bool_iff in Hle. exfalso. by apply (Qlt_not_le x y).
Qed.

Lemma Qltb_ge (x y : Q) : Qltb x y = false <-> (y <= x)%Q.
Proof.
  unfold Qltb. rewrite negb_false_iff. apply Qle_bool_iff.
Qed.

Section SweepMore.
Variable backend :
  solver_class -> gmap string pyval -> ndarray -> list Q -> exn + fitted.
Variable num_vars : nat.
Variable basis_matrix : list multi_index -> ndarray -> ndarray.
Variable compute_hyperbolic_indices : nat -> Z -> Q -> list multi_index.
Variables (train_samples train_vals : ndarray).
Variables (hcross_strength : Q) (linear_solver_options : gmap string pyval).
Variable solver_type : string.

Let sweep_round :=
  sweep_body backend num_vars basis_matrix compute_hyperbolic_indices
             train_samples train_vals hcross_strength linear_solver_options
             solver_type.
Let sweep_rounds :=
  sweep_loop backend num_vars basis_matrix compute_hyperbolic_indices
             train_samples train_vals hcross_strength linear_solver_options
             solver_type.

Lemma sweep_body_fit_at s degree r :
  sweep_round s degree = Ok r ->
  match r with
  | Break s' =>
      sw_best_coef s' = sw_best_coef s /\
      sw_best_cv_score s' = sw_best_cv_score s /\
      sw_best_degree s' = sw_best_degree s /\
      sw_best_reg_param s' = sw_best_reg_param s
  | Continue s' =>
      exists coef cv reg,
        fit_at backend num_vars basis_matrix compute_hyperbolic_indices
               train_samples train_vals hcross_strength linear_solver_options
               solver_type degree = Ok (coef, Some cv, reg) /\
        ((cv < sw_best_cv_score s)%Q /\
         sw_best_coef s' = Some coef /\ sw_best_cv_score s' = cv /\
         sw_best_degree s' = degree /\ sw_best_reg_param s' = Some reg
         \/
         (sw_best_cv_score s <= cv)%Q /\
         sw_best_coef s' = sw_best_coef s /\
         sw_best_cv_score s' = sw_best_cv_score s /\
         sw_best_degree s' = sw_best_degree s /\
         sw_best_reg_param s' = sw_best_reg_param s)
  end.
Proof.
  unfold sweep_round, sweep_body, fit_at.
  destruct (cap_trips _ _); [by intros [= <-]|].
  destruct (fit_linear_model _ _ _ _ _) as [[[coef [cv|]] reg]|e|];
    cbn [mbind result_bind py_ge py_lt]; try discriminate.
  destruct (Qle_bool (sw_best_cv_score s) cv && (1 <? degree - sw_best_degree s));
    [by intros [= <-]|].
  destruct (Qltb cv (sw_best_cv_score s)) eqn:Hlt; intros [= <-];
    exists coef, cv, reg; (split; [reflexivity|]).
  - left. apply Qltb_lt in Hlt. done.
  - right. apply Qltb_ge in Hlt. done.
Qed.

Lemma sweep_loop_inv lo n : forall degree s s',
  sweep_rounds n degree s = Ok s' ->
  sweep_inv backend num_vars basis_matrix compute_hyperbolic_indices
            train_samples train_vals hcross_strength linear_solver_options
            solver_type lo degree s ->
  exists cur, degree <= cur <= degree + Z.of_nat n /\
    sweep_inv backend num_vars basis_matrix compute_hyperbolic_indices
              train_samples train_vals hcross_strength linear_solver_options
              solver_type lo cur s'.
Proof.
  induction n as [|n IH]; intros degree s s'.
  { intros [= <-] Hinv. exists degree. split; [lia|done]. }
  unfold sweep_rounds. cbn [sweep_loop]. fold (sweep_round s degree).
  destruct (sweep_round s degree) as [r|e|] eqn:Hbody; cbn [mbind result_bind];
    try discriminate.
  apply sweep_body_fit_at in Hbody.
  destruct r as [s1|s1].
  - intros Hrun (Hle & Hfitted & Hbest).
    destruct Hbody as (coef & cv & reg & Hfit & Hcase).
    destruct (IH (degree + 1) s1 s' Hrun) as (cur & Hcur & Hinv'); [|].
    2: { exists cur. split; [lia|done]. }
    destruct Hcase as [(Hlt & Hc & Hs & Hd & Hr)|(Hge & Hc & Hs & Hd & Hr)].
    + split; [lia|]. split.
      * intros d Hd'. rewrite Hs, Hd.
        destruct (Z.eq_dec d degree) as [->|Hne].
        -- exists coef, cv, reg. split; [done|]. split; [apply Qle_refl|]. lia.
        -- destruct (Hfitted d ltac:(lia)) as (c' & cv' & r' & Hf' & Hb' & _).
           exists c', cv', r'. split; [done|].
           assert (cv < cv')%Q by (eapply Qlt_le_trans; eauto).
           split; [by apply Qlt_le_weak|done].
      * right. exists coef, reg. rewrite Hc, Hs, Hd, Hr.
        split; [done|]. split; [done|]. split; [lia|]. split; [done|].
        destruct Hbest as [(_ & _ & Hmax & _)|(c0 & r0 & _ & _ & _ & _ & Hmax)].
        -- by rewrite <- Hmax.
        -- eapply Qlt_trans; eauto.
    + split; [lia|]. split.
      * intros d Hd'. rewrite Hs, Hd.
        destruct (Z.eq_dec d degree) as [->|Hne].
        -- exists coef, cv, reg. split; [done|]. split; [done|].
           intros Hbd.
           destruct Hbest as [(_ & _ & _ & Hlo)|(c0 & r0 & _ & _ & Hrange & _)];
             lia.
        -- apply Hfitted. lia.
      * rewrite Hc, Hs, Hd, Hr.
        destruct Hbest as [Hnone|(c0 & r0 & ? & ? & ? & ? & ?)]; [by left|].
        right. exists c0, r0. repeat split; try done; lia.
  - intros [= <-] (Hle & Hfitted & Hbest).
    destruct Hbody as (Hc & Hs & Hd & Hr).
    exists degree. split; [lia|]. split; [done|].
    rewrite Hc, Hs, Hd, Hr. split; [|done].
    intros d Hd'. by apply Hfitted.
Qed.

End SweepMore.

(** X12. When the degree sweep returns, the degree it reports lies in the
    range that was swept, the basis is the hyperbolic cross of that degree,
    and coefficients, score and regularisation parameter are exactly what
    the fit at that degree gave; the score is below the initial one, and
    every smaller degree of the range was fitted with a strictly larger
    score. *)
Theorem cross_validate_pce_degree_returns_best_fit
  (backend : solver_class -> gmap string pyval -> ndarray -> list Q -> exn + fitted)
  (num_vars : nat) (basis_matrix : list multi_index -> ndarray -> ndarray)
  (compute_hyperbolic_indices : nat -> Z -> Q -> list multi_index)
  (train_samples train_vals : ndarray) (hcross_strength : Q)
  (linear_solver_options : gmap string pyval) (solver_type : string)
  (set_coefficients_None : exn + unit)
  (pce0 : PCE) (min_degree max_degree : option Z)
  (pce : PCE) (score : Q) (degree : Z) (reg : option reg_param) :
  let fit :=
    fit_at backend num_vars basis_matrix compute_hyperbolic_indices
           train_samples train_vals hcross_strength linear_solver_options
           solver_type in
  let lo := default 2 min_degree in
  let hi := default (2 ^ 63 - 2) max_degree in
  _cross_validate_pce_degree backend num_vars basis_matrix
    compute_hyperbolic_indices train_samples train_vals hcross_strength
    linear_solver_options solver_type set_coefficients_None
    pce0 min_degree max_degree
  = Ok (pce, score, degree, reg) ->
  lo <= degree <= hi /\
  indices pce = compute_hyperbolic_indices num_vars degree hcross_strength /\
  fit degree = Ok (coefficients pce, Some score, reg) /\
  (score < double_max)%Q /\
  forall d, lo <= d < degree ->
    exists coef' cv' reg',
      fit d = Ok (coef', Some cv', reg') /\ (score < cv')%Q.
Proof.
  intros fit lo hi. unfold _cross_validate_pce_degree.
  destruct (shape_at train_vals 1) as [ncols|e|]; cbn [mbind result_bind];
    try discriminate.
  destruct (py_assert _) as [[]|e|]; cbn [mbind result_bind]; try discriminate.
  destruct (shape_at train_samples 1) as [num_samples|e|];
    cbn [mbind result_bind]; try discriminate.
  change (2 ^ 63 - 1 - 1) with (2 ^ 63 - 2). fold lo. fold hi.
  destruct (sweep_loop _ _ _ _ _ _ _ _ _ _ _ _) as [s|e|] eqn:Hloop;
    cbn [mbind result_bind]; try discriminate.
  apply (sweep_loop_inv _ _ _ _ _ _ _ _ _ lo) in Hloop
    as (cur & Hcur & Hle & Hfitted & Hbest).
  2: { split; [lia|]. split; [intros d Hd; lia|]. left. done. }
  destruct Hbest as [(Hc & _)|(coef & r0 & Hc & Hr & Hrange & Hfit & Hmax)].
  { rewrite Hc. by destruct set_coefficients_None. }
  rewrite Hc, Hr. intros [= <- <- <- <-]. simpl.
  split; [lia|]. split; [done|]. split; [exact Hfit|]. split; [done|].
  intros d Hd. destruct (Hfitted d ltac:(lia)) as (c' & cv' & r' & Hf' & _ & Hlt).
  exists c', cv', r'. split; [done|]. apply Hlt. lia.
Qed.

Lemma cross_validate_pce_degree_returns_best_fit_witness :
  _cross_validate_pce_degree constant_fit_backend 1%nat design_shape
    hyperbolic_p1 three_samples (constant_vals 3 1%Q) 1%Q cv3 "lstsq"
    (inr tt) empty_pce (Some 1) (Some 3)
  = Ok ({| indices := [[0]; [1]]; coefficients := [1; 0]%Q |}, 0%Q, 1,
        Some (RegAlpha 0)) /\
  1 <= 1 <= 3 /\
  fit_at constant_fit_backend 1%nat design_shape hyperbolic_p1 three_samples
         (constant_vals 3 1%Q) 1%Q cv3 "lstsq" 1
  = Ok ([1; 0]%Q, Some 0%Q, Some (RegAlpha 0)).
Proof.
  assert (Hrun :
    _cross_validate_pce_degree constant_fit_backend 1%nat design_shape
      hyperbolic_p1 three_samples (constant_vals 3 1%Q) 1%Q cv3 "lstsq"
      (inr tt) empty_pce (Some 1) (Some 3)
    = Ok ({| indices := [[0]; [1]]; coefficients := [1; 0]%Q |}, 0%Q, 1,
          Some (RegAlpha 0))) by (vm_compute; reflexivity).
  split; [exact Hrun|].
  destruct (cross_validate_pce_degree_returns_best_fit _ _ _ _ _ _ _ _ _ _ _ _
              _ _ _ _ _ Hrun) as (Hrange & _ & Hfit & _).
  split; [exact Hrange|exact Hfit].
Defined.

Lemma fit_linear_model_no_cv
  (backend : solver_class -> gmap string pyval -> ndarray -> list Q -> exn + fitted)
  (X y : ndarray) (solver_type : string) (kwargs : gmap string pyval)
  (coef : list Q) (sc : option Q) (rp : option reg_param) :
  kwargs !! "cv"%string = None ->
  fit_linear_model backend X y solver_type kwargs = Ok (coef, sc, rp) ->
  sc = None.
Proof.
  intros Hcv Hrun.
  apply fit_linear_model_returns in Hrun
    as (classes & cls & kwargs' & f & c0 & rest & _ & _ & _ & _ & _ & _ & _ & _
        & Hext).
  rewrite Hcv in Hext. by destruct Hext.
Qed.

Section NoCrossValidation.
Context {K : Type} `{Countable K}.
Variable hash_array : multi_index -> K.
Variable backend :
  solver_class -> gmap string pyval -> ndarray -> list Q -> exn + fitted.
Variable num_vars : nat.
Variable basis_matrix : list multi_index -> ndarray -> ndarray.
Variable compute_hyperbolic_indices : nat -> Z -> Q -> list multi_index.
Variables (train_samples train_vals : ndarray).
Variables (hcross_strength : Q) (linear_solver_options : gmap string pyval).
Variable solver_type : string.
Variable set_coefficients_None : exn + unit.
Hypothesis no_cv : linear_solver_options !! "cv"%string = None.

Lemma sweep_loop_no_cv n : forall degree s,
  sw_best_coef s = None ->
  match sweep_loop backend num_vars basis_matrix compute_hyperbolic_indices
          train_samples train_vals hcross_strength linear_solver_options
          solver_type n degree s with
  | Ok s' => sw_best_coef s' = None
  | Raise _ => True
  | Unfinished => False
  end.
Proof.
  induction n as [|n IH]; intros degree s Hs; cbn [sweep_loop]; [exact Hs|].
  unfold sweep_body. destruct (cap_trips _ _); cbn [mbind result_bind].
  { exact Hs. }
  destruct (fit_linear_model _ _ _ _ _) as [[[coef sc] reg]|e|] eqn:Hfit;
    cbn [mbind result_bind].
  - apply fit_linear_model_no_cv in Hfit as ->; [|exact no_cv]. exact I.
  - exact I.
  - by apply fit_linear_model_finishes in Hfit.
Qed.

Lemma cross_validate_pce_degree_no_cv pce min_degree max_degree :
  raises (_cross_validate_pce_degree backend num_vars basis_matrix
            compute_hyperbolic_indices train_samples train_vals
            hcross_strength linear_solver_options solver_type
            set_coefficients_None pce min_degree max_degree).
Proof.
  unfold _cross_validate_pce_degree.
  destruct (shape_at train_vals 1) as [ncols|e|] eqn:Hcols;
    cbn [mbind result_bind];
    [|exact I|by apply shape_at_finishes in Hcols].
  destruct (py_assert _) as [[]|e|] eqn:Ha; cbn [mbind result_bind];
    [|exact I|by apply py_assert_finishes in Ha].
  destruct (shape_at train_samples 1) as [num_samples|e|] eqn:Hrows;
    cbn [mbind result_bind];
    [|exact I|by apply shape_at_finishes in Hrows].
  match goal with
  | |- context [sweep_loop _ _ _ _ _ _ _ _ _ ?n ?d ?s] =>
      pose proof (sweep_loop_no_cv n d s eq_refl) as Hloop;
      destruct (sweep_loop backend num_vars basis_matrix
                  compute_hyperbolic_indices train_samples train_vals
                  hcross_strength linear_solver_options solver_type n d s)
        as [s'|e'|]
  end; cbn [mbind result_bind].
  - rewrite Hloop. by destruct set_coefficients_None.
  - exact I.
  - contradiction.
Qed.

Lemma inner_body_no_cv restriction_tol max_num_terms steps b st r :
  inner_body hash_array backend num_vars basis_matrix train_samples train_vals
             linear_solver_options solver_type restriction_tol max_num_terms
             steps b st <> Ok r.
Proof.
  unfold inner_body. destruct st as [[pce nterms] ib].
  destruct (expand_block _ _ _ _ _ _ _) as [[[pce1 nterms1] k]|e|];
    cbn [mbind result_bind]; try discriminate.
  destruct (fit_linear_model _ _ _ _ _) as [[[coef sc] reg]|e|] eqn:Hfit;
    cbn [mbind result_bind]; try discriminate.
  apply fit_linear_model_no_cv in Hfit as ->; [|exact no_cv].
  discriminate.
Qed.

Lemma outer_loop_no_cv restriction_tol max_num_terms fuel it best_it b st r :
  outer_loop hash_array backend num_vars basis_matrix train_samples train_vals
             linear_solver_options solver_type restriction_tol max_num_terms
             fuel it best_it b st <> Ok r.
Proof.
  destruct fuel as [|fuel]; [discriminate|]. cbn [outer_loop].
  destruct st as [[pce nterms] ib]. cbn [inner_loop].
  destruct (inner_body _ _ _ _ _ _ _ _ _ _ _ _ _) as [r0|e|] eqn:Hbody;
    cbn [mbind result_bind]; try discriminate.
  by apply inner_body_no_cv in Hbody.
Qed.

Lemma expanding_basis_pce_no_cv restriction_tol fuel pce max_num_terms r :
  _expanding_basis_pce hash_array backend num_vars basis_matrix
    compute_hyperbolic_indices train_samples train_vals hcross_strength
    linear_solver_options solver_type restriction_tol fuel pce max_num_terms
  <> Ok r.
Proof.
  unfold _expanding_basis_pce.
  destruct (shape_at train_vals 1) as [ncols|e|]; cbn [mbind result_bind];
    try discriminate.
  destruct (py_assert _) as [[]|e|]; cbn [mbind result_bind]; try discriminate.
  destruct (seed_degree _ _ _ _ _) as [[degree nterms]|e|];
    cbn [mbind result_bind]; try discriminate.
  destruct (fit_linear_model _ _ _ _ _) as [[[coef sc] reg]|e|];
    cbn [mbind result_bind]; try discriminate.
  destruct (outer_loop _ _ _ _ _ _ _ _ _ _ _ _ _ _ _) as [b|e|] eqn:Houter;
    cbn [mbind result_bind]; try discriminate.
  by apply outer_loop_no_cv in Houter.
Qed.

End NoCrossValidation.

(** X13. Options without the key [cv] make both searches fail: the fit then
    reports no score, and the first comparison of scores raises. The degree
    sweep always raises, and the expand-and-restrict search never returns. *)
Theorem searches_need_cv
  {K : Type} `{Countable K} (hash_array : multi_index -> K)
  (backend : solver_class -> gmap string pyval -> ndarray -> list Q -> exn + fitted)
  (num_vars : nat) (basis_matrix : list multi_index -> ndarray -> ndarray)
  (compute_hyperbolic_indices : nat -> Z -> Q -> list multi_index)
  (train_samples train_vals : ndarray) (hcross_strength : Q)
  (linear_solver_options : gmap string pyval) (solver_type : string) :
  linear_solver_options !! "cv"%string = None ->
  (forall set_coefficients_None pce min_degree max_degree,
      raises (_cross_validate_pce_degree backend num_vars basis_matrix
                compute_hyperbolic_indices train_samples train_vals
                hcross_strength linear_solver_options solver_type
                set_coefficients_None pce min_degree max_degree)) /\
  (forall restriction_tol fuel pce max_num_terms r,
      _expanding_basis_pce hash_array backend num_vars basis_matrix
        compute_hyperbolic_indices train_samples train_vals hcross_strength
        linear_solver_options solver_type restriction_tol fuel pce max_num_terms
      <> Ok r).
Proof.
  intros Hcv. split.
  - intros. by apply cross_validate_pce_degree_no_cv.
  - intros. by apply expanding_basis_pce_no_cv.
Qed.

Lemma searches_need_cv_witness :
  raises (_cross_validate_pce_degree constant_fit_backend 1%nat design_shape
            hyperbolic_p1 three_samples (constant_vals 3 1%Q) 1%Q ∅ "lstsq"
            (inr tt) empty_pce (Some 1) (Some 3)).
Proof.
  refine (proj1 (searches_need_cv id constant_fit_backend 1%nat design_shape
                   hyperbolic_p1 three_samples (constant_vals 3 1%Q) 1%Q ∅
                   "lstsq" _) (inr tt) empty_pce (Some 1) (Some 3)).
  reflexivity.
Defined.

(** X14. An empty range of degrees always makes the degree sweep raise.
    When the targets have a single column and the samples a second axis, no
    degree is tried and [None] goes to [pce.set_coefficients]: the sweep
    raises what that call raises, and [UnboundLocalError] if the call
    returns, since the closing [return] then reads a name that no round has
    bound. *)
Theorem cross_validate_pce_degree_empty_range
  (backend : solver_class -> gmap string pyval -> ndarray -> list Q -> exn + fitted)
  (num_vars : nat) (basis_matrix : list multi_index -> ndarray -> ndarray)
  (compute_hyperbolic_indices : nat -> Z -> Q -> list multi_index)
  (train_samples train_vals : ndarray) (hcross_strength : Q)
  (linear_solver_options : gmap string pyval) (solver_type : string)
  (set_coefficients_None : exn + unit)
  (pce : PCE) (min_degree max_degree : option Z) :
  let run :=
    _cross_validate_pce_degree backend num_vars basis_matrix
      compute_hyperbolic_indices train_samples train_vals hcross_strength
      linear_solver_options solver_type set_coefficients_None
      pce min_degree max_degree in
  default (2 ^ 63 - 2) max_degree < default 2 min_degree ->
  raises run /\
  (shape train_vals !! 1%nat = Some 1%nat ->
   is_Some (shape train_samples !! 1%nat) ->
   run = match set_coefficients_None with
         | inl e => Raise e
         | inr _ => Raise UnboundLocalError
         end).
Proof.
  intros run Hempty.
  assert (Hrun : run =
    ncols ← shape_at train_vals 1;
    _ ← py_assert (ncols =? 1)%nat;
    num_samples ← shape_at train_samples 1;
    _ ← call set_coefficients_None;
    Raise UnboundLocalError).
  { unfold run, _cross_validate_pce_degree.
    change (2 ^ 63 - 1 - 1) with (2 ^ 63 - 2).
    replace (Z.to_nat (default (2 ^ 63 - 2) max_degree + 1
                       - default 2 min_degree)) with 0%nat by lia.
    reflexivity. }
  rewrite Hrun. unfold shape_at. split.
  - destruct (shape train_vals !! 1%nat) as [ncols|];
      cbn [mbind result_bind]; [|exact I].
    destruct (ncols =? 1)%nat; cbn [py_assert mbind result_bind]; [|exact I].
    destruct (shape train_samples !! 1%nat); cbn [mbind result_bind];
      [|exact I].
    by destruct set_coefficients_None.
  - intros -> [num_samples ->]. cbn [Nat.eqb py_assert mbind result_bind].
    by destruct set_coefficients_None.
Qed.

(** A range from 4 to 3. A [set_coefficients] that returns on [None] leaves
    the unbound name to the [return]; a one-dimensional array of samples
    stops the sweep at its second line. *)
Lemma cross_validate_pce_degree_empty_range_witness :
  _cross_validate_pce_degree constant_fit_backend 1%nat design_shape
    hyperbolic_p1 three_samples (constant_vals 3 1%Q) 1%Q cv3 "lstsq"
    (inr tt) empty_pce (Some 4) (Some 3)
  = Raise UnboundLocalError /\
  _cross_validate_pce_degree constant_fit_backend 1%nat design_shape
    hyperbolic_p1 {| shape := [3%nat]; rows := [] |} (constant_vals 3 1%Q)
    1%Q cv3 "lstsq" (inr tt) empty_pce (Some 4) (Some 3)
  = Raise IndexError.
Proof.
  split; [|vm_compute; reflexivity].
  refine (proj2 (cross_validate_pce_degree_empty_range constant_fit_backend
                   1%nat design_shape hyperbolic_p1 three_samples
                   (constant_vals 3 1%Q) 1%Q cv3 "lstsq" (inr tt) empty_pce
                   (Some 4) (Some 3) _) _ _).
  - simpl. lia.
  - reflexivity.
  - by eexists.
Defined.

(** ** The expand-and-restrict search, further *)

Lemma score_le_refl (a : option Q) : score_le a a.
Proof. destruct a; simpl; [apply Qle_refl|exact I]. Qed.

Lemma py_lt_score_le (a b c : option Q) :
  py_lt a b = Ok true -> score_le b c -> score_le a c.
Proof.
  destruct a as [x|], b as [y|]; simpl; try discriminate.
  intros [= Hlt]. apply Qltb_lt in Hlt.
  destruct c as [z|]; simpl; [|done].
  intros Hyz. apply Qlt_le_weak. eapply Qlt_le_trans; eassumption.
Qed.

Lemma filter_zip_diag {A} (p : A -> bool) (l : list A) :
  fst <$> List.filter (fun xy : A * A => p xy.2) (zip l l) = List.filter p l.
Proof.
  induction l as [|x l IH]; [done|].
  cbn [zip zip_with List.filter snd]. destruct (p x).
  - rewrite fmap_cons. cbn [fst]. f_equal. exact IH.
  - exact IH.
Qed.

Lemma filter_zip_sublist {A B} (p : B -> bool) (l : list A) :
  forall c : list B,
    (fst <$> List.filter (fun xy : A * B => p xy.2) (zip l c)) `sublist_of` l.
Proof.
  induction l as [|x l IH]; intros [|y c];
    cbn [zip zip_with List.filter snd]; try apply sublist_nil_l.
  destruct (p y).
  - rewrite fmap_cons. cbn [fst]. apply sublist_skip, IH.
  - apply sublist_cons, IH.
Qed.

(** The closing filter, spelled out. *)
Lemma finalize_returns (b : best) (pce : PCE) :
  finalize b = Ok pce ->
  indices pce =
    fst <$> List.filter (fun ic => Qnonzero ic.2)
                        (zip (best_indices b) (best_coef b)) /\
  coefficients pce = List.filter Qnonzero (best_coef b).
Proof.
  unfold finalize, np_where.
  destruct (take_columns (best_indices b) _) as [fi|e|] eqn:Hi;
    cbn [mbind result_bind]; try discriminate.
  destruct (take_columns (best_coef b) _) as [fc|e|] eqn:Hc;
    cbn [mbind result_bind]; try discriminate.
  intros [= <-]. cbn [indices coefficients].
  apply take_columns_np_where in Hi. apply take_columns_np_where in Hc.
  rewrite drop_0 in Hi. rewrite drop_0 in Hc.
  split; [exact Hi|]. rewrite Hc. apply filter_zip_diag.
Qed.

Section GrownFacts.
Context {K : Type} `{Countable K}.
Variable hash_array : multi_index -> K.
Variable num_vars : nat.

Lemma grown_prefix (seed S : list multi_index) :
  grown hash_array num_vars seed S -> seed `prefix_of` S.
Proof.
  induction 1 as [|S HS IH Hne]; [done|].
  by apply prefix_app_r.
Qed.

Lemma grown_NoDup (seed S : list multi_index) :
  NoDup seed -> grown hash_array num_vars seed S -> NoDup S.
Proof.
  intros Hseed. induction 1 as [|S HS IH Hne]; [exact Hseed|].
  destruct (expand_basis_inv hash_array num_vars S) as (_ & _ & Hnd & Hfresh).
  apply NoDup_app. split; [exact IH|]. split; [|exact Hnd].
  intros i Hi Hnew. exact (Hfresh i Hnew Hi).
Qed.

Lemma grown_nonneg (seed S : list multi_index) :
  nonneg_indices seed -> grown hash_array num_vars seed S -> nonneg_indices S.
Proof.
  intros Hseed. induction 1 as [|S HS IH Hne]; [exact Hseed|].
  apply Forall_app. split; [exact IH|]. by apply expand_basis_nonneg.
Qed.

Lemma expand_loop_grown (seed : list multi_index) (n : nat) :
  forall pce nterms pce' nterms',
    expand_loop hash_array num_vars n pce nterms = Ok (pce', nterms') ->
    grown hash_array num_vars seed (indices pce) ->
    grown hash_array num_vars seed (indices pce') /\
    coefficients pce' = coefficients pce.
Proof.
  induction n as [|n IH]; intros pce nterms pce' nterms'; cbn [expand_loop].
  - by intros [= <- _].
  - destruct (expand_basis hash_array num_vars (indices pce)) as [|x new]
      eqn:Hnew; [discriminate|].
    intros Hrun Hpce. apply IH in Hrun as [Hg Hc]; [by split|].
    cbn [indices set_indices]. rewrite <- Hnew.
    apply grown_step; [exact Hpce|]. by rewrite Hnew.
Qed.

End GrownFacts.

Section SearchFacts.
Context {K : Type} `{Countable K}.
Variable hash_array : multi_index -> K.
Variable backend :
  solver_class -> gmap string pyval -> ndarray -> list Q -> exn + fitted.
Variable num_vars : nat.
Variable basis_matrix : list multi_index -> ndarray -> ndarray.
Variable compute_hyperbolic_indices : nat -> Z -> Q -> list multi_index.
Variables (train_samples train_vals : ndarray).
Variables (hcross_strength : Q) (linear_solver_options : gmap string pyval).
Variable solver_type : string.
Variable restriction_tol : Q.
Variable seed : list multi_index.
Variable seed_score : option Q.

Let inv := search_inv hash_array backend num_vars basis_matrix train_samples
                      train_vals linear_solver_options solver_type
                      seed seed_score.

Lemma inner_body_inv max_num_terms steps b pce nterms ib r :
  inner_body hash_array backend num_vars basis_matrix train_samples train_vals
             linear_solver_options solver_type restriction_tol max_num_terms
             steps b (pce, nterms, ib) = Ok r ->
  inv b pce ib ->
  let '(pce', _, ib') :=
    match r with Continue st => st | Break st => st end in
  inv b pce' ib'.
Proof.
  unfold inner_body, expand_block. intros Hrun (Hg & Hb & Hs & Hi).
  destruct (restrict_basis _ _ _) as [restricted|e|];
    cbn [mbind result_bind] in Hrun; try discriminate.
  destruct (expand_loop _ _ _ _ _) as [[pce1 nterms1]|e|] eqn:Hexp;
    cbn [mbind result_bind] in Hrun; try discriminate.
  apply (expand_loop_grown hash_array num_vars seed) in Hexp as [Hg1 _];
    [|exact Hg].
  destruct (fit_linear_model _ _ _ _ _) as [[[coef cv_score] reg_param]|e|]
    eqn:Hfit; cbn [mbind result_bind] in Hrun; try discriminate.
  destruct (py_lt cv_score (best_cv_score_iter ib)) as [improved|e|] eqn:Hlt;
    cbn [mbind result_bind] in Hrun; try discriminate.
  assert (Hpost : inv b (set_coefficients pce1 coef)
            (if improved
             then {| best_cv_score_iter := cv_score;
                     best_iter := Some (indices pce1, coef, reg_param);
                     best_num_expansion_steps_iter :=
                       Nat.min steps (best_num_expansion_steps b) |}
             else ib)).
  { split; [exact Hg1|]. split; [exact Hb|].
    destruct improved; [|by split].
    assert (Hle : score_le cv_score seed_score)
      by (eapply py_lt_score_le; eassumption).
    split; [exact Hle|]. cbn [best_iter best_cv_score_iter].
    split; [exact Hg1|]. split; [exact Hfit|exact Hle]. }
  revert Hrun.
  destruct (max_num_terms <=? nterms1);
    [|destruct steps as [|[|[|steps']]]]; intros [= <-]; exact Hpost.
Qed.

Lemma inner_loop_inv max_num_terms fuel :
  forall steps b pce nterms ib pce' nterms' ib',
  inner_loop hash_array backend num_vars basis_matrix train_samples train_vals
             linear_solver_options solver_type restriction_tol max_num_terms
             fuel steps b (pce, nterms, ib) = Ok (pce', nterms', ib') ->
  inv b pce ib -> inv b pce' ib'.
Proof.
  induction fuel as [|fuel IH]; intros steps b pce nterms ib pce' nterms' ib';
    cbn [inner_loop]; [discriminate|].
  destruct (inner_body hash_array backend num_vars basis_matrix train_samples
              train_vals linear_solver_options solver_type restriction_tol
              max_num_terms steps b (pce, nterms, ib)) as [r|e|] eqn:Hbody;
    cbn [mbind result_bind]; try discriminate.
  intros Hrun Hinv.
  pose proof (inner_body_inv _ _ _ _ _ _ _ Hbody Hinv) as Hpost.
  destruct r as [[[pce1 nterms1] ib1]|[[pce1 nterms1] ib1]].
  - eapply IH; [exact Hrun|exact Hpost].
  - injection Hrun as <- <- <-. exact Hpost.
Qed.

(** The basis that the outer loop returns is grown from the seed, comes
    with the outcome of the fit on it, and scores no worse than the seed. *)
Lemma outer_loop_inv max_num_terms fuel :
  forall it best_it b pce nterms ib b',
  outer_loop hash_array backend num_vars basis_matrix train_samples train_vals
             linear_solver_options solver_type restriction_tol max_num_terms
             fuel it best_it b (pce, nterms, ib) = Ok b' ->
  inv b pce ib ->
  fit_of hash_array backend num_vars basis_matrix train_samples train_vals
         linear_solver_options solver_type seed seed_score
         (best_indices b', best_coef b', best_cv_score b', best_reg_param b') /\
  is_Some (best_cv_score b').
Proof.
  induction fuel as [|fuel IH]; intros it best_it b pce nterms ib b';
    [discriminate|].
  cbn [outer_loop].
  destruct (inner_loop _ _ _ _ _ _ _ _ _ _ _ _ _ _)
    as [[[pce1 nterms1] ib1]|e|] eqn:Hinner;
    cbn [mbind result_bind]; try discriminate.
  intros Hrun Hinv.
  apply inner_loop_inv in Hinner.
  2:{ destruct Hinv as (Hg & Hb & Hs & Hi).
      split; [exact Hg|]. split; [exact Hb|]. split; [exact Hs|exact Hi]. }
  destruct Hinner as (Hg1 & Hb1 & Hs1 & Hi1).
  destruct (py_lt (best_cv_score_iter ib1) (best_cv_score b)) as [improved|e|]
    eqn:Hlt; cbn [mbind result_bind] in Hrun; try discriminate.
  destruct improved.
  - destruct (best_iter ib1) as [[[bi bc] br]|] eqn:Hbi; [|discriminate].
    eapply IH; [exact Hrun|].
    split; [exact Hg1|]. split; [exact Hi1|]. split; [exact Hs1|].
    by rewrite Hbi.
  - destruct (2 <=? it - best_it).
    + injection Hrun as <-. split; [exact Hb1|].
      destruct (best_cv_score_iter ib1); [|discriminate].
      destruct (best_cv_score b); [|discriminate].
      by eexists.
    + eapply IH; [exact Hrun|].
      split; [exact Hg1|]. split; [exact Hb1|]. split; [exact Hs1|exact Hi1].
Qed.

End SearchFacts.

(** Anatomy of a returning run of the expand-and-restrict search. *)
Lemma expanding_basis_pce_returns
  {K : Type} `{Countable K} (hash_array : multi_index -> K)
  (backend : solver_class -> gmap string pyval -> ndarray -> list Q -> exn + fitted)
  (num_vars : nat) (basis_matrix : list multi_index -> ndarray -> ndarray)
  (compute_hyperbolic_indices : nat -> Z -> Q -> list multi_index)
  (train_samples train_vals : ndarray) (hcross_strength : Q)
  (linear_solver_options : gmap string pyval) (solver_type : string)
  (restriction_tol : Q) (fuel : nat) (pce0 : PCE) (max_num_terms : option Z)
  (pce : PCE) (score : option Q) (reg : option reg_param) :
  _expanding_basis_pce hash_array backend num_vars basis_matrix
    compute_hyperbolic_indices train_samples train_vals hcross_strength
    linear_solver_options solver_type restriction_tol fuel pce0 max_num_terms
  = Ok (pce, score, reg) ->
  exists degree nterms coef0 score0 reg0 b,
    seed_degree num_vars compute_hyperbolic_indices hcross_strength
      (default (10 * Z.of_nat (default 0%nat (shape train_vals !! 1%nat)))
               max_num_terms) fuel = Ok (degree, nterms) /\
    fit_linear_model backend
      (basis_matrix (compute_hyperbolic_indices num_vars degree hcross_strength)
                    train_samples)
      train_vals solver_type linear_solver_options
      = Ok (coef0, score0, reg0) /\
    fit_of hash_array backend num_vars basis_matrix train_samples train_vals
           linear_solver_options solver_type
           (compute_hyperbolic_indices num_vars degree hcross_strength) score0
           (best_indices b, best_coef b, score, reg) /\
    is_Some score /\
    finalize b = Ok pce.
Proof.
  unfold _expanding_basis_pce.
  destruct (shape_at train_vals 1) as [ncols|e|]; cbn [mbind result_bind];
    try discriminate.
  destruct (py_assert _) as [[]|e|]; cbn [mbind result_bind]; try discriminate.
  destruct (seed_degree _ _ _ _ _) as [[degree nterms]|e|] eqn:Hseed;
    cbn [mbind result_bind]; try discriminate.
  destruct (fit_linear_model _ _ _ _ _) as [[[coef cv_score] reg_param]|e|]
    eqn:Hfit; cbn [mbind result_bind]; try discriminate.
  destruct (outer_loop _ _ _ _ _ _ _ _ _ _ _ _ _ _ _) as [b|e|] eqn:Houter;
    cbn [mbind result_bind]; try discriminate.
  destruct (finalize b) as [pce'|e|] eqn:Hfin;
    cbn [mbind result_bind]; try discriminate.
  intros [= <- <- <-].
  exists degree, nterms, coef, cv_score, reg_param, b.
  split; [reflexivity|]. split; [exact Hfit|].
  eapply (outer_loop_inv hash_array backend num_vars basis_matrix train_samples
            train_vals linear_solver_options solver_type restriction_tol
            (compute_hyperbolic_indices num_vars degree hcross_strength)
            cv_score) in Houter as [Hb Hsome].
  - split; [exact Hb|]. split; [exact Hsome|exact Hfin].
  - cbn [set_indices set_coefficients indices].
    split; [apply grown_seed|]. split.
    + cbn [best_indices best_coef best_cv_score best_reg_param].
      split; [apply grown_seed|]. split; [exact Hfit|apply score_le_refl].
    + split; [apply score_le_refl|exact I].
Qed.

Lemma take_columns_length {A} (cols : list A) (I : list nat) :
  forall r, take_columns cols I = Ok r -> length r = length I.
Proof.
  induction I as [|j I IH]; intros r; cbn [take_columns].
  - by intros [= <-].
  - destruct (cols !! j) as [c|]; [|discriminate].
    destruct (take_columns cols I) as [rest|e|]; cbn [mbind result_bind];
      try discriminate.
    intros [= <-]. cbn [length]. f_equal. by apply IH.
Qed.

Lemma flat_map_NoDup {A B} (f : A -> list B) (l : list A) :
  (forall x1 x2 y, x1 ∈ l -> x2 ∈ l -> y ∈ f x1 -> y ∈ f x2 -> x1 = x2) ->
  (forall x, x ∈ l -> NoDup (f x)) -> NoDup l -> NoDup (flat_map f l).
Proof.
  induction l as [|x l IH]; intros Hinj Hf Hl; cbn [flat_map];
    [apply NoDup_nil_2|].
  apply NoDup_cons in Hl as [Hx Hl].
  apply NoDup_app. split; [apply Hf; left|]. split.
  - intros y Hy Hy'. apply list_elem_of_In, in_flat_map in Hy' as (x' & Hx' & Hy').
    apply list_elem_of_In in Hx', Hy'.
    assert (x = x') as <-; [|done].
    apply (Hinj x x' y); [left|by right|done|done].
  - apply IH; [|intros; apply Hf; by right|exact Hl].
    intros x1 x2 y H1 H2. apply Hinj; by right.
Qed.

Lemma count_up_NoDup (n : nat) : forall k, NoDup (count_up n k).
Proof.
  induction n as [|n IH]; intros k; cbn [count_up]; [apply NoDup_nil_2|].
  apply NoDup_cons. split; [|apply IH].
  intros Hk. pose proof (count_up_lower n (k + 1)) as Hlow.
  rewrite Forall_forall in Hlow. specialize (Hlow k Hk). simpl in Hlow. lia.
Qed.

Lemma total_degree_indices_NoDup (nvars : nat) :
  forall degree, NoDup (total_degree_indices nvars degree).
Proof.
  induction nvars as [|n IH]; intros degree; cbn [total_degree_indices].
  - apply NoDup_singleton.
  - apply flat_map_NoDup.
    + intros k1 k2 i _ _ H1 H2.
      apply list_elem_of_fmap in H1 as (r1 & -> & _).
      apply list_elem_of_fmap in H2 as (r2 & [= -> _] & _). done.
    + intros k _. apply NoDup_fmap_2; [|apply IH].
      intros r1 r2 [= ->]. done.
    + apply count_up_NoDup.
Qed.

(** X15. Whenever the expand-and-restrict search returns, there is a basis,
    grown from the seed cross by whole expansion steps (never restricted),
    such that the returned score and regularisation parameter are exactly
    those of the fit on that basis, and the returned expansion is that fit
    with the zero coefficients and their indices left out. *)
Theorem expanding_basis_pce_returns_grown_fit
  {K : Type} `{Countable K} (hash_array : multi_index -> K)
  (backend : solver_class -> gmap string pyval -> ndarray -> list Q -> exn + fitted)
  (num_vars : nat) (basis_matrix : list multi_index -> ndarray -> ndarray)
  (compute_hyperbolic_indices : nat -> Z -> Q -> list multi_index)
  (train_samples train_vals : ndarray) (hcross_strength : Q)
  (linear_solver_options : gmap string pyval) (solver_type : string)
  (restriction_tol : Q) (fuel : nat) (pce0 : PCE) (max_num_terms : option Z)
  (pce : PCE) (score : option Q) (reg : option reg_param) :
  _expanding_basis_pce hash_array backend num_vars basis_matrix
    compute_hyperbolic_indices train_samples train_vals hcross_strength
    linear_solver_options solver_type restriction_tol fuel pce0 max_num_terms
  = Ok (pce, score, reg) ->
  exists degree nterms basis coef,
    seed_degree num_vars compute_hyperbolic_indices hcross_strength
      (default (10 * Z.of_nat (default 0%nat (shape train_vals !! 1%nat)))
               max_num_terms) fuel = Ok (degree, nterms) /\
    grown hash_array num_vars
          (compute_hyperbolic_indices num_vars degree hcross_strength) basis /\
    fit_linear_model backend (basis_matrix basis train_samples) train_vals
                     solver_type linear_solver_options
      = Ok (coef, score, reg) /\
    indices pce =
      fst <$> List.filter (fun ic => Qnonzero ic.2) (zip basis coef) /\
    coefficients pce = List.filter Qnonzero coef.
Proof.
  intros Hrun.
  apply expanding_basis_pce_returns in Hrun
    as (degree & nterms & coef0 & score0 & reg0 & b & Hseed & _ & Hb & _ & Hfin).
  destruct Hb as (Hg & Hfit & _).
  apply finalize_returns in Hfin as [Hi Hc].
  exists degree, nterms, (best_indices b), (best_coef b).
  repeat split; assumption.
Qed.

Lemma expanding_basis_pce_returns_grown_fit_witness :
  exists degree nterms basis coef,
    seed_degree 1%nat hyperbolic_p1 1%Q 3 10 = Ok (degree, nterms) /\
    grown id 1%nat (hyperbolic_p1 1%nat degree 1%Q) basis /\
    fit_linear_model constant_fit_backend (design_shape basis three_samples)
                     (constant_vals 3 1%Q) "lstsq" cv3
      = Ok (coef, Some 0%Q, Some (RegAlpha 0)) /\
    [[0]] = fst <$> List.filter (fun ic => Qnonzero ic.2) (zip basis coef) /\
    [1%Q] = List.filter Qnonzero coef.
Proof.
  apply (expanding_basis_pce_returns_grown_fit id constant_fit_backend 1%nat
           design_shape hyperbolic_p1 three_samples (constant_vals 3 1%Q) 1%Q
           cv3 "lstsq" (1 # 1000)%Q 10 empty_pce (Some 3)
           {| indices := [[0]]; coefficients := [1%Q] |}).
  vm_compute. reflexivity.
Defined.

(** X16. The score that the expand-and-restrict search returns is never
    worse than the score of the fit on the seed cross. *)
Theorem expanding_basis_pce_score_at_most_seed
  {K : Type} `{Countable K} (hash_array : multi_index -> K)
  (backend : solver_class -> gmap string pyval -> ndarray -> list Q -> exn + fitted)
  (num_vars : nat) (basis_matrix : list multi_index -> ndarray -> ndarray)
  (compute_hyperbolic_indices : nat -> Z -> Q -> list multi_index)
  (train_samples train_vals : ndarray) (hcross_strength : Q)
  (linear_solver_options : gmap string pyval) (solver_type : string)
  (restriction_tol : Q) (fuel : nat) (pce0 : PCE) (max_num_terms : option Z)
  (pce : PCE) (score : option Q) (reg : option reg_param) :
  _expanding_basis_pce hash_array backend num_vars basis_matrix
    compute_hyperbolic_indices train_samples train_vals hcross_strength
    linear_solver_options solver_type restriction_tol fuel pce0 max_num_terms
  = Ok (pce, score, reg) ->
  exists degree nterms coef0 s0 reg0 s,
    seed_degree num_vars compute_hyperbolic_indices hcross_strength
      (default (10 * Z.of_nat (default 0%nat (shape train_vals !! 1%nat)))
               max_num_terms) fuel = Ok (degree, nterms) /\
    fit_linear_model backend
      (basis_matrix (compute_hyperbolic_indices num_vars degree hcross_strength)
                    train_samples)
      train_vals solver_type linear_solver_options
      = Ok (coef0, Some s0, reg0) /\
    score = Some s /\ (s <= s0)%Q.
Proof.
  intros Hrun.
  apply expanding_basis_pce_returns in Hrun
    as (degree & nterms & coef0 & score0 & reg0 & b & Hseed & Hfit0 & Hb
        & [s ->] & _).
  destruct Hb as (_ & _ & Hle).
  destruct score0 as [s0|]; [|contradiction].
  exists degree, nterms, coef0, s0, reg0, s. repeat split; assumption.
Qed.

Lemma expanding_basis_pce_score_at_most_seed_witness :
  exists degree nterms coef0 s0 reg0 s,
    seed_degree 1%nat hyperbolic_p1 1%Q 3 10 = Ok (degree, nterms) /\
    fit_linear_model constant_fit_backend
      (design_shape (hyperbolic_p1 1%nat degree 1%Q) three_samples)
      (constant_vals 3 1%Q) "lstsq" cv3
      = Ok (coef0, Some s0, reg0) /\
    Some 0%Q = Some s /\ (s <= s0)%Q.
Proof.
  apply (expanding_basis_pce_score_at_most_seed id constant_fit_backend 1%nat
           design_shape hyperbolic_p1 three_samples (constant_vals 3 1%Q) 1%Q
           cv3 "lstsq" (1 # 1000)%Q 10 empty_pce (Some 3)
           {| indices := [[0]]; coefficients := [1%Q] |} (Some 0%Q)
           (Some (RegAlpha 0))).
  vm_compute. reflexivity.
Defined.

(** X17. The expansion that the expand-and-restrict search returns has as
    many coefficients as indices, and no coefficient equal to zero. When
    the hyperbolic crosses have no repeated index, neither has the returned
    index set. *)
Theorem expanding_basis_pce_result_shape
  {K : Type} `{Countable K} (hash_array : multi_index -> K)
  (backend : solver_class -> gmap string pyval -> ndarray -> list Q -> exn + fitted)
  (num_vars : nat) (basis_matrix : list multi_index -> ndarray -> ndarray)
  (compute_hyperbolic_indices : nat -> Z -> Q -> list multi_index)
  (train_samples train_vals : ndarray) (hcross_strength : Q)
  (linear_solver_options : gmap string pyval) (solver_type : string)
  (restriction_tol : Q) (fuel : nat) (pce0 : PCE) (max_num_terms : option Z)
  (pce : PCE) (score : option Q) (reg : option reg_param) :
  _expanding_basis_pce hash_array backend num_vars basis_matrix
    compute_hyperbolic_indices train_samples train_vals hcross_strength
    linear_solver_options solver_type restriction_tol fuel pce0 max_num_terms
  = Ok (pce, score, reg) ->
  length (indices pce) = length (coefficients pce) /\
  Forall (fun c => ~ (c == 0)%Q) (coefficients pce) /\
  ((forall degree,
       NoDup (compute_hyperbolic_indices num_vars degree hcross_strength)) ->
   NoDup (indices pce)).
Proof.
  intros Hrun.
  apply expanding_basis_pce_returns in Hrun
    as (degree & nterms & coef0 & score0 & reg0 & b & _ & _ & Hb & _ & Hfin).
  destruct Hb as (Hg & _ & _).
  pose proof (finalize_returns b pce Hfin) as [Hi Hc].
  split; [|split].
  - unfold finalize in Hfin.
    destruct (take_columns (best_indices b) _) as [fi|e|] eqn:Hfi;
      cbn [mbind result_bind] in Hfin; try discriminate.
    destruct (take_columns (best_coef b) _) as [fc|e|] eqn:Hfc;
      cbn [mbind result_bind] in Hfin; try discriminate.
    injection Hfin as <-. cbn [indices coefficients].
    apply take_columns_length in Hfi, Hfc. congruence.
  - rewrite Hc. apply Forall_forall. intros c Hin.
    apply list_elem_of_In, filter_In in Hin as [_ Hnz].
    unfold Qnonzero in Hnz. apply negb_true_iff in Hnz.
    intros Hzero. apply Qeq_bool_iff in Hzero. congruence.
  - intros Hchi. rewrite Hi.
    eapply (sublist_NoDup _ (best_indices b)); [|apply filter_zip_sublist].
    eapply grown_NoDup; [apply Hchi|exact Hg].
Qed.

Lemma expanding_basis_pce_result_shape_witness :
  length [[0]] = length [1%Q] /\
  Forall (fun c => ~ (c == 0)%Q) [1%Q] /\
  NoDup [[0]].
Proof.
  destruct (expanding_basis_pce_result_shape id constant_fit_backend 1%nat
              design_shape hyperbolic_p1 three_samples (constant_vals 3 1%Q)
              1%Q cv3 "lstsq" (1 # 1000)%Q 10 empty_pce (Some 3)
              {| indices := [[0]]; coefficients := [1%Q] |} (Some 0%Q)
              (Some (RegAlpha 0))) as (Hlen & Hnz & Hnd).
  - vm_compute. reflexivity.
  - split; [exact Hlen|]. split; [exact Hnz|].
    apply Hnd. intros degree. apply total_degree_indices_NoDup.
Defined.

(** ** The constant term and the closing filter *)




(** ** The rounds of the inner loop *)

Lemma take_columns_finishes {A} (cols : list A) (I : list nat) :
  take_columns cols I <> Unfinished.
Proof.
  induction I as [|j I IH]; cbn [take_columns]; [discriminate|].
  destruct (cols !! j); [|discriminate].
  destruct (take_columns cols I); cbn [mbind result_bind];
    [discriminate|discriminate|done].
Qed.

Lemma restrict_basis_finishes indices coefficients tol :
  restrict_basis indices coefficients tol <> Unfinished.
Proof.
  unfold restrict_basis.
  destruct (take_columns indices _) as [r|e|] eqn:Hcols;
    cbn [mbind result_bind]; [|discriminate|by apply take_columns_finishes in Hcols].
  destruct (length _ =? 1)%nat; cbn [py_assert mbind result_bind];
    [|discriminate].
  destruct (forallb _ _); discriminate.
Qed.

Section InnerRounds.
Context {K : Type} `{Countable K}.
Variable hash_array : multi_index -> K.
Variable backend :
  solver_class -> gmap string pyval -> ndarray -> list Q -> exn + fitted.
Variable num_vars : nat.
Variable basis_matrix : list multi_index -> ndarray -> ndarray.
Variables (train_samples train_vals : ndarray).
Variable linear_solver_options : gmap string pyval.
Variable solver_type : string.
Variable restriction_tol : Q.
Variable max_num_terms : Z.

Let inner_round := inner_body hash_array backend num_vars basis_matrix
  train_samples train_vals linear_solver_options solver_type restriction_tol
  max_num_terms.
Let inner_rounds := inner_loop hash_array backend num_vars basis_matrix
  train_samples train_vals linear_solver_options solver_type restriction_tol
  max_num_terms.

Lemma expand_loop_finishes n : forall pce nterms,
  expand_loop hash_array num_vars n pce nterms <> Unfinished.
Proof.
  induction n as [|n IH]; intros pce nterms; cbn [expand_loop];
    [discriminate|].
  destruct (expand_basis hash_array num_vars (indices pce)); [discriminate|].
  apply IH.
Qed.

Lemma inner_body_finishes steps b st :
  inner_round steps b st <> Unfinished.
Proof.
  unfold inner_round, inner_body, expand_block.
  destruct st as [[pce nterms] ib].
  destruct (restrict_basis _ _ _) as [r|e|] eqn:Hres;
    cbn [mbind result_bind];
    [|discriminate|by apply restrict_basis_finishes in Hres].
  destruct (expand_loop _ _ _ _ _) as [[pce1 nterms1]|e|] eqn:Hexp;
    cbn [mbind result_bind];
    [|discriminate|by apply expand_loop_finishes in Hexp].
  destruct (fit_linear_model _ _ _ _ _) as [[[coef sc] reg]|e|] eqn:Hfit;
    cbn [mbind result_bind];
    [|discriminate|by apply fit_linear_model_finishes in Hfit].
  destruct sc as [x|], (best_cv_score_iter ib) as [y|];
    cbn [py_lt mbind result_bind]; try discriminate.
  destruct (max_num_terms <=? nterms1); [discriminate|].
  destruct (3 <=? steps)%nat; discriminate.
Qed.

Lemma inner_body_last_round steps b st st' :
  (3 <= steps)%nat -> inner_round steps b st <> Ok (Continue st').
Proof.
  intros Hsteps. unfold inner_round, inner_body.
  destruct st as [[pce nterms] ib].
  destruct (expand_block _ _ _ _ _ _ _) as [[[pce1 nterms1] k]|e|];
    cbn [mbind result_bind]; try discriminate.
  destruct (fit_linear_model _ _ _ _ _) as [[[coef sc] reg]|e|];
    cbn [mbind result_bind]; try discriminate.
  destruct (py_lt _ _) as [improved|e|]; cbn [mbind result_bind];
    try discriminate.
  destruct (max_num_terms <=? nterms1); [discriminate|].
  rewrite (proj2 (Nat.leb_le 3 steps) Hsteps). discriminate.
Qed.

Lemma inner_loop_enough fuel : forall steps b st,
  (1 <= fuel)%nat -> (4 <= fuel + steps)%nat ->
  inner_rounds (S fuel) steps b st = inner_rounds fuel steps b st /\
  inner_rounds fuel steps b st <> Unfinished.
Proof.
  induction fuel as [|fuel IH]; intros steps b st Hfuel Hsum; [lia|].
  assert (Hstep : forall n, inner_rounds (S n) steps b st =
            r ← inner_round steps b st;
            match r with
            | Break st' => Ok st'
            | Continue st' => inner_rounds n (S steps) b st'
            end) by reflexivity.
  rewrite (Hstep (S fuel)), (Hstep fuel).
  pose proof (inner_body_finishes steps b st) as Hfin.
  destruct (inner_round steps b st) as [[st'|st']|e|] eqn:Hbody;
    cbn [mbind result_bind]; [|by split|by split|done].
  destruct (Nat.eq_dec fuel 0%nat) as [->|Hpos].
  - exfalso. apply (inner_body_last_round steps b st st'); [lia|exact Hbody].
  - apply (IH (S steps) b st'); lia.
Qed.

End InnerRounds.

(** X19. The inner loop of the expand-and-restrict search ends within
    three rounds: from its start at one expansion step, three rounds always
    reach a result or an exception, and more rounds change nothing. *)
Theorem inner_loop_within_three_rounds
  {K : Type} `{Countable K} (hash_array : multi_index -> K)
  (backend : solver_class -> gmap string pyval -> ndarray -> list Q -> exn + fitted)
  (num_vars : nat) (basis_matrix : list multi_index -> ndarray -> ndarray)
  (train_samples train_vals : ndarray)
  (linear_solver_options : gmap string pyval) (solver_type : string)
  (restriction_tol : Q) (max_num_terms : Z) (fuel : nat) (b : best)
  (st : PCE * Z * iter_best) :
  (3 <= fuel)%nat ->
  inner_loop hash_array backend num_vars basis_matrix train_samples train_vals
             linear_solver_options solver_type restriction_tol max_num_terms
             fuel 1 b st
  = inner_loop hash_array backend num_vars basis_matrix train_samples train_vals
               linear_solver_options solver_type restriction_tol max_num_terms
               3 1 b st /\
  inner_loop hash_array backend num_vars basis_matrix train_samples train_vals
             linear_solver_options solver_type restriction_tol max_num_terms
             3 1 b st <> Unfinished.
Proof.
  intros Hfuel.
  pose proof (inner_loop_enough hash_array backend num_vars basis_matrix
                train_samples train_vals linear_solver_options solver_type
                restriction_tol max_num_terms) as Henough.
  split; [|apply Henough; lia].
  induction fuel as [|fuel IH]; [lia|].
  destruct (Nat.eq_dec fuel 2%nat) as [->|Hne]; [reflexivity|].
  rewrite <- IH by lia. apply Henough; lia.
Qed.

Lemma inner_loop_within_three_rounds_witness :
  let b := {| best_indices := [[0]; [1]]; best_coef := [1; 0]%Q;
              best_cv_score := Some 0%Q; best_reg_param := Some (RegAlpha 0);
              best_num_expansion_steps := 3 |} in
  let st := ({| indices := [[0]; [1]]; coefficients := [1; 0]%Q |}, 2,
             {| best_cv_score_iter := Some 0%Q; best_iter := None;
                best_num_expansion_steps_iter := 3 |}) in
  inner_loop id constant_fit_backend 1%nat design_shape three_samples
             (constant_vals 3 1%Q) cv3 "lstsq" (1 # 1000)%Q 10 7 1 b st
  = inner_loop id constant_fit_backend 1%nat design_shape three_samples
               (constant_vals 3 1%Q) cv3 "lstsq" (1 # 1000)%Q 10 3 1 b st /\
  inner_loop id constant_fit_backend 1%nat design_shape three_samples
             (constant_vals 3 1%Q) cv3 "lstsq" (1 # 1000)%Q 10 3 1 b st
  <> Unfinished.
Proof.
  intros b st.
  apply (inner_loop_within_three_rounds id constant_fit_backend 1%nat
           design_shape three_samples (constant_vals 3 1%Q) cv3 "lstsq"
           (1 # 1000)%Q 10 7 b st).
  lia.
Defined.

(** ** Merging and the fixed basis, further *)

Lemma register_nothing {K : Type} `{Countable K} (hash_array : multi_index -> K)
      (per_qoi : list (list multi_index * list Q)) :
  forall st,
    Forall (fun qoi => qoi.1 = []) per_qoi ->
    foldl (fun st qoi => foldl (register hash_array) st qoi.1) st per_qoi = st.
Proof.
  induction per_qoi as [|q per_qoi IH]; intros st Hall; [done|].
  apply Forall_cons in Hall as [Hq Hall]. cbn [foldl]. rewrite Hq.
  cbn [foldl]. by apply IH.
Qed.

(** X20. When no QoI has selected any index, the merge raises [IndexError]:
    the array of no indices has no second axis to size the coefficient
    array with. *)
Theorem merge_qoi_without_indices_raises
  {K : Type} `{Countable K} (hash_array : multi_index -> K)
  (per_qoi : list (list multi_index * list Q)) :
  Forall (fun qoi => qoi.1 = []) per_qoi ->
  merge_qoi hash_array per_qoi = Raise IndexError.
Proof.
  intros Hall. unfold merge_qoi. by rewrite register_nothing.
Qed.

Lemma merge_qoi_without_indices_raises_witness :
  merge_qoi id [([], []); ([], [])] = Raise IndexError.
Proof.
  apply merge_qoi_without_indices_raises. repeat constructor.
Defined.

Lemma first_seen_fresh (l : list multi_index) : forall acc,
  NoDup (acc ++ l) ->
  foldl (fun acc x => if bool_decide (x ∈ acc) then acc else acc ++ [x]) acc l
  = acc ++ l.
Proof.
  induction l as [|x l IH]; intros acc Hnd; cbn [foldl];
    [by rewrite app_nil_r|].
  rewrite bool_decide_false.
  - rewrite IH; rewrite <- app_assoc; [done|exact Hnd].
  - apply NoDup_app in Hnd as (_ & Hdisj & _).
    intros Hx. apply (Hdisj x Hx). left.
Qed.

Lemma first_seen_stale (l : list multi_index) : forall acc,
  (forall x, x ∈ l -> x ∈ acc) ->
  foldl (fun acc x => if bool_decide (x ∈ acc) then acc else acc ++ [x]) acc l
  = acc.
Proof.
  induction l as [|x l IH]; intros acc Hin; cbn [foldl]; [done|].
  rewrite bool_decide_true by (apply Hin; left).
  apply IH. intros y Hy. apply Hin. by right.
Qed.

Lemma first_seen_shared (idx : list multi_index) (rest : list multi_index) :
  NoDup idx -> (forall x, x ∈ rest -> x ∈ idx) ->
  first_seen (idx ++ rest) = idx.
Proof.
  intros Hnd Hrest. unfold first_seen. rewrite foldl_app.
  rewrite (first_seen_fresh idx []) by exact Hnd.
  by apply first_seen_stale.
Qed.

(** What the merge returns on bases without repeated indices that come with
    as many coefficients as indices. *)
Lemma merge_qoi_returns
  {K : Type} `{Countable K} (hash_array : multi_index -> K)
  (per_qoi : list (list multi_index * list Q)) :
  Inj (=) (=) hash_array ->
  Forall (fun qoi => NoDup qoi.1 /\ length qoi.2 = length qoi.1) per_qoi ->
  concat (fst <$> per_qoi) <> [] ->
  exists all_coefs,
    merge_qoi hash_array per_qoi
      = Ok (first_seen (concat (fst <$> per_qoi)), all_coefs) /\
    well_shaped (length (first_seen (concat (fst <$> per_qoi))))
                (length per_qoi) all_coefs /\
    (forall q idxs cfs j idx c row,
        per_qoi !! q = Some (idxs, cfs) ->
        idxs !! j = Some idx -> cfs !! j = Some c ->
        first_seen (concat (fst <$> per_qoi)) !! row = Some idx ->
        entry all_coefs row q = Some c).
Proof.
  intros Hinj Hbasis Hnonempty.
  destruct (register_all hash_array Hinj per_qoi) as [Hinv HU].
  unfold merge_qoi.
  destruct (foldl (fun st qoi => foldl (register hash_array) st qoi.1)
                  (∅, []) per_qoi) as [d U] eqn:Hfold.
  cbn [snd] in HU. subst U.
  assert (HUne : first_seen (concat (fst <$> per_qoi)) <> []).
  { intros HU. destruct (concat (fst <$> per_qoi)) as [|x l]; [done|].
    assert (Hx : x ∈ first_seen (x :: l)) by (apply first_seen_elem; left).
    rewrite HU in Hx. inversion Hx. }
  set (U := first_seen (concat (fst <$> per_qoi))) in *.
  assert (Hmem : forall idxs cfs, (idxs, cfs) ∈ per_qoi ->
                                  forall idx, idx ∈ idxs -> idx ∈ U).
  { intros idxs cfs Hq idx Hidx. apply first_seen_elem.
    apply (elem_of_concat_2 _ idxs); [|done].
    apply list_elem_of_fmap. by exists (idxs, cfs). }
  assert (Hnd : NoDup U) by apply Hinv.
  assert (Hdict : forall u row, d !! hash_array u = Some row <-> U !! row = Some u).
  { intros u row. apply (register_inv_lookup hash_array Hinj (d, U) u row Hinv). }
  assert (HM0 : well_shaped (length U) (length per_qoi)
                  (replicate (length U) (replicate (length per_qoi) 0%Q))).
  { split; [by rewrite length_replicate|].
    apply Forall_replicate. by rewrite length_replicate. }
  destruct (scatter_all_spec hash_array d U (length per_qoi) Hnd Hdict
              per_qoi 0%nat _ HM0 ltac:(simpl; lia))
    as (M & Hrun & HM & Hwritten & _).
  { apply Forall_forall. intros [idxs cfs] Hq.
    rewrite Forall_forall in Hbasis. destruct (Hbasis _ Hq) as [? ?].
    split; [done|]. split; [done|]. cbn [fst]. by eapply Hmem. }
  destruct U as [|u0 U'] eqn:HUeq; [done|]. rewrite <- HUeq in *.
  rewrite Hrun. exists M. split; [done|]. split; [done|].
  intros q idxs cfs j idx c row Hq Hj Hc Hrow.
  exact (Hwritten q idxs cfs j idx c row Hq Hj Hc Hrow).
Qed.

Lemma elem_of_concat_replicate {A} (n : nat) (l : list A) (x : A) :
  x ∈ concat (replicate n l) -> x ∈ l.
Proof.
  induction n as [|n IH]; cbn [replicate concat]; [by intros ?%elem_of_nil|].
  intros [Hx|Hx]%elem_of_app; [exact Hx|by apply IH].
Qed.

Section FixedBasisFacts.
Context {K : Type} `{Countable K}.
Variable hash_array : multi_index -> K.
Variable backend :
  solver_class -> gmap string pyval -> ndarray -> list Q -> exn + fitted.
Variable basis_matrix : list multi_index -> ndarray -> ndarray.
Variables (train_samples train_vals : ndarray).
Variable solver_type : string.
Variable shared_indices : list multi_index.
Variable options : gmap string pyval.
Variable nqoi : nat.

Let fit_column (q : nat) :=
  fit_linear_model backend (basis_matrix shared_indices train_samples)
                   (qoi_column train_vals q) solver_type options.

Lemma fixed_fits_shared (n : nat) : forall ii,
  (ii + n <= nqoi)%nat ->
  (forall q, (q < nqoi)%nat ->
     exists coef score reg,
       fit_column q = Ok (coef, score, reg) /\
       length coef = length shared_indices) ->
  exists l,
    fixed_fits backend basis_matrix train_samples train_vals solver_type
               (replicate nqoi shared_indices) (replicate nqoi options) ii n
      = Ok l /\
    fst <$> l = replicate n shared_indices /\
    (forall k cfs, (snd <$> l) !! k = Some cfs ->
       length cfs = length shared_indices /\
       exists score reg, fit_column (ii + k) = Ok (cfs, score, reg)).
Proof.
  induction n as [|n IH]; intros ii Hle Hfits; cbn [fixed_fits].
  - exists []. split; [done|]. split; [done|]. intros k cfs Hk.
    by rewrite fmap_nil, lookup_nil in Hk.
  - rewrite !lookup_replicate_2 by lia.
    destruct (Hfits ii ltac:(lia)) as (coef & score & reg & Hfit & Hlen).
    unfold fit_column in Hfit. rewrite Hfit. cbn [mbind result_bind].
    destruct (IH (S ii) ltac:(lia) Hfits) as (l & -> & Hfst & Hsnd).
    cbn [mbind result_bind]. eexists. split; [reflexivity|].
    split; [by rewrite fmap_cons, Hfst|].
    intros [|k] cfs Hk; rewrite fmap_cons in Hk; cbn in Hk.
    + injection Hk as <-. split; [exact Hlen|].
      exists score, reg. by rewrite Nat.add_0_r.
    + apply Hsnd in Hk as [Hl (sc & rg & Hk)]. split; [exact Hl|].
      exists sc, rg. by rewrite <- Nat.add_succ_comm.
Qed.

End FixedBasisFacts.

(** X21. [approximate_fixed_pce] with one index array for all QoIs, without
    repeated index and not empty, one dict of options, and a collision-free
    key function: when the fit of every QoI column returns as many
    coefficients as there are indices, the function returns, the expansion
    keeps the index array as given, and column [q] of its coefficient array
    holds the coefficients of the fit on column [q] of the targets. *)
Theorem approximate_fixed_pce_shared_basis
  {K : Type} `{Countable K} (hash_array : multi_index -> K)
  (backend : solver_class -> gmap string pyval -> ndarray -> list Q -> exn + fitted)
  (basis_matrix : list multi_index -> ndarray -> ndarray)
  (train_samples train_vals : ndarray) (solver_type : string)
  (shared_indices : list multi_index) (options : gmap string pyval)
  (nqoi : nat) :
  let fit q :=
    fit_linear_model backend (basis_matrix shared_indices train_samples)
                     (qoi_column train_vals q) solver_type options in
  Inj (=) (=) hash_array ->
  shape train_vals !! 1%nat = Some nqoi ->
  (0 < nqoi)%nat ->
  NoDup shared_indices -> shared_indices <> [] ->
  (forall q, (q < nqoi)%nat ->
     exists coef score reg,
       fit q = Ok (coef, score, reg) /\ length coef = length shared_indices) ->
  exists all_coefs,
    approximate_fixed_pce hash_array backend basis_matrix train_samples
      train_vals solver_type (inl shared_indices) (inl options)
    = Ok (shared_indices, all_coefs) /\
    well_shaped (length shared_indices) nqoi all_coefs /\
    (forall q coef score reg j c,
        (q < nqoi)%nat -> fit q = Ok (coef, score, reg) ->
        coef !! j = Some c -> entry all_coefs j q = Some c).
Proof.
  intros fit Hinj Hshape Hpos Hnd Hne Hfits. unfold approximate_fixed_pce.
  rewrite Hshape.
  destruct (fixed_fits_shared backend basis_matrix train_samples train_vals
              solver_type shared_indices options nqoi nqoi 0 ltac:(lia) Hfits)
    as (l & -> & Hfst & Hsnd).
  cbn [mbind result_bind].
  assert (Hlen : length l = nqoi).
  { rewrite <- (length_fmap fst), Hfst. apply length_replicate. }
  assert (Hfs : first_seen (concat (fst <$> l)) = shared_indices).
  { rewrite Hfst. destruct nqoi as [|m]; [lia|]. cbn [replicate concat].
    apply first_seen_shared; [exact Hnd|].
    intros x. apply elem_of_concat_replicate. }
  destruct (merge_qoi_returns hash_array l Hinj) as (M & Hrun & HM & Hwritten).
  - apply Forall_lookup_2. intros q [idxs cfs] Hq. cbn [fst snd].
    assert (Hi : (fst <$> l) !! q = Some idxs)
      by (by rewrite list_lookup_fmap, Hq).
    rewrite Hfst in Hi. apply lookup_replicate in Hi as [-> _].
    split; [exact Hnd|].
    apply (Hsnd q cfs). by rewrite list_lookup_fmap, Hq.
  - rewrite Hfst. destruct nqoi as [|m]; [lia|]. cbn [replicate concat].
    destruct shared_indices; [done|discriminate].
  - rewrite Hfs, Hlen in *. exists M. split; [exact Hrun|]. split; [exact HM|].
    intros q coef score reg j c Hq Hfit Hc.
    destruct (lookup_lt_is_Some_2 l q) as [[idxs cfs] Hl]; [lia|].
    assert (Hi : (fst <$> l) !! q = Some idxs)
      by (by rewrite list_lookup_fmap, Hl).
    rewrite Hfst in Hi. apply lookup_replicate in Hi as [-> _].
    destruct (Hsnd q cfs) as [Hcl (sc & rg & Hfit')];
      [by rewrite list_lookup_fmap, Hl|].
    cbn [Nat.add] in Hfit'. unfold fit in Hfit. rewrite Hfit in Hfit'.
    injection Hfit' as -> _ _.
    destruct (lookup_lt_is_Some_2 shared_indices j) as [idx Hidx].
    { rewrite <- Hcl. by eapply lookup_lt_Some. }
    exact (Hwritten q shared_indices cfs j idx c j Hl Hidx Hc Hidx).
Qed.

(** Three samples of two QoIs, constant at 1 and at 2, on the basis of the
    degrees 0 and 1 of one variable. *)
Lemma approximate_fixed_pce_shared_basis_witness :
  let train_vals := {| shape := [3%nat; 2%nat];
                       rows := [[1; 2]; [1; 2]; [1; 2]]%Q |} in
  exists all_coefs,
    approximate_fixed_pce id constant_fit_backend design_shape three_samples
      train_vals "lstsq" (inl [[0]; [1]]) (inl ∅)
    = Ok ([[0]; [1]], all_coefs) /\
    entry all_coefs 0 1 = Some 2%Q.
Proof.
  intros train_vals.
  destruct (approximate_fixed_pce_shared_basis id constant_fit_backend
              design_shape three_samples train_vals "lstsq" [[0]; [1]] ∅ 2)
    as (M & Hrun & _ & Hentry).
  - intros x y Hxy. exact Hxy.
  - reflexivity.
  - lia.
  - apply NoDup_cons. split; [|apply NoDup_singleton].
    intros Hin. apply list_elem_of_singleton in Hin. discriminate.
  - discriminate.
  - intros [|[|q]] Hq; [| |lia]; eexists _, _, _; split;
      try (vm_compute; reflexivity).
  - exists M. split; [exact Hrun|].
    apply (Hentry 1%nat [2; 0]%Q None None 0%nat 2%Q); [lia| |reflexivity].
    vm_compute. reflexivity.
Defined.

(** ** The entry points, further *)

Lemma dict_get_None {V} (d : list (string * V)) (key : string) :
  key ∉ (fst <$> d) -> dict_get d key = None.
Proof.
  induction d as [|[k v] d IH]; intros Hnot; cbn [dict_get]; [done|].
  rewrite fmap_cons in Hnot. cbn [fst] in Hnot.
  destruct (String.eqb_spec key k) as [->|_].
  - exfalso. apply Hnot. left.
  - apply IH. intros Hin. apply Hnot. by right.
Qed.

(** X22. A method that is not one of the two keys of its table makes
    [approximate], and likewise [adaptive_approximate], raise the message
    that names it and lists the two available methods; no approximation is
    started. *)
Theorem approximate_unknown_method
  (Obj Res : Type)
  (approximation_call :
     approximation -> ndarray -> ndarray -> gmap string Obj -> result Res)
  (adaptive_approximation_call :
     adaptive_approximation -> Obj -> Obj -> gmap string Obj -> result Res)
  (method : string) (options : option (gmap string Obj)) :
  (method ∉ ["polynomial_chaos"; "gaussian_process"]%string ->
   forall train_samples train_vals,
     approximate Obj Res approximation_call train_samples train_vals
                 method options
     = Raise (Exception
                (not_found_msg "Method" "methods" method
                               ["polynomial_chaos"; "gaussian_process"]))) /\
  (method ∉ ["sparse_grid"; "polynomial_chaos"]%string ->
   forall fun_ variable,
     adaptive_approximate Obj Res adaptive_approximation_call fun_ variable
                          method options
     = Raise (Exception
                (not_found_msg "Method" "methods" method
                               ["sparse_grid"; "polynomial_chaos"]))).
Proof.
  split; intros Hnot *.
  - unfold approximate. by rewrite dict_get_None.
  - unfold adaptive_approximate. by rewrite dict_get_None.
Qed.

(** The method [sparse_grid] is adaptive only, [gaussian_process] is not
    adaptive. *)
Lemma approximate_unknown_method_witness :
  approximate unit unit (fun _ _ _ _ => Ok tt) three_samples
              (constant_vals 3 1%Q) "sparse_grid" None
  = Raise (Exception
             (not_found_msg "Method" "methods" "sparse_grid"
                            ["polynomial_chaos"; "gaussian_process"])) /\
  not_found_msg "Method" "methods" "sparse_grid"
                ["polynomial_chaos"; "gaussian_process"]
  = ("Method sparse_grid not found." +:+ newline
     +:+ " Available methods are:" +:+ newline
     +:+ tab +:+ "polynomial_chaos" +:+ newline
     +:+ tab +:+ "gaussian_process" +:+ newline)%string.
Proof.
  split; [|vm_compute; reflexivity].
  refine (proj1 (approximate_unknown_method unit unit (fun _ _ _ _ => Ok tt)
                   (fun _ _ _ _ => Ok tt) "sparse_grid" None) _
                three_samples (constant_vals 3 1%Q)).
  intros Hin. repeat (apply elem_of_cons in Hin as [Hin|Hin]; [discriminate|]).
  inversion Hin.
Defined.

Lemma bind_keywords_missing {Obj : Type} (parameters : list (string * bool))
      (options : gmap string Obj) (key : string) :
  (key, false) ∈ parameters -> options !! key = None ->
  bind_keywords Obj parameters options = Raise TypeError.
Proof.
  intros Hin Hnone. unfold bind_keywords.
  destruct (forallb (fun p : string * bool => _) parameters) eqn:Hall.
  - rewrite forallb_forall in Hall.
    specialize (Hall (key, false) ltac:(by apply list_elem_of_In)).
    cbn [fst snd orb] in Hall. rewrite Hnone in Hall.
    rewrite bool_decide_false in Hall by (by intros [? ?]). discriminate.
  - by rewrite andb_false_r.
Qed.

(** X23. With the basis type [fixed], [approximate_polynomial_chaos] cannot
    return unless its options carry the key [indices]: the function it
    dispatches to has a parameter of that name without default, and the
    options are the only place it can come from. In particular the call
    without options always raises. *)
Theorem approximate_polynomial_chaos_fixed_needs_indices
  (Obj Res RandomVariable Poly : Type)
  (configure_poly : RandomVariable -> exn + Poly)
  (basis_search_body :
     basis_search -> Poly -> ndarray -> ndarray -> gmap string Obj -> result Res)
  (train_samples train_vals : ndarray) (verbosity : Z)
  (variable : option RandomVariable) (options : option (gmap string Obj)) :
  default ∅ options !! "indices"%string = None ->
  raises (approximate_polynomial_chaos Obj Res RandomVariable Poly
            configure_poly basis_search_body train_samples train_vals
            verbosity "fixed" variable options).
Proof.
  intros Hnone. unfold approximate_polynomial_chaos.
  destruct variable as [v|]; [|exact I].
  cbn [dict_get funcs String.eqb Ascii.eqb Bool.eqb].
  destruct (configure_poly v) as [e|poly]; cbn [call mbind result_bind];
    [exact I|].
  rewrite (bind_keywords_missing _ _ "indices"); [exact I| |exact Hnone].
  cbn [keyword_parameters]. left.
Qed.

Lemma approximate_polynomial_chaos_fixed_needs_indices_witness :
  raises (approximate_polynomial_chaos unit unit unit unit
            (fun _ => inr tt) (fun _ _ _ _ _ => Ok tt)
            three_samples (constant_vals 3 1%Q) 0 "fixed" (Some tt) None).
Proof.
  apply approximate_polynomial_chaos_fixed_needs_indices. reflexivity.
Defined.

Lemma check_bounded_unbounded {UnivariateVariable G : Type}
      (is_bounded_continuous_variable : UnivariateVariable -> bool)
      (univariate_variables : list UnivariateVariable) :
  Exists (fun rv => is_bounded_continuous_variable rv = false)
         univariate_variables ->
  check_bounded UnivariateVariable is_bounded_continuous_variable
                (@None G) univariate_variables
  = Raise (Exception leja_msg).
Proof.
  induction univariate_variables as [|rv rest IH]; intros Hex;
    [by apply Exists_nil in Hex|].
  cbn [check_bounded].
  destruct (is_bounded_continuous_variable rv) eqn:Hrv; [|reflexivity].
  apply Exists_cons in Hex as [Hex|Hex]; [congruence|by apply IH].
Qed.

Lemma check_bounded_generator {UnivariateVariable G : Type}
      (is_bounded_continuous_variable : UnivariateVariable -> bool) (g : G)
      (univariate_variables : list UnivariateVariable) :
  check_bounded UnivariateVariable is_bounded_continuous_variable
                (Some g) univariate_variables
  = Ok tt.
Proof.
  induction univariate_variables as [|rv rest IH]; [reflexivity|].
  cbn [check_bounded]. by destruct (is_bounded_continuous_variable rv).
Qed.

(** X24. [adaptive_approximate_polynomial_chaos] without a generator of
    candidate samples refuses any variable that is not bounded and
    continuous: once the variable transformation is there, it raises its
    message about Leja sampling, and neither draws the Halton candidates nor
    builds anything. With a generator the same variables pass the check, and
    the outcome is that of the construction on the generated candidates. *)
Theorem adaptive_approximate_polynomial_chaos_bounded_guard
  (UnivariateVariable Transformation Samples Res : Type)
  (affine_transformation : list UnivariateVariable -> exn + Transformation)
  (is_bounded_continuous_variable : UnivariateVariable -> bool)
  (halton_candidates : Transformation -> Q -> exn + Samples)
  (build_leja_pce : Transformation -> Samples -> result Res)
  (univariate_variables : list UnivariateVariable) (ncandidate_samples : Q)
  (var_trans : Transformation) :
  affine_transformation univariate_variables = inr var_trans ->
  Exists (fun rv => is_bounded_continuous_variable rv = false)
         univariate_variables ->
  adaptive_approximate_polynomial_chaos UnivariateVariable Transformation
    Samples Res affine_transformation is_bounded_continuous_variable
    halton_candidates build_leja_pce univariate_variables ncandidate_samples
    None
  = Raise (Exception leja_msg) /\
  forall generate,
    adaptive_approximate_polynomial_chaos UnivariateVariable Transformation
      Samples Res affine_transformation is_bounded_continuous_variable
      halton_candidates build_leja_pce univariate_variables ncandidate_samples
      (Some generate)
    = candidate_samples ← call (generate ncandidate_samples);
      build_leja_pce var_trans candidate_samples.
Proof.
  intros Htrans Hex. unfold adaptive_approximate_polynomial_chaos.
  rewrite Htrans. cbn [call mbind result_bind]. split.
  - by rewrite check_bounded_unbounded.
  - intros generate. by rewrite check_bounded_generator.
Qed.

(** Variables stood for by their being bounded; the second of three is
    not. *)
Lemma adaptive_approximate_polynomial_chaos_bounded_guard_witness :
  adaptive_approximate_polynomial_chaos bool unit unit unit
    (fun _ => inr tt) id (fun _ _ => inr tt) (fun _ _ => Ok tt)
    [true; false; true] 10000%Q None
  = Raise (Exception leja_msg).
Proof.
  refine (proj1 (adaptive_approximate_polynomial_chaos_bounded_guard
                   bool unit unit unit (fun _ => inr tt) id
                   (fun _ _ => inr tt) (fun _ _ => Ok tt)
                   [true; false; true] 10000%Q tt _ _)).
  - reflexivity.
  - apply Exists_cons_tl, Exists_cons_hd. reflexivity.
Defined.
